(** * Personal Library Manager: the catalog core of [app.py]

    A shallow embedding of the class [LibraryManager] (load_library,
    save_library, add_book, remove_book, search_books, display_statistics)
    together with the part of Python's [json] module and of text I/O that
    the class drives.

    Conventions of the model.
    - A Python [str] is held as the string of its UTF-8 bytes, and the file
      on disk is a string of bytes as well: reading it in text mode is a check
      that the bytes decode.  Equality, emptiness and the substring test are
      the same on the bytes as on the characters (a character never starts
      inside the encoding of another one).
    - [str.lower] and [str.strip] are parameters of the methods that call
      them: their Unicode tables are Python's, not the repository's.
      [ascii_lower] and [ascii_strip] are what they do on ASCII text, and are
      what the examples run.
    - A Python [str] that holds a lone surrogate, as [json.load] builds one
      from an escape, is held with the surrogate in its three-byte form:
      those are the strings whose bytes do not decode, and the ones that
      a file opened with [encoding="utf-8"] refuses to write.
    - A Python [int] is a [Z], of any size; [str] and [int] convert no more
      than 4300 digits.  A Python [float] is the rational it denotes, and
      division and multiplication round to binary64.
    - The recursion limit of the interpreter is not modelled.  What is
      stated about reading is stated of the absent file, of files whose
      bytes do not decode, of files that [save_library] wrote, and of files
      from which the constructor is assumed to have built its library.
    - The storage location is writable and, when present, a regular file.
      The translation of line ends in text mode is left out: it only turns
      one JSON blank into another. *)

From Stdlib Require Import String Ascii List ZArith NArith QArith Bool Lia.
From Stdlib Require Import Qpower Qround Qabs Lqa.
From Stdlib Require Import Decimal DecimalString DecimalZ.
From Stdlib Require Import Floats Uint63.
Import ListNotations.
Local Close Scope Q_scope.
Local Open Scope string_scope.
Local Open Scope list_scope.

(* ------------------------------------------------------------------ *)
(** ** Characters and text *)

Definition code (c : ascii) : N := N_of_ascii c.

Definition dquote : ascii := "034"%char.
Definition backslash : ascii := "\"%char.
Definition newline : ascii := "010"%char.

Definition dq : string := String dquote EmptyString.
Definition nl : string := String newline EmptyString.

(** [x in string.whitespace] for an ASCII character, as [str.isspace] has it:
    tab, line feed, vertical tab, form feed, carriage return, the four
    separators 0x1c-0x1f and the space. *)
Definition is_space (c : ascii) : bool :=
  let n := code c in
  ((9 <=? n) && (n <=? 13) || (28 <=? n) && (n <=? 32))%N.

(** [c.lower()] on an ASCII character. *)
Definition lower_char (c : ascii) : ascii :=
  let n := code c in
  if ((65 <=? n) && (n <=? 90))%N then ascii_of_N (n + 32) else c.

(** [s.lower()] on ASCII text. *)
Fixpoint ascii_lower (s : string) : string :=
  match s with
  | EmptyString => EmptyString
  | String c r => String (lower_char c) (ascii_lower r)
  end.

(** [s.lstrip()], [s.rstrip()] and [s.strip()] on ASCII text. *)
Fixpoint lstrip (s : string) : string :=
  match s with
  | EmptyString => EmptyString
  | String c r => if is_space c then lstrip r else s
  end.

Fixpoint rstrip (s : string) : string :=
  match s with
  | EmptyString => EmptyString
  | String c r =>
      match rstrip r with
      | EmptyString => if is_space c then EmptyString else String c EmptyString
      | r' => String c r'
      end
  end.

Definition ascii_strip (s : string) : string := rstrip (lstrip s).

(** [q in s]: the substring test of Python's [in] on two strings, tried at
    every position of [s] from the left. *)
Fixpoint contains (q s : string) : bool :=
  prefix q s ||
  match s with
  | EmptyString => false
  | String _ r => contains q r
  end.

(** [not s] for a string: the empty string is the only falsy one. *)
Definition falsy (s : string) : bool :=
  match s with
  | EmptyString => true
  | String _ _ => false
  end.

(* ------------------------------------------------------------------ *)
(** ** Exceptions and results *)

(** The exceptions the modelled code can raise. *)
Inductive exn : Type :=
| JSONDecodeError
| FileNotFoundError
| UnicodeDecodeError
| UnicodeEncodeError
| ValueError
| OverflowError
| ZeroDivisionError.

Inductive result (A : Type) : Type :=
| Ret (a : A)
| Raise (e : exn).

Arguments Ret {A} a.
Arguments Raise {A} e.

(** [sys.get_int_max_str_digits()], as the interpreter starts: the longest
    run of decimal digits that [int] reads and that [str] and [repr] print. *)
Definition int_max_str_digits : nat := 4300.

(* ------------------------------------------------------------------ *)
(** ** Book records and the values [json] handles *)

(** The dict [add_book] builds: five fixed keys. *)
Record book : Type := mk_book {
  title : string;
  author : string;
  year : Z;
  genre : string;
  read : bool
}.

#[local] Set Warnings "-register-all".

(** What [json.load] can return.  A [dict] keeps its keys in insertion
    order.  A float is kept as the literal that denotes it. *)
Inductive json : Type :=
| JNull
| JBool (b : bool)
| JInt (z : Z)
| JFloat (literal : string)
| JStr (s : string)
| JList (items : list json)
| JDict (members : list (string * json)).

(** The Python value of one record and of the whole [self.library]. *)
Definition of_book (b : book) : json :=
  JDict [("title", JStr (title b)); ("author", JStr (author b));
         ("year", JInt (year b)); ("genre", JStr (genre b));
         ("read", JBool (read b))].

Definition of_catalog (l : list book) : json := JList (map of_book l).

(** Reading a value back as a record: the five keys in order, each of its
    type.  (The program never performs this check; it is the view under
    which a loaded value is a catalog again.) *)
Definition as_book (v : json) : option book :=
  match v with
  | JDict [(k1, JStr t); (k2, JStr a); (k3, JInt y); (k4, JStr g); (k5, JBool r)] =>
      if (k1 =? "title") && (k2 =? "author") && (k3 =? "year")
         && (k4 =? "genre") && (k5 =? "read")
      then Some (mk_book t a y g r) else None
  | _ => None
  end.

Fixpoint as_books (vs : list json) : option (list book) :=
  match vs with
  | [] => Some []
  | v :: r =>
      match as_book v, as_books r with
      | Some b, Some bs => Some (b :: bs)
      | _, _ => None
      end
  end.

Definition as_catalog (v : json) : option (list book) :=
  match v with
  | JList vs => as_books vs
  | _ => None
  end.

(* ------------------------------------------------------------------ *)
(** ** [json.dump(obj, file, indent=4, ensure_ascii=False)] *)

(** One lower-case hexadecimal digit, as ['{0:04x}'.format] prints it. *)
Definition hex_digit (n : N) : ascii :=
  if (n <? 10)%N then ascii_of_N (48 + n) else ascii_of_N (87 + n).

(** [ESCAPE_DCT]: the replacement of one character by [encode_basestring].
    Only the quote, the backslash and the control characters below 0x20 are
    replaced; with [ensure_ascii=False] every other character is copied. *)
Definition escape_char (c : ascii) : string :=
  let n := code c in
  if (n =? 34)%N then String backslash dq
  else if (n =? 92)%N then String backslash (String backslash EmptyString)
  else if (n =? 8)%N then "\b"
  else if (n =? 12)%N then "\f"
  else if (n =? 10)%N then "\n"
  else if (n =? 13)%N then "\r"
  else if (n =? 9)%N then "\t"
  else if (n <? 32)%N then
    "\u00" ++ String (hex_digit (n / 16)) (String (hex_digit (n mod 16)) EmptyString)
  else String c EmptyString.

Fixpoint escape (s : string) : string :=
  match s with
  | EmptyString => EmptyString
  | String c r => escape_char c ++ escape r
  end.

(** [encode_basestring(s)]. *)
Definition dump_str (s : string) : string := dq ++ escape s ++ dq.

(** The decimal digits of an [int], behind a minus sign when it is
    negative. *)
Definition dump_int (z : Z) : string := NilZero.string_of_int (Z.to_int z).

(** The number of decimal digits of an [int]. *)
Definition int_digits (z : Z) : nat :=
  match Z.to_int z with
  | Decimal.Pos d | Decimal.Neg d => nb_digits d
  end.

(** [int.__repr__]: the digits, or [ValueError] when there are more of them
    than the interpreter converts. *)
Definition int_repr (z : Z) : result string :=
  if (int_digits z <=? int_max_str_digits)%nat then Ret (dump_int z)
  else Raise ValueError.

Definition dump_bool (b : bool) : string := if b then "true" else "false".

Fixpoint indent (level : nat) : string :=
  match level with
  | O => EmptyString
  | S k => "    " ++ indent k
  end.

(** ['\n' + _indent * _current_indent_level]. *)
Definition newline_indent (level : nat) : string := nl ++ indent level.

(** One key of a dict, then [_key_separator]. *)
Definition dump_key (k : string) : string := dump_str k ++ ": ".

(** [_iterencode_dict] on a record that sits at nesting level [level]. *)
Definition dump_book (level : nat) (b : book) : string :=
  "{" ++ newline_indent (S level)
  ++ dump_key "title" ++ dump_str (title b) ++ "," ++ newline_indent (S level)
  ++ dump_key "author" ++ dump_str (author b) ++ "," ++ newline_indent (S level)
  ++ dump_key "year" ++ dump_int (year b) ++ "," ++ newline_indent (S level)
  ++ dump_key "genre" ++ dump_str (genre b) ++ "," ++ newline_indent (S level)
  ++ dump_key "read" ++ dump_bool (read b)
  ++ newline_indent level ++ "}".

(** The items of a non-empty list after the first one, each behind
    [_item_separator] and the indentation. *)
Fixpoint dump_more (l : list book) : string :=
  match l with
  | [] => EmptyString
  | b :: r => "," ++ newline_indent 1 ++ dump_book 1 b ++ dump_more r
  end.

(** [_iterencode_list] on [self.library], joined into the text written
    when every chunk is written. *)
Definition json_dump (l : list book) : string :=
  match l with
  | [] => "[]"
  | b :: r =>
      "[" ++ newline_indent 1 ++ dump_book 1 b ++ dump_more r
      ++ newline_indent 0 ++ "]"
  end.

(** What the generator of [_iterencode_dict] yields for a record at nesting
    level [level], chunk by chunk: the brace, the indentation, then for each
    key the key, the separator and the value, each on its own.  The chunk of
    the year is the one that can fail to be produced. *)
Definition book_chunks (level : nat) (b : book) : list (result string) :=
  [Ret "{"; Ret (newline_indent (S level));
   Ret (dump_str "title"); Ret ": "; Ret (dump_str (title b));
   Ret ("," ++ newline_indent (S level))%string;
   Ret (dump_str "author"); Ret ": "; Ret (dump_str (author b));
   Ret ("," ++ newline_indent (S level))%string;
   Ret (dump_str "year"); Ret ": "; int_repr (year b);
   Ret ("," ++ newline_indent (S level))%string;
   Ret (dump_str "genre"); Ret ": "; Ret (dump_str (genre b));
   Ret ("," ++ newline_indent (S level))%string;
   Ret (dump_str "read"); Ret ": "; Ret (dump_bool (read b));
   Ret (newline_indent level); Ret "}"].

(** [JSONEncoder(indent=4, ensure_ascii=False).iterencode(self.library)]:
    the chunks of [_iterencode_list], in the order they are yielded. *)
Definition iterencode (l : list book) : list (result string) :=
  match l with
  | [] => [Ret "[]"]
  | b :: r =>
      Ret ("[" ++ newline_indent 1)%string :: book_chunks 1 b
      ++ flat_map
           (fun b' => Ret ("," ++ newline_indent 1)%string :: book_chunks 1 b') r
      ++ [Ret (newline_indent 0); Ret "]"]
  end.

(* ------------------------------------------------------------------ *)
(** ** Reading the file in text mode: the strict UTF-8 decoder *)

(** Where the decoder stands inside a character: at a boundary, or waiting
    for one, two or three continuation bytes, the first of which may be
    restricted (no overlong form, no surrogate, nothing above U+10FFFF). *)
Inductive utf8_state : Type :=
| Boundary
| Tail1
| Tail2
| Tail3
| AfterE0
| AfterED
| AfterF0
| AfterF4.

Definition in_range (lo hi : N) (c : ascii) : bool :=
  ((lo <=? code c) && (code c <=? hi))%N.

Definition utf8_step (q : utf8_state) (c : ascii) : option utf8_state :=
  match q with
  | Boundary =>
      if in_range 0 127 c then Some Boundary
      else if in_range 194 223 c then Some Tail1
      else if in_range 224 224 c then Some AfterE0
      else if in_range 237 237 c then Some AfterED
      else if in_range 225 239 c then Some Tail2
      else if in_range 240 240 c then Some AfterF0
      else if in_range 241 243 c then Some Tail3
      else if in_range 244 244 c then Some AfterF4
      else None
  | Tail1 => if in_range 128 191 c then Some Boundary else None
  | Tail2 => if in_range 128 191 c then Some Tail1 else None
  | Tail3 => if in_range 128 191 c then Some Tail2 else None
  | AfterE0 => if in_range 160 191 c then Some Tail1 else None
  | AfterED => if in_range 128 159 c then Some Tail1 else None
  | AfterF0 => if in_range 144 191 c then Some Tail2 else None
  | AfterF4 => if in_range 128 143 c then Some Tail2 else None
  end.

Fixpoint utf8_run (q : utf8_state) (s : string) : option utf8_state :=
  match s with
  | EmptyString => Some q
  | String c r =>
      match utf8_step q c with
      | Some q' => utf8_run q' r
      | None => None
      end
  end.

(** The bytes decode under [encoding="utf-8"], [errors="strict"]. *)
Definition utf8_valid (s : string) : bool :=
  match utf8_run Boundary s with
  | Some Boundary => true
  | _ => false
  end.

(** [chr(n).encode()] for a code point produced by a [\uXXXX] escape (a lone
    surrogate, which a [str] may hold, takes the three-byte form here). *)
Definition utf8_encode (n : N) : string :=
  let byte k := ascii_of_N k in
  (if n <? 128 then String (byte n) EmptyString
   else if n <? 2048 then
     String (byte (192 + n / 64)) (String (byte (128 + n mod 64)) EmptyString)
   else if n <? 65536 then
     String (byte (224 + n / 4096))
       (String (byte (128 + (n / 64) mod 64))
          (String (byte (128 + n mod 64)) EmptyString))
   else
     String (byte (240 + n / 262144))
       (String (byte (128 + (n / 4096) mod 64))
          (String (byte (128 + (n / 64) mod 64))
             (String (byte (128 + n mod 64)) EmptyString))))%N.

(* ------------------------------------------------------------------ *)
(** ** [json.load]: the scanner of [json.decoder] and [json.scanner] *)

(** [WHITESPACE_STR = ' \t\n\r']. *)
Definition is_ws (c : ascii) : bool :=
  let n := code c in
  ((n =? 32) || (n =? 9) || (n =? 10) || (n =? 13))%N.

(** [WHITESPACE.match(s, end).end()]. *)
Fixpoint skip_ws (s : string) : string :=
  match s with
  | EmptyString => EmptyString
  | String c r => if is_ws c then skip_ws r else s
  end.

Definition hex_value (c : ascii) : option N :=
  let n := code c in
  (if (48 <=? n) && (n <=? 57) then Some (n - 48)
   else if (97 <=? n) && (n <=? 102) then Some (n - 87)
   else if (65 <=? n) && (n <=? 70) then Some (n - 55)
   else None)%N.

(** [_decode_uXXXX]: the four hexadecimal digits after a backslash-u. *)
Definition hex4 (a b c d : ascii) : option N :=
  match hex_value a, hex_value b, hex_value c, hex_value d with
  | Some x, Some y, Some z, Some w => Some (((x * 16 + y) * 16 + z) * 16 + w)%N
  | _, _, _, _ => None
  end.

(** [BACKSLASH]: the one-letter escapes. *)
Definition simple_escape (e : ascii) : option ascii :=
  let n := code e in
  (if n =? 34 then Some dquote
   else if n =? 92 then Some backslash
   else if n =? 47 then Some "/"%char
   else if n =? 98 then Some "008"%char
   else if n =? 102 then Some "012"%char
   else if n =? 110 then Some "010"%char
   else if n =? 114 then Some "013"%char
   else if n =? 116 then Some "009"%char
   else None)%N.

(** A piece of a string literal: a character copied or escaped, or the code
    unit of a [\uXXXX] escape. *)
Inductive piece : Type :=
| Chr (c : ascii)
| Unit16 (n : N).

(** [scanstring(s, end, strict=True)], first half: the pieces up to the
    closing quote and the text after it.  [None] is a [JSONDecodeError]:
    no closing quote, a control character, a bad escape. *)
Fixpoint scan_pieces (s : string) : option (list piece * string) :=
  match s with
  | EmptyString => None
  | String c r =>
      if (code c =? 34)%N then Some ([], r)
      else if (code c =? 92)%N then
        match r with
        | EmptyString => None
        | String e r1 =>
            if (code e =? 117)%N then
              match r1 with
              | String h1 (String h2 (String h3 (String h4 r2))) =>
                  match hex4 h1 h2 h3 h4, scan_pieces r2 with
                  | Some n, Some (ps, rest) => Some (Unit16 n :: ps, rest)
                  | _, _ => None
                  end
              | _ => None
              end
            else
              match simple_escape e, scan_pieces r1 with
              | Some c', Some (ps, rest) => Some (Chr c' :: ps, rest)
              | _, _ => None
              end
        end
      else if (code c <? 32)%N then None
      else
        match scan_pieces r with
        | Some (ps, rest) => Some (Chr c :: ps, rest)
        | None => None
        end
  end.

Definition high_surrogate (n : N) : bool := ((55296 <=? n) && (n <=? 56319))%N.
Definition low_surrogate (n : N) : bool := ((56320 <=? n) && (n <=? 57343))%N.

(** Second half: a high surrogate directly followed by a low one is one
    character; every other escape is the character of its code unit. *)
Fixpoint join_pieces (ps : list piece) : string :=
  match ps with
  | [] => EmptyString
  | Chr c :: r => String c (join_pieces r)
  | Unit16 hi :: r =>
      match r with
      | Unit16 lo :: r' =>
          if high_surrogate hi && low_surrogate lo
          then utf8_encode (65536 + ((hi - 55296) * 1024 + (lo - 56320)))%N
               ++ join_pieces r'
          else utf8_encode hi ++ join_pieces r
      | _ => utf8_encode hi ++ join_pieces r
      end
  end.

Definition scan_string (s : string) : option (string * string) :=
  match scan_pieces s with
  | Some (ps, rest) => Some (join_pieces ps, rest)
  | None => None
  end.

Definition digit_of (c : ascii) : option (uint -> uint) :=
  match c with
  | "0"%char => Some D0 | "1"%char => Some D1 | "2"%char => Some D2
  | "3"%char => Some D3 | "4"%char => Some D4 | "5"%char => Some D5
  | "6"%char => Some D6 | "7"%char => Some D7 | "8"%char => Some D8
  | "9"%char => Some D9
  | _ => None
  end.

(** The longest run of digits and the text after it. *)
Fixpoint scan_digits (s : string) : uint * string :=
  match s with
  | EmptyString => (Nil, EmptyString)
  | String c r =>
      match digit_of c with
      | Some d => let (ds, rest) := scan_digits r in (d ds, rest)
      | None => (Nil, s)
      end
  end.

(** The optional fraction, a dot and at least one digit: the text matched
    (empty when the group does not match). *)
Definition scan_frac (s : string) : string * string :=
  match s with
  | EmptyString => (EmptyString, s)
  | String c r =>
      if (code c =? 46)%N then
        match scan_digits r with
        | (Nil, _) => (EmptyString, s)
        | (ds, rest) => (String c (NilEmpty.string_of_uint ds), rest)
        end
      else (EmptyString, s)
  end.

(** The optional exponent: e or E, an optional sign, at least one digit. *)
Definition scan_exp (s : string) : string * string :=
  match s with
  | EmptyString => (EmptyString, s)
  | String e r =>
      if ((code e =? 101) || (code e =? 69))%N then
        let (sign, r1) :=
          match r with
          | String g r' =>
              if ((code g =? 45) || (code g =? 43))%N
              then (String g EmptyString, r') else (EmptyString, r)
          | EmptyString => (EmptyString, r)
          end in
        match scan_digits r1 with
        | (Nil, _) => (EmptyString, s)
        | (ds, rest) =>
            (String e (sign ++ NilEmpty.string_of_uint ds), rest)
        end
      else (EmptyString, s)
  end.

(** What follows the integer part: [int(integer)] when neither group
    matched, a float otherwise.  [int] raises [ValueError] on more digits
    than the interpreter converts. *)
Definition number_tail (negative : bool) (int_part : uint) (s : string)
  : result (json * string) :=
  let (frac, r1) := scan_frac s in
  let (exp, r2) := scan_exp r1 in
  match frac, exp with
  | EmptyString, EmptyString =>
      if (nb_digits int_part <=? int_max_str_digits)%nat then
        Ret (JInt (if negative then - Z.of_uint int_part
                   else Z.of_uint int_part), r2)
      else Raise ValueError
  | _, _ =>
      Ret (JFloat ((if negative then "-" else "")
                   ++ NilEmpty.string_of_uint int_part ++ frac ++ exp), r2)
  end.

(** [NUMBER_RE.match]: an optional minus sign, then a lone zero or a
    non-zero digit with a run of digits, then the two optional groups.
    [None]: the pattern does not match. *)
Definition match_unsigned (negative : bool) (s : string)
  : option (result (json * string)) :=
  match s with
  | EmptyString => None
  | String c r =>
      if (code c =? 48)%N then Some (number_tail negative (D0 Nil) r)
      else
        match digit_of c with
        | Some d =>
            let (ds, rest) := scan_digits r in
            Some (number_tail negative (d ds) rest)
        | None => None
        end
  end.

Definition match_number (s : string) : option (result (json * string)) :=
  match s with
  | EmptyString => None
  | String c r =>
      if (code c =? 45)%N then match_unsigned true r
      else match_unsigned false s
  end.

(** [dict(pairs)]: a key seen again keeps its place and takes the new value. *)
Fixpoint dict_set (k : string) (v : json) (d : list (string * json))
  : list (string * json) :=
  match d with
  | [] => [(k, v)]
  | (k', v') :: r => if k' =? k then (k, v) :: r else (k', v') :: dict_set k v r
  end.

Definition dict_of_pairs (pairs : list (string * json)) : list (string * json) :=
  fold_left (fun d kv => dict_set (fst kv) (snd kv) d) pairs [].

(** [s[idx:idx + len(word)] == word]: the text after [word] when [s] starts
    with it. *)
Fixpoint after (word s : string) : option string :=
  match word, s with
  | EmptyString, _ => Some s
  | String a w, String b r => if Ascii.eqb a b then after w r else None
  | String _ _, EmptyString => None
  end.

(** The constants and numbers of [_scan_once], in its order of tests.  When
    nothing matches the scanner stops, which [raw_decode] turns into a
    [JSONDecodeError]. *)
Definition scan_atom (s : string) : result (json * string) :=
  match after "null" s, after "true" s, after "false" s with
  | Some r, _, _ => Ret (JNull, r)
  | None, Some r, _ => Ret (JBool true, r)
  | None, None, Some r => Ret (JBool false, r)
  | None, None, None =>
      match match_number s with
      | Some num => num
      | None =>
          match after "NaN" s, after "Infinity" s, after "-Infinity" s with
          | Some r, _, _ => Ret (JFloat "NaN", r)
          | None, Some r, _ => Ret (JFloat "Infinity", r)
          | None, None, Some r => Ret (JFloat "-Infinity", r)
          | None, None, None => Raise JSONDecodeError
          end
      end
  end.

(** [_scan_once], [JSONArray] and [JSONObject].  The first argument bounds
    the number of nested calls of the model; an exception ends the scan where
    it is raised. *)
Fixpoint scan_once (fuel : nat) (s : string) : result (json * string) :=
  match fuel with
  | O => Raise JSONDecodeError
  | S k =>
      match s with
      | EmptyString => Raise JSONDecodeError
      | String c r =>
          if (code c =? 34)%N then
            match scan_string r with
            | Some (str, rest) => Ret (JStr str, rest)
            | None => Raise JSONDecodeError
            end
          else if (code c =? 123)%N then
            match skip_ws r with
            | EmptyString => Raise JSONDecodeError
            | String c1 rest =>
                if (code c1 =? 125)%N then Ret (JDict [], rest)
                else
                  match scan_members k (String c1 rest) with
                  | Ret (pairs, rest') =>
                      Ret (JDict (dict_of_pairs pairs), rest')
                  | Raise e => Raise e
                  end
            end
          else if (code c =? 91)%N then
            match skip_ws r with
            | EmptyString => Raise JSONDecodeError
            | String c1 rest =>
                if (code c1 =? 93)%N then Ret (JList [], rest)
                else
                  match scan_items k (String c1 rest) with
                  | Ret (vs, rest') => Ret (JList vs, rest')
                  | Raise e => Raise e
                  end
            end
          else scan_atom s
      end
  end

with scan_items (fuel : nat) (s : string) : result (list json * string) :=
  match fuel with
  | O => Raise JSONDecodeError
  | S k =>
      match scan_once k s with
      | Raise e => Raise e
      | Ret (v, r) =>
          match skip_ws r with
          | EmptyString => Raise JSONDecodeError
          | String c r1 =>
              if (code c =? 93)%N then Ret ([v], r1)
              else if (code c =? 44)%N then
                match scan_items k (skip_ws r1) with
                | Ret (vs, rest) => Ret (v :: vs, rest)
                | Raise e => Raise e
                end
              else Raise JSONDecodeError
          end
      end
  end

with scan_members (fuel : nat) (s : string)
  : result (list (string * json) * string) :=
  match fuel with
  | O => Raise JSONDecodeError
  | S k =>
      match s with
      | EmptyString => Raise JSONDecodeError
      | String c r =>
          if (code c =? 34)%N then
            match scan_string r with
            | None => Raise JSONDecodeError
            | Some (key, r1) =>
                match skip_ws r1 with
                | EmptyString => Raise JSONDecodeError
                | String c2 r2 =>
                    if (code c2 =? 58)%N then
                      match scan_once k (skip_ws r2) with
                      | Raise e => Raise e
                      | Ret (v, r3) =>
                          match skip_ws r3 with
                          | EmptyString => Raise JSONDecodeError
                          | String c3 r4 =>
                              if (code c3 =? 125)%N then Ret ([(key, v)], r4)
                              else if (code c3 =? 44)%N then
                                match scan_members k (skip_ws r4) with
                                | Ret (ms, rest) => Ret ((key, v) :: ms, rest)
                                | Raise e => Raise e
                                end
                              else Raise JSONDecodeError
                          end
                      end
                    else Raise JSONDecodeError
                end
            end
          else Raise JSONDecodeError
      end
  end.

(** [json.loads(text)]: leading whitespace, one value, trailing whitespace,
    the end of the text.  A level of nesting takes two calls of the model and
    at least one character, so twice the length of the text bounds the
    nesting of calls.  (The recursion limit of the interpreter, which a text
    nested some hundreds of levels deep runs into, is not modelled.) *)
Definition json_loads (text : string) : result json :=
  match scan_once (S (2 * String.length text)) (skip_ws text) with
  | Ret (v, rest) =>
      match skip_ws rest with
      | EmptyString => Ret v
      | String _ _ => Raise JSONDecodeError
      end
  | Raise e => Raise e
  end.

(* ------------------------------------------------------------------ *)
(** ** The manager: its state, and methods as state transformers *)

(** What a method does besides changing [self.library]: it rewrites the
    file, or reports to the page through [st.error], [st.success] or
    [st.warning]. *)
Inductive event : Type :=
| file_write (text : string)
| st_error (msg : string)
| st_success (msg : string)
| st_warning (msg : string).

(** [self.library], the file at [self.filename] ([None]: no such file), and
    the effects performed so far, oldest first. *)
Record manager : Type := mk_manager {
  library : list book;
  disk : option string;
  trace : list event
}.

(** A method: from the state before to a result, or an exception, and the
    state after (what was changed before an exception stays changed). *)
Definition M (A : Type) : Type := manager -> result A * manager.

Definition ret {A : Type} (a : A) : M A := fun m => (Ret a, m).

Definition raise {A : Type} (e : exn) : M A := fun m => (Raise e, m).

Definition bind {A B : Type} (c : M A) (k : A -> M B) : M B :=
  fun m =>
    match c m with
    | (Ret a, m') => k a m'
    | (Raise e, m') => (Raise e, m')
    end.

Notation "x <- c ;; k" := (bind c (fun x => k))
  (at level 61, c at next level, right associativity).
Notation "c ;; k" := (bind c (fun _ => k))
  (at level 61, right associativity).

(** [try: c  except classes: handler], where [handles e] tells whether the
    clause names the class of [e]. *)
Definition try_except {A : Type} (c : M A) (handles : exn -> bool)
  (handler : M A) : M A :=
  fun m =>
    match c m with
    | (Ret a, m') => (Ret a, m')
    | (Raise e, m') => if handles e then handler m' else (Raise e, m')
    end.

Definition get_library : M (list book) := fun m => (Ret (library m), m).

Definition set_library (l : list book) : M unit :=
  fun m => (Ret tt, mk_manager l (disk m) (trace m)).

Definition emit (e : event) : M unit :=
  fun m => (Ret tt, mk_manager (library m) (disk m) (trace m ++ [e])).

(** [os.path.exists(self.filename)]. *)
Definition path_exists : M bool :=
  fun m => (Ret (match disk m with Some _ => true | None => false end), m).

(** [open(self.filename, "r", encoding="utf-8")] and [file.read()]. *)
Definition read_text : M string :=
  fun m =>
    match disk m with
    | None => (Raise FileNotFoundError, m)
    | Some bytes =>
        if utf8_valid bytes then (Ret bytes, m)
        else (Raise UnicodeDecodeError, m)
    end.

(** [for chunk in iterable: fp.write(chunk)] on a file opened for writing
    in text mode with [encoding="utf-8"]: the chunks written so far, and the
    exception that stops the loop, raised by the generator or by the encoder
    of the file on a chunk that holds a lone surrogate. *)
Fixpoint write_chunks (chunks : list (result string)) (written : string)
  : result unit * string :=
  match chunks with
  | [] => (Ret tt, written)
  | Raise e :: _ => (Raise e, written)
  | Ret chunk :: rest =>
      if utf8_valid chunk then write_chunks rest (written ++ chunk)%string
      else (Raise UnicodeEncodeError, written)
  end.

(** What [json.dump(self.library, file, indent=4, ensure_ascii=False)]
    does on a file just opened for writing: how it ends, and the text that
    the file holds once it is closed. *)
Definition dump_result (l : list book) : result unit * string :=
  write_chunks (iterencode l) EmptyString.

(** [with open(self.filename, "w", encoding="utf-8") as file: json.dump(...)]:
    the file is emptied, takes the chunks that are written, and is closed
    whether or not an exception stops the writing. *)
Definition write_json (l : list book) : M unit :=
  fun m =>
    let (r, text) := dump_result l in
    (r, mk_manager (library m) (Some text) (trace m ++ [file_write text])).

(** [json.load(file)]. *)
Definition json_load : M json :=
  text <- read_text ;;
  fun m => (json_loads text, m).

(** The clause [except (json.JSONDecodeError, FileNotFoundError)]. *)
Definition load_handles (e : exn) : bool :=
  match e with
  | JSONDecodeError | FileNotFoundError => true
  | _ => false
  end.

Definition load_library : M json :=
  present <- path_exists ;;
  if negb present then ret (JList [])
  else try_except json_load load_handles (ret (JList [])).

Definition save_library : M unit :=
  l <- get_library ;;
  write_json l.

(** [int(year)] on the [int] that the page's number input hands over. *)
Definition py_int (year : Z) : Z := year.

(** The nearest integer to a rational, the even one of the two when it
    lies half way. *)
Definition nearest (q : Q) : Z :=
  let f := Qfloor q in
  match Qcompare (q - inject_Z f)%Q (1 # 2)%Q with
  | Lt => f
  | Gt => (f + 1)%Z
  | Eq => if Z.even f then f else (f + 1)%Z
  end.

(** The exponent of the power of two at or below a positive rational. *)
Definition log2_floor (q : Q) : Z :=
  let e := (Z.log2 (Qnum q) - Z.log2 (Z.pos (Qden q)))%Z in
  if Qle_bool (2 ^ e)%Q q then e else (e - 1)%Z.

(** The exponent of the last place of the floats around [x]: 53 bits from
    the leading one, and never below [2 ^ (-1074)]. *)
Definition ulp_exp (x : Q) : Z := Z.max (log2_floor (Qabs x) - 52) (-1074).

(** A Python [float] is held as the rational it denotes.  [binary64 x] is
    the float nearest to [x], ties to the even significand.  (The infinities
    that binary64 has from [2 ^ 1024] on are not values here.) *)
Definition binary64 (x : Q) : Q :=
  if Qeq_bool x 0 then 0%Q
  else (inject_Z (nearest (x / 2 ^ ulp_exp x)) * 2 ^ ulp_exp x)%Q.

(** [a / b] on two [int]s: the quotient rounded once to a float;
    [OverflowError] when that is too large for one. *)
Definition truediv (a b : Z) : M Q :=
  if (b =? 0)%Z then raise ZeroDivisionError
  else
    let q := binary64 (inject_Z a / inject_Z b) in
    if Qle_bool (2 ^ 1024)%Q (Qabs q) then raise OverflowError else ret q.

(** [x * y] on two floats: the product rounded to a float (the products
    formed below stay under [2 ^ 1024], where no infinity arises). *)
Definition fmul (x y : Q) : Q := binary64 (x * y).

(** [sum(1 for book in l if book["read"])]. *)
Fixpoint count_read (l : list book) : Z :=
  match l with
  | [] => 0
  | book :: r => if read book then 1 + count_read r else count_read r
  end.

(** [read_books / total_books * 100] on the floats of the machine, for
    counts below [2 ^ 53]: what [display_statistics] below computes on
    rationals, computed by the kernel's binary64 instead, for comparison. *)
Definition percentage_binary64 (read_books total_books : int) : float :=
  (PrimFloat.of_uint63 read_books / PrimFloat.of_uint63 total_books * 100)%float.

(** The rational that a finite float of the machine denotes. *)
Definition float_value (x : float) : option Q :=
  match Prim2SF x with
  | S754_zero _ => Some 0%Q
  | S754_finite s mant e =>
      Some ((if s then - inject_Z (Z.pos mant) else inject_Z (Z.pos mant))
            * 2 ^ e)%Q
  | _ => None
  end.

Section Methods.

(** [str.lower] and [str.strip]. *)
Variable lower : string -> string.
Variable strip : string -> string.

Definition add_book (title author : string) (year : Z) (genre : string)
  (read_status : bool) : M unit :=
  if falsy title || falsy author then
    emit (st_error "Title and Author cannot be empty!")
  else
    l <- get_library ;;
    set_library (l ++ [mk_book (strip title) (strip author) (py_int year)
                               (strip genre) read_status]) ;;
    save_library ;;
    emit (st_success ("✅ Book **" ++ title ++ "** added successfully!")).

(** [book["title"].lower() != title.lower()], the test of the list
    comprehension in [remove_book]. *)
Definition keeps (t : string) (book : book) : bool :=
  negb (lower (title book) =? lower t).

Definition remove_book (t : string) : M unit :=
  l <- get_library ;;
  let initial_count := List.length l in
  set_library (filter (keeps t) l) ;;
  save_library ;;
  l' <- get_library ;;
  if (List.length l' <? initial_count)%nat then
    emit (st_success ("❌ Book **" ++ t ++ "** removed successfully!"))
  else
    emit (st_warning ("⚠️ Book **" ++ t ++ "** not found in the library.")).

(** The test of the list comprehension in [search_books]. *)
Definition hit (query : string) (book : book) : bool :=
  contains (lower query) (lower (title book))
  || contains (lower query) (lower (author book)).

Definition search_books (query : string) : M (list book) :=
  l <- get_library ;;
  ret (filter (hit query) l).

Definition display_statistics : M (Z * Q) :=
  l <- get_library ;;
  let total_books := Z.of_nat (List.length l) in
  let read_books := count_read l in
  percentage_read <-
    (if (0 <? total_books)%Z then
       q <- truediv read_books total_books ;;
       ret (fmul q 100)
     else ret 0%Q) ;;
  ret (total_books, percentage_read).

End Methods.

(** A manager with an empty library over a given file: what the constructor
    leaves when [load_library] returned the empty list. *)
Definition empty_manager (file : option string) : manager :=
  mk_manager [] file [].

(* ------------------------------------------------------------------ *)
(** ** Vocabulary of the specification *)

(** [selects P l r]: [r] is the subsequence of [l], in the order of [l],
    made of exactly the elements that satisfy [P]. *)
Inductive selects {A : Type} (P : A -> Prop) : list A -> list A -> Prop :=
| selects_nil : selects P [] []
| selects_keep (x : A) (l r : list A) :
    P x -> selects P l r -> selects P (x :: l) (x :: r)
| selects_drop (x : A) (l r : list A) :
    ~ P x -> selects P l r -> selects P (x :: l) r.

(** [q] occurs in [s] as a substring. *)
Definition occurs (q s : string) : Prop :=
  exists before behind : string, s = (before ++ q ++ behind)%string.

(** Two titles are equal when case is ignored: equal once lower-cased. *)
Definition same_ignoring_case (lower : string -> string) (a b : string) : Prop :=
  lower a = lower b.

(** The outcome kinds of the core-to-presentation contract, and the kind each
    report to the page stands for. *)
Inductive outcome : Type :=
| Success
| ValidationFailure
| NotFound.

Definition outcome_of (e : event) : option outcome :=
  match e with
  | st_success _ => Some Success
  | st_error _ => Some ValidationFailure
  | st_warning _ => Some NotFound
  | file_write _ => None
  end.

(** The number of times the file was rewritten in a trace. *)
Fixpoint writes (tr : list event) : nat :=
  match tr with
  | [] => 0
  | file_write _ :: r => S (writes r)
  | _ :: r => writes r
  end.

(** The bytes of [s] are whole characters: the decoder ends at a boundary. *)
Definition decodes (s : string) : Prop :=
  utf8_run Boundary s = Some Boundary.

(** The strings of a record are text: their bytes decode. *)
Definition text_book (b : book) : Prop :=
  utf8_valid (title b) = true /\ utf8_valid (author b) = true
  /\ utf8_valid (genre b) = true.

(** A record that the file can take: its strings are text, with no lone
    surrogate, and its year has no more digits than [str] converts. *)
Definition writable_book (b : book) : Prop :=
  text_book b /\ int_digits (year b) <= int_max_str_digits.

Definition writable (l : list book) : Prop := Forall writable_book l.

(** No integer of a value has more digits than [int] converts: what holds
    of every value that [json.load] returns. *)
Fixpoint small_ints (v : json) : Prop :=
  match v with
  | JInt z => int_digits z <= int_max_str_digits
  | JList items =>
      (fix all (l : list json) : Prop :=
         match l with
         | [] => True
         | x :: r => small_ints x /\ all r
         end) items
  | JDict members =>
      (fix all (d : list (string * json)) : Prop :=
         match d with
         | [] => True
         | (_, x) :: r => small_ints x /\ all r
         end) members
  | _ => True
  end.

(** The text [s] cannot continue a number: it is empty, or starts with a
    character that is no digit and opens neither a fraction nor an
    exponent. *)
Definition ends_number (s : string) : Prop :=
  match s with
  | EmptyString => True
  | String c _ =>
      digit_of c = None /\ c <> "."%char /\ c <> "e"%char /\ c <> "E"%char
  end.

(** A scanner is settled at a bound when each of its successes consumes at
    least one character and is reached again under every bound larger than
    the number of characters consumed, and each exception it raises other
    than [JSONDecodeError], which is also what the model answers when the
    bound is used up, is raised again under every bound larger than twice
    the length of the text, by [margin]. *)
Definition settled {A : Type} (f : nat -> string -> result (A * string))
  (margin n : nat) : Prop :=
  forall s,
    (forall v r,
        f n s = Ret (v, r) ->
        String.length r < String.length s
        /\ forall m, String.length s - String.length r < m -> f m s = Ret (v, r))
    /\ (forall e,
          f n s = Raise e -> e <> JSONDecodeError ->
          forall m, 2 * String.length s + margin < m -> f m s = Raise e).

(* ------------------------------------------------------------------ *)
(** ** The page: [LibraryManager()] and the script around the manager *)

(** [LibraryManager()]: the constructor stores what [load_library] returns,
    or lets its exception through.  The methods above are modelled on lists
    of records as [add_book] builds them; the result is [None] when the value
    loaded is anything else, which this development does not follow. *)
Definition new_manager (file : option string) : option (result manager) :=
  match load_library (empty_manager file) with
  | (Raise e, _) => Some (Raise e)
  | (Ret v, _) =>
      match as_catalog v with
      | Some l => Some (Ret (mk_manager l file []))
      | None => None
      end
  end.

(** The input widgets of the page. *)
Inductive widget : Type :=
| radio
| text_input
| number_input
| checkbox
| button.

(** What a run of the script puts on the page, in order: the calls to
    Streamlit of the script itself, and what the manager's methods did. *)
Inductive shown : Type :=
| st_markdown (body : string)
| st_title (text : string)
| st_header (text : string)
| st_subheader (text : string)
| st_write (text : string)
| st_caption (text : string)
| st_widget (w : widget) (label : string)
| did (e : event).

(** What the user has set when the script runs: the entry chosen in the
    sidebar, the values of the widgets of that entry, and whether its button was
    pressed.  The number input has [min_value=0] and [step=1]: the year it
    hands over is a natural number. *)
Inductive interaction : Type :=
| on_add (title author : string) (year : N) (genre : string)
    (read_status : bool) (pressed : bool)
| on_remove (title : string) (pressed : bool)
| on_search (query : string) (pressed : bool)
| on_display_all
| on_statistics.

(** The manager of the run and the page so far. *)
Record session : Type := mk_session {
  mgr : manager;
  page : list shown
}.

Definition shows (xs : list shown) (s : session) : session :=
  mk_session (mgr s) (page s ++ xs).

(** A call of a method of [manager]: what the method adds to the trace is
    put on the page. *)
Definition call {A : Type} (c : M A) (s : session) : result A * session :=
  let (r, m') := c (mgr s) in
  (r, mk_session m'
        (page s ++ map did (skipn (List.length (trace (mgr s))) (trace m')))).

(** The style sheet passed to the first [st.markdown]. *)
Definition css : string :=
"
    <style>
        .stButton>button {
            background-color: #007BFF !important;
            color: white !important;
            border-radius: 5px;
            padding: 10px;
            width: 100% !important;
        }
        .stButton>button:hover {
            background-color: #0056b3 !important;
        }
    </style>
".

(** The six calls that show one book, in the search results and in the
    listing alike, when the year can be formatted. *)
Definition render_book (book : book) : list shown :=
  [st_subheader ("📖 " ++ title book);
   st_write ("**Author:** " ++ author book);
   st_write ("**Year:** " ++ dump_int (year book));
   st_write ("**Genre:** " ++ genre book);
   st_write ("**Status:** " ++ if read book then "✅ Read" else "❌ Unread");
   st_markdown "---"].

(** The loop over the books to show.  The f-string of a year raises
    [ValueError] when [str] does not convert it: the sub-header and the author
    of that book have been shown by then. *)
Fixpoint render_books (books : list book) : result unit * list shown :=
  match books with
  | [] => (Ret tt, [])
  | book :: rest =>
      match int_repr (year book) with
      | Ret _ =>
          let (r, xs) := render_books rest in (r, render_book book ++ xs)
      | Raise e =>
          (Raise e, [st_subheader ("📖 " ++ title book);
                     st_write ("**Author:** " ++ author book)])
      end
  end.

Definition two_digits (k : Z) : string :=
  String (ascii_of_N (48 + Z.to_N (k / 10)))
    (String (ascii_of_N (48 + Z.to_N (k mod 10))) EmptyString).

(** [format(x, '.2f')] on a float, and on the [int] 0: the value rounded to
    hundredths, ties to even. *)
Definition format_2f (x : Q) : string :=
  let n := nearest (Qabs x * 100) in
  ((if Qle_bool 0 x then "" else "-")
   ++ dump_int (n / 100) ++ "." ++ two_digits (n mod 100))%string.

(** The part of the script that every run ends with. *)
Definition footer : list shown :=
  [st_markdown "---";
   st_caption "🚀 Built with Streamlit - A Simple Personal Library Manager"].

Section Script.

Variable lower : string -> string.
Variable strip : string -> string.

(** The branch of the script for the entry chosen. *)
Definition branch (i : interaction) (s : session) : result unit * session :=
  match i with
  | on_add title author year genre read_status pressed =>
      let s1 :=
        shows [st_header "📖 Add a New Book";
               st_widget text_input "Title";
               st_widget text_input "Author";
               st_widget number_input "Publication Year";
               st_widget text_input "Genre";
               st_widget checkbox "Have you read this book?";
               st_widget button "➕ Add Book"] s in
      if pressed
      then call (add_book strip title author (Z.of_N year) genre read_status) s1
      else (Ret tt, s1)
  | on_remove title pressed =>
      let s1 :=
        shows [st_header "❌ Remove a Book";
               st_widget text_input "Enter the title of the book to remove";
               st_widget button "🗑 Remove Book"] s in
      if pressed then call (remove_book lower title) s1 else (Ret tt, s1)
  | on_search query pressed =>
      let s1 :=
        shows [st_header "🔍 Search for a Book";
               st_widget text_input "Enter title or author";
               st_widget button "🔎 Search"] s in
      if pressed then
        match call (search_books lower query) s1 with
        | (Ret results, s2) =>
            match results with
            | [] =>
                (Ret tt,
                 shows [did (st_warning "⚠️ No matching books found.")] s2)
            | _ :: _ => let (r, xs) := render_books results in (r, shows xs s2)
            end
        | (Raise e, s2) => (Raise e, s2)
        end
      else (Ret tt, s1)
  | on_display_all =>
      let s1 := shows [st_header "📚 Your Library"] s in
      match library (mgr s1) with
      | [] => (Ret tt, shows [did (st_warning "Your library is empty.")] s1)
      | _ :: _ =>
          let (r, xs) := render_books (library (mgr s1)) in (r, shows xs s1)
      end
  | on_statistics =>
      let s1 := shows [st_header "📊 Library Statistics"] s in
      match call display_statistics s1 with
      | (Ret (total_books, percentage_read), s2) =>
          (Ret tt,
           shows [st_write ("**📚 Total Books:** " ++ dump_int total_books);
                  st_write ("**📖 Percentage Read:** "
                            ++ format_2f percentage_read ++ "%")] s2)
      | (Raise e, s2) => (Raise e, s2)
      end
  end.

(** One run of the script over the file: the style sheet, the manager, the
    title and the sidebar, the branch, the footer.  An exception ends the run
    where it is raised. *)
Definition script (i : interaction) (file : option string)
  : option (result unit * session) :=
  match new_manager file with
  | None => None
  | Some (Raise e) =>
      Some (Raise e, mk_session (empty_manager file) [st_markdown css])
  | Some (Ret m) =>
      let s := mk_session m [st_markdown css;
                             st_title "📚 Personal Library Manager";
                             st_widget radio "Menu"] in
      match branch i s with
      | (Ret _, s') => Some (Ret tt, shows footer s')
      | (Raise e, s') => Some (Raise e, s')
      end
  end.

End Script.

(** The runs in which the user asks for a change: a button of the add or of
    the remove entry was pressed. *)
Definition mutating (i : interaction) : bool :=
  match i with
  | on_add _ _ _ _ _ pressed => pressed
  | on_remove _ pressed => pressed
  | _ => false
  end.

(** The file holds the text of the library: what [save_library] leaves. *)
Definition in_step (m : manager) : Prop :=
  disk m = Some (json_dump (library m)).

(** What is typed into the add entry can be written once trimmed: the
    text fields are text and the year has no more digits than [str]
    converts, as every year of the number input has (the other entries store
    nothing of what is typed). *)
Definition text_entry (strip : string -> string) (i : interaction) : Prop :=
  match i with
  | on_add title author year genre read_status _ =>
      writable_book (mk_book (strip title) (strip author) (Z.of_N year)
                             (strip genre) read_status)
  | _ => True
  end.

(** The file is as the page keeps it: not there yet, or holding the text of
    a library that [save_library] could write in full. *)
Definition kept (file : option string) : Prop :=
  file = None
  \/ exists l, writable l /\ file = Some (json_dump l).

(* ------------------------------------------------------------------ *)
(** ** Sample data: the records of the end-to-end scenario *)

Definition dune : book := mk_book "Dune" "Frank Herbert" 1965 "Sci-Fi" true.
Definition emma : book := mk_book "Emma" "Jane Austen" 1815 "Romance" false.

(** A record whose title is the lone surrogate U+D800, and a file from
    which [json.load] builds it: the title is written there as an escape. *)
Definition lone : book := mk_book (utf8_encode 55296) "Anon" 1 "" false.

Definition lone_file : string :=
  "[{" ++ dq ++ "title" ++ dq ++ ": " ++ dq ++ "\ud800" ++ dq ++ ", "
  ++ dq ++ "author" ++ dq ++ ": " ++ dq ++ "Anon" ++ dq ++ ", "
  ++ dq ++ "year" ++ dq ++ ": 1, "
  ++ dq ++ "genre" ++ dq ++ ": " ++ dq ++ dq ++ ", "
  ++ dq ++ "read" ++ dq ++ ": false}]".

(** Seven books read out of twenty-five. *)
Definition seven_of_25 : manager :=
  mk_manager (repeat dune 7 ++ repeat emma 18) None [].

(** The library after the two additions of the end-to-end scenario. *)
Definition two_books : manager :=
  snd (add_book ascii_strip "Emma" "Jane Austen" 1815 "Romance" false
         (snd (add_book ascii_strip "Dune" "Frank Herbert" 1965 "Sci-Fi" true
                 (empty_manager None)))).

(** The session a run ends with, for the samples ([script] answers for
    every file they are run on). *)
Definition session_of (run : option (result unit * session)) : session :=
  match run with
  | Some (_, s) => s
  | None => mk_session (empty_manager None) []
  end.

(** Dune is added where there is no file; then the books are listed. *)
Definition after_adding_dune : session :=
  session_of (script ascii_lower ascii_strip
                (on_add "Dune" "Frank Herbert" 1965 "Sci-Fi" true true) None).

Definition after_listing : session :=
  session_of (script ascii_lower ascii_strip on_display_all
                (disk (mgr after_adding_dune))).

(* ================================================================== *)
(** * Facts *)

(** ** Lists and selections *)

Lemma selects_filter {A : Type} (P : A -> Prop) (f : A -> bool) (l : list A) :
  (forall x, f x = true <-> P x) -> selects P l (filter f l).
Proof.
  intros Hf. induction l as [|x l IH]; simpl.
  - constructor.
  - destruct (f x) eqn:E.
    + apply selects_keep; [apply Hf; exact E | exact IH].
    + apply selects_drop; [|exact IH].
      intros HP. apply Hf in HP. congruence.
Qed.

(** A selection is determined by the list and the property. *)
Lemma selects_unique {A : Type} (P : A -> Prop) (l r1 r2 : list A) :
  selects P l r1 -> selects P l r2 -> r1 = r2.
Proof.
  intros H1. revert r2.
  induction H1 as [|x l r HP _ IH|x l r HP _ IH]; intros r2 H2;
    inversion H2; subst; try contradiction; auto.
  f_equal. auto.
Qed.

Lemma selects_In {A : Type} (P : A -> Prop) (l r : list A) :
  selects P l r -> forall x, In x r <-> In x l /\ P x.
Proof.
  induction 1 as [|x l r HP _ IH|x l r HP _ IH]; intros y; simpl.
  - tauto.
  - rewrite IH. split.
    + intros [->|[Hy HPy]]; auto.
    + intros [[->|Hy] HPy]; auto.
  - rewrite IH. split.
    + intros [Hy HPy]; auto.
    + intros [[->|Hy] HPy]; [contradiction|auto].
Qed.

Lemma filter_length_negb {A : Type} (f : A -> bool) (l : list A) :
  List.length (filter (fun x => negb (f x)) l)
  = List.length l - List.length (filter f l).
Proof.
  assert (H : List.length (filter f l) <= List.length l) by apply filter_length_le.
  pose proof (filter_length f l) as E.
  lia.
Qed.

(** A retained element sits in the original list, at its own index or later. *)
Lemma filter_nth_error {A : Type} (f : A -> bool) (l : list A) :
  forall i x, nth_error (filter f l) i = Some x ->
              exists j, i <= j /\ nth_error l j = Some x /\ f x = true.
Proof.
  induction l as [|y l IH]; simpl; intros i x H.
  - destruct i; discriminate.
  - destruct (f y) eqn:E.
    + destruct i as [|i]; simpl in H.
      * inversion H; subst. exists 0. auto.
      * destruct (IH _ _ H) as (j & Hij & Hj & Hf).
        exists (S j). repeat split; auto; lia.
    + destruct (IH _ _ H) as (j & Hij & Hj & Hf).
      exists (S j). repeat split; auto; lia.
Qed.

(** ** Substring search *)

Lemma prefix_app (q s : string) :
  prefix q s = true <-> exists behind : string, s = (q ++ behind)%string.
Proof.
  revert s. induction q as [|a q IH]; intros s.
  - split; [intros _; exists s; reflexivity | destruct s; reflexivity].
  - destruct s as [|b s]; simpl.
    + split; [discriminate | intros [r H]; discriminate].
    + destruct (ascii_dec a b) as [->|Hab].
      * rewrite IH. split; intros [r H]; exists r; congruence.
      * split; [discriminate | intros [r H]; congruence].
Qed.

(** Python's [q in s] holds exactly when [q] occurs in [s]. *)
Lemma contains_occurs (q s : string) : contains q s = true <-> occurs q s.
Proof.
  unfold occurs. induction s as [|c s IH]; cbn [contains].
  - rewrite orb_false_r, prefix_app. split.
    + intros [r H]. exists EmptyString, r. exact H.
    + intros [[|x before] [r H]]; [exists r; exact H | discriminate].
  - rewrite orb_true_iff, IH, prefix_app. split.
    + intros [[r H]|(before & r & H)].
      * exists EmptyString, r. exact H.
      * exists (String c before), r. simpl. congruence.
    + intros [[|x before] [r H]].
      * left. exists r. exact H.
      * right. simpl in H. exists before, r. congruence.
Qed.

Lemma contains_empty (s : string) : contains EmptyString s = true.
Proof. destruct s; reflexivity. Qed.

(* ------------------------------------------------------------------ *)
(** ** Text: concatenation and length *)

Lemma append_assoc (a b c : string) : ((a ++ b) ++ c = a ++ (b ++ c))%string.
Proof. induction a as [|x a IH]; simpl; [reflexivity | rewrite IH; reflexivity]. Qed.

Lemma append_empty_r (a : string) : (a ++ EmptyString)%string = a.
Proof. induction a as [|x a IH]; simpl; [reflexivity | rewrite IH; reflexivity]. Qed.

Lemma length_append (a b : string) :
  String.length (a ++ b) = String.length a + String.length b.
Proof. induction a as [|x a IH]; simpl; [reflexivity | rewrite IH; reflexivity]. Qed.

(* ------------------------------------------------------------------ *)
(** ** The text written decodes *)

Lemma utf8_run_app (a b : string) (q : utf8_state) :
  utf8_run q (a ++ b)
  = match utf8_run q a with
    | Some q' => utf8_run q' b
    | None => None
    end.
Proof.
  revert q. induction a as [|c a IH]; intros q; simpl; [reflexivity|].
  destruct (utf8_step q c); [apply IH | reflexivity].
Qed.

(** Escaping replaces ASCII characters by ASCII characters, at a character
    boundary or nowhere: the decoder ends in the same state. *)
Lemma utf8_run_escape_char (c : ascii) (q : utf8_state) :
  utf8_run q (escape_char c) = utf8_step q c.
Proof.
  destruct q; destruct c as [[] [] [] [] [] [] [] []]; reflexivity.
Qed.

Lemma utf8_run_escape (s : string) (q : utf8_state) :
  utf8_run q (escape s) = utf8_run q s.
Proof.
  revert q. induction s as [|c s IH]; intros q; simpl; [reflexivity|].
  rewrite utf8_run_app, utf8_run_escape_char.
  destruct (utf8_step q c); [apply IH | reflexivity].
Qed.

Lemma decodes_valid (s : string) : utf8_valid s = true <-> decodes s.
Proof.
  unfold utf8_valid, decodes.
  destruct (utf8_run Boundary s) as [[]|]; split; congruence.
Qed.

Lemma decodes_app (a b : string) : decodes a -> decodes b -> decodes (a ++ b).
Proof.
  unfold decodes. intros Ha Hb. rewrite utf8_run_app, Ha. exact Hb.
Qed.

Lemma decodes_digits (d : uint) : decodes (NilEmpty.string_of_uint d).
Proof. unfold decodes. induction d; simpl; auto. Qed.

Lemma decodes_int (z : Z) : decodes (dump_int z).
Proof.
  destruct z as [|p|p].
  - reflexivity.
  - unfold dump_int, Z.to_int, NilZero.string_of_int, NilZero.string_of_uint.
    pose proof (decodes_digits (Pos.to_uint p)) as H.
    destruct (Pos.to_uint p); (reflexivity || exact H).
  - unfold dump_int, Z.to_int, NilZero.string_of_int, NilZero.string_of_uint.
    pose proof (decodes_digits (Pos.to_uint p)) as H.
    apply (decodes_app "-"); [reflexivity|].
    destruct (Pos.to_uint p); (reflexivity || exact H).
Qed.

Lemma decodes_str (s : string) : utf8_valid s = true -> decodes (dump_str s).
Proof.
  intros H. apply decodes_valid in H. unfold dump_str.
  apply decodes_app; [reflexivity|].
  apply decodes_app; [|reflexivity].
  unfold decodes. rewrite utf8_run_escape. exact H.
Qed.

Lemma decodes_bool (b : bool) : decodes (dump_bool b).
Proof. destruct b; reflexivity. Qed.

Ltac decodes_leaf :=
  first [ apply decodes_str; assumption
        | apply decodes_int
        | apply decodes_bool
        | reflexivity ].

Lemma decodes_book (b : book) : text_book b -> decodes (dump_book 1 b).
Proof.
  intros (Ht & Ha & Hg). unfold dump_book.
  repeat (apply decodes_app; [decodes_leaf|]). decodes_leaf.
Qed.

Lemma decodes_more (bs : list book) :
  Forall text_book bs -> decodes (dump_more bs).
Proof.
  induction 1 as [|b bs Hb _ IH]; [reflexivity|].
  cbn [dump_more].
  apply decodes_app; [reflexivity|].
  apply decodes_app; [reflexivity|].
  apply decodes_app; [apply decodes_book; exact Hb | exact IH].
Qed.

(** The text that [json.dump] writes for a library of text decodes. *)
Lemma json_dump_valid (l : list book) :
  Forall text_book l -> utf8_valid (json_dump l) = true.
Proof.
  intros Hl. apply decodes_valid.
  destruct Hl as [|b bs Hb Hbs]; [reflexivity|].
  unfold json_dump.
  apply decodes_app; [reflexivity|].
  apply decodes_app; [reflexivity|].
  apply decodes_app; [apply decodes_book; exact Hb|].
  apply decodes_app; [apply decodes_more; exact Hbs|].
  reflexivity.
Qed.

(* ------------------------------------------------------------------ *)
(** ** Writing the library: the chunks of [json.dump] and the file *)

Lemma writes_app (tr tr' : list event) :
  writes (tr ++ tr') = writes tr + writes tr'.
Proof.
  induction tr as [|e tr IH]; simpl; [reflexivity|].
  destruct e; simpl; rewrite IH; reflexivity.
Qed.

(** Between its quotes a string is escaped at character boundaries only:
    the literal can be written exactly when the string can. *)
Lemma utf8_valid_dump_str (s : string) : utf8_valid (dump_str s) = utf8_valid s.
Proof.
  unfold utf8_valid, dump_str.
  change (utf8_run Boundary (dq ++ escape s ++ dq))
    with (utf8_run Boundary (escape s ++ dq)).
  rewrite utf8_run_app, utf8_run_escape.
  destruct (utf8_run Boundary s) as [[]|]; reflexivity.
Qed.

Lemma int_repr_ok (z : Z) :
  int_digits z <= int_max_str_digits -> int_repr z = Ret (dump_int z).
Proof.
  intros H. unfold int_repr. apply Nat.leb_le in H. rewrite H. reflexivity.
Qed.

Lemma int_repr_ret (z : Z) (s : string) :
  int_repr z = Ret s -> int_digits z <= int_max_str_digits /\ s = dump_int z.
Proof.
  unfold int_repr.
  destruct (int_digits z <=? int_max_str_digits)%nat eqn:E; [|discriminate].
  intros H. inversion H. apply Nat.leb_le in E. auto.
Qed.

Lemma int_repr_raise (z : Z) (e : exn) :
  int_repr z = Raise e -> e = ValueError /\ int_max_str_digits < int_digits z.
Proof.
  unfold int_repr.
  destruct (int_digits z <=? int_max_str_digits)%nat eqn:E; [discriminate|].
  intros H. inversion H. apply Nat.leb_gt in E. auto.
Qed.

Lemma write_chunks_text (c : string) (rest : list (result string)) (w : string) :
  utf8_valid c = true ->
  write_chunks (Ret c :: rest) w = write_chunks rest (w ++ c).
Proof. intros H. cbn [write_chunks]. rewrite H. reflexivity. Qed.

Lemma write_chunks_field (s : string) (rest : list (result string)) (w : string) :
  write_chunks (Ret (dump_str s) :: rest) w
  = if utf8_valid s then write_chunks rest (w ++ dump_str s)
    else (Raise UnicodeEncodeError, w).
Proof. cbn [write_chunks]. rewrite utf8_valid_dump_str. reflexivity. Qed.

Lemma write_chunks_year (z : Z) (rest : list (result string)) (w : string) :
  write_chunks (int_repr z :: rest) w
  = match int_repr z with
    | Ret _ => write_chunks rest (w ++ dump_int z)
    | Raise e => (Raise e, w)
    end.
Proof.
  destruct (int_repr z) as [s|e] eqn:E; [|reflexivity].
  apply int_repr_ret in E as [_ ->].
  apply write_chunks_text. apply decodes_valid. apply decodes_int.
Qed.

Ltac write_step :=
  first [ rewrite write_chunks_text by (reflexivity || (destruct read; reflexivity))
        | rewrite write_chunks_field
        | rewrite write_chunks_year ].

(** How the chunks of one record are written: all of them, or up to the
    first value that cannot be, a string with a lone surrogate or a year with
    too many digits. *)
Lemma book_chunks_run (b : book) (rest : list (result string)) (w : string) :
  write_chunks (book_chunks 1 b ++ rest) w
  = if utf8_valid (title b) then
      if utf8_valid (author b) then
        match int_repr (year b) with
        | Ret _ =>
            if utf8_valid (genre b) then
              write_chunks rest (w ++ dump_book 1 b)
            else
              (Raise UnicodeEncodeError,
               (w ++ "{" ++ newline_indent 2
               ++ dump_key "title" ++ dump_str (title b)
               ++ "," ++ newline_indent 2
               ++ dump_key "author" ++ dump_str (author b)
               ++ "," ++ newline_indent 2
               ++ dump_key "year" ++ dump_int (year b)
               ++ "," ++ newline_indent 2 ++ dump_key "genre")%string)
        | Raise e =>
            (Raise e,
             (w ++ "{" ++ newline_indent 2
             ++ dump_key "title" ++ dump_str (title b)
             ++ "," ++ newline_indent 2
             ++ dump_key "author" ++ dump_str (author b)
             ++ "," ++ newline_indent 2 ++ dump_key "year")%string)
        end
      else
        (Raise UnicodeEncodeError,
         (w ++ "{" ++ newline_indent 2
         ++ dump_key "title" ++ dump_str (title b)
         ++ "," ++ newline_indent 2 ++ dump_key "author")%string)
    else
      (Raise UnicodeEncodeError,
       (w ++ "{" ++ newline_indent 2 ++ dump_key "title")%string).
Proof.
  destruct b as [t a y g r].
  unfold book_chunks, dump_book, dump_key. cbn [title author year genre read].
  rewrite <- !app_comm_cons. rewrite app_nil_l.
  do 4 write_step.
  rewrite write_chunks_field.
  destruct (utf8_valid t);
    [|rewrite !append_assoc; reflexivity].
  do 3 write_step.
  rewrite write_chunks_field.
  destruct (utf8_valid a);
    [|rewrite !append_assoc; reflexivity].
  do 3 write_step.
  rewrite write_chunks_year.
  destruct (int_repr y) as [s|e];
    [|rewrite !append_assoc; reflexivity].
  do 3 write_step.
  rewrite write_chunks_field.
  destruct (utf8_valid g);
    [|rewrite !append_assoc; reflexivity].
  rewrite write_chunks_text by reflexivity.
  rewrite write_chunks_text by reflexivity.
  rewrite write_chunks_text by reflexivity.
  rewrite write_chunks_text by (destruct r; reflexivity).
  rewrite write_chunks_text by reflexivity.
  rewrite write_chunks_text by reflexivity.
  rewrite !append_assoc. reflexivity.
Qed.

Lemma writable_book_run (b : book) :
  writable_book b ->
  utf8_valid (title b) = true /\ utf8_valid (author b) = true
  /\ int_repr (year b) = Ret (dump_int (year b))
  /\ utf8_valid (genre b) = true.
Proof.
  intros [(Ht & Ha & Hg) Hy]. repeat split; auto. apply int_repr_ok. exact Hy.
Qed.

Lemma book_chunks_ok (b : book) (rest : list (result string)) (w : string) :
  writable_book b ->
  write_chunks (book_chunks 1 b ++ rest) w
  = write_chunks rest (w ++ dump_book 1 b).
Proof.
  intros H. apply writable_book_run in H as (Ht & Ha & Hy & Hg).
  rewrite book_chunks_run, Ht, Ha, Hy, Hg. reflexivity.
Qed.

Lemma book_chunks_ret (b : book) (rest : list (result string)) (w : string) :
  fst (write_chunks (book_chunks 1 b ++ rest) w) = Ret tt -> writable_book b.
Proof.
  rewrite book_chunks_run. unfold writable_book, text_book.
  destruct (utf8_valid (title b)); [|discriminate].
  destruct (utf8_valid (author b)); [|discriminate].
  destruct (int_repr (year b)) as [s|e] eqn:Ey; [|discriminate].
  destruct (utf8_valid (genre b)); [|discriminate].
  apply int_repr_ret in Ey as [Hy _]. auto.
Qed.

Lemma more_chunks_ok (r : list book) (tail : list (result string)) (w : string) :
  writable r ->
  write_chunks
    (flat_map (fun b' => Ret ("," ++ newline_indent 1)%string :: book_chunks 1 b') r
     ++ tail) w
  = write_chunks tail (w ++ dump_more r).
Proof.
  intros H. revert w. induction H as [|b r Hb _ IH]; intros w.
  - cbn [flat_map app dump_more]. rewrite append_empty_r. reflexivity.
  - cbn [flat_map dump_more]. rewrite <- !app_assoc, <- app_comm_cons.
    rewrite write_chunks_text by reflexivity.
    rewrite book_chunks_ok by exact Hb.
    rewrite IH. rewrite !append_assoc. reflexivity.
Qed.

Lemma more_chunks_ret (r : list book) (tail : list (result string)) (w : string) :
  fst (write_chunks
         (flat_map
            (fun b' => Ret ("," ++ newline_indent 1)%string :: book_chunks 1 b') r
          ++ tail) w) = Ret tt ->
  writable r.
Proof.
  revert w. induction r as [|b r IH]; intros w H; [constructor|].
  cbn [flat_map] in H. rewrite <- !app_assoc, <- app_comm_cons in H.
  rewrite write_chunks_text in H by reflexivity.
  pose proof (book_chunks_ret _ _ _ H) as Hb.
  rewrite book_chunks_ok in H by exact Hb.
  constructor; [exact Hb | exact (IH _ H)].
Qed.

(** [json.dump] writes the whole text exactly on the libraries that can be
    written. *)
Lemma dump_result_writable (l : list book) :
  writable l -> dump_result l = (Ret tt, json_dump l).
Proof.
  intros H. unfold dump_result, iterencode, json_dump.
  destruct H as [|b r Hb Hr]; [reflexivity|].
  rewrite write_chunks_text by reflexivity.
  rewrite book_chunks_ok by exact Hb.
  rewrite more_chunks_ok by exact Hr.
  rewrite write_chunks_text by reflexivity.
  rewrite write_chunks_text by reflexivity.
  cbn [write_chunks]. rewrite !append_assoc. reflexivity.
Qed.

Lemma dump_result_ret (l : list book) :
  fst (dump_result l) = Ret tt -> writable l.
Proof.
  unfold dump_result, iterencode.
  destruct l as [|b r]; [constructor|].
  rewrite write_chunks_text by reflexivity.
  intros H. pose proof (book_chunks_ret _ _ _ H) as Hb.
  rewrite book_chunks_ok in H by exact Hb.
  constructor; [exact Hb | exact (more_chunks_ret _ _ _ H)].
Qed.

Lemma dump_result_iff (l : list book) :
  fst (dump_result l) = Ret tt <-> writable l.
Proof.
  split; [apply dump_result_ret|].
  intros H. rewrite dump_result_writable by exact H. reflexivity.
Qed.

(** [save_library], however the writing ends. *)
Lemma save_library_run (m : manager) :
  save_library m
  = (fst (dump_result (library m)),
     mk_manager (library m) (Some (snd (dump_result (library m))))
       (trace m ++ [file_write (snd (dump_result (library m)))])).
Proof.
  unfold save_library, bind, get_library, write_json.
  destruct (dump_result (library m)); reflexivity.
Qed.

Lemma save_library_ok (m : manager) :
  writable (library m) ->
  save_library m
  = (Ret tt, mk_manager (library m) (Some (json_dump (library m)))
                        (trace m ++ [file_write (json_dump (library m))])).
Proof.
  intros H. rewrite save_library_run, dump_result_writable by exact H.
  reflexivity.
Qed.

(** The libraries that can be written stay so under selection and take a
    record that can be written. *)
Lemma writable_filter (f : book -> bool) (l : list book) :
  writable l -> writable (filter f l).
Proof.
  unfold writable. rewrite !Forall_forall. intros H b Hb.
  apply filter_In in Hb. destruct Hb as [Hb _]. apply H. exact Hb.
Qed.

Lemma writable_app (l : list book) (b : book) :
  writable (l ++ [b]) <-> writable l /\ writable_book b.
Proof.
  unfold writable. rewrite Forall_app. split.
  - intros [Hl Hb]. inversion Hb; subst. auto.
  - intros [Hl Hb]. split; [exact Hl | constructor; [exact Hb | constructor]].
Qed.

Lemma writable_text (l : list book) : writable l -> Forall text_book l.
Proof.
  unfold writable. rewrite !Forall_forall. intros H b Hb.
  apply H in Hb. destruct Hb as [Hb _]. exact Hb.
Qed.

Lemma count_read_filter (l : list book) :
  count_read l = Z.of_nat (List.length (filter read l)).
Proof.
  induction l as [|b l IH]; cbn [count_read filter]; [reflexivity|].
  destruct (read b); cbn [List.length]; rewrite ?Nat2Z.inj_succ; lia.
Qed.

Lemma count_read_bounds (l : list book) :
  (0 <= count_read l <= Z.of_nat (List.length l))%Z.
Proof.
  rewrite count_read_filter.
  pose proof (filter_length_le read l). lia.
Qed.

(* ------------------------------------------------------------------ *)
(** ** [remove_book] *)

Section RemoveBook.

Variable lower : string -> string.

Lemma keeps_spec (t : string) (b : book) :
  keeps lower t b = true <-> ~ same_ignoring_case lower (title b) t.
Proof.
  unfold keeps, same_ignoring_case.
  rewrite negb_true_iff, String.eqb_neq. tauto.
Qed.

(** [remove_book], however the writing ends: the library is replaced
    first, the file is rewritten, and the report follows when the writing
    has not raised. *)
Lemma remove_book_run (t : string) (m : manager) :
  let l' := filter (keeps lower t) (library m) in
  let text := snd (dump_result l') in
  remove_book lower t m
  = match fst (dump_result l') with
    | Ret _ =>
        (Ret tt,
         mk_manager l' (Some text)
           (trace m
            ++ [file_write text;
                if (List.length l' <? List.length (library m))%nat
                then st_success ("❌ Book **" ++ t ++ "** removed successfully!")
                else st_warning ("⚠️ Book **" ++ t
                                 ++ "** not found in the library.")]))
    | Raise e =>
        (Raise e, mk_manager l' (Some text) (trace m ++ [file_write text]))
    end.
Proof.
  intros l' text. subst text.
  cbv beta iota zeta delta
    [remove_book bind get_library set_library save_library write_json emit].
  cbn [fst snd library disk trace]. fold l'.
  destruct (dump_result l') as [[[]|e] text]; cbn [fst snd library disk trace];
    [|reflexivity].
  destruct (_ <? _)%nat; cbn [fst snd library disk trace];
    rewrite <- app_assoc; reflexivity.
Qed.

Lemma remove_book_ok (t : string) (m : manager) :
  let l' := filter (keeps lower t) (library m) in
  writable l' ->
  remove_book lower t m
  = (Ret tt,
     mk_manager l' (Some (json_dump l'))
       (trace m
        ++ [file_write (json_dump l');
            if (List.length l' <? List.length (library m))%nat
            then st_success ("❌ Book **" ++ t ++ "** removed successfully!")
            else st_warning ("⚠️ Book **" ++ t ++ "** not found in the library.")])).
Proof.
  intros l' H. rewrite remove_book_run. fold l'.
  rewrite (dump_result_writable l' H). reflexivity.
Qed.

Lemma remove_book_library (t : string) (m : manager) :
  library (snd (remove_book lower t m)) = filter (keeps lower t) (library m).
Proof.
  rewrite remove_book_run.
  destruct (fst (dump_result _)); reflexivity.
Qed.

(** C1.  [remove_book t] leaves exactly the records whose title differs
    from [t] once both are lower-cased, in their former order: every record
    whose title equals [t] ignoring case is gone, not only the first one, and
    the library is shorter by the number of those records. *)
Theorem remove_book_removes_every_match (t : string) (m : manager) :
  let m' := snd (remove_book lower t m) in
  selects (fun b => ~ same_ignoring_case lower (title b) t)
          (library m) (library m')
  /\ (forall b, In b (library m') -> ~ same_ignoring_case lower (title b) t)
  /\ (forall b, In b (library m) -> ~ same_ignoring_case lower (title b) t ->
                In b (library m'))
  /\ List.length (library m')
     = List.length (library m)
       - List.length (filter (fun b => lower (title b) =? lower t) (library m)).
Proof.
  intros m'. subst m'. rewrite remove_book_library.
  assert (Hsel : selects (fun b => ~ same_ignoring_case lower (title b) t)
                         (library m) (filter (keeps lower t) (library m))).
  { apply selects_filter. intros b. apply keeps_spec. }
  split; [exact Hsel|].
  split; [|split].
  - intros b Hb. apply (selects_In _ _ _ Hsel) in Hb. tauto.
  - intros b Hb Hne. apply (selects_In _ _ _ Hsel). tauto.
  - unfold keeps. apply filter_length_negb.
Qed.

(** C10.  A record that [remove_book t] retains is a record of the library
    before the call, found at the same index or later, with the same title,
    author, year, genre and read flag. *)
Theorem remove_book_keeps_records_intact (t : string) (m : manager)
  (i : nat) (b' : book) :
  nth_error (library (snd (remove_book lower t m))) i = Some b' ->
  exists j b,
    i <= j /\ nth_error (library m) j = Some b
    /\ title b = title b' /\ author b = author b' /\ year b = year b'
    /\ genre b = genre b' /\ read b = read b'.
Proof.
  rewrite remove_book_library. intros H.
  destruct (filter_nth_error _ _ _ _ H) as (j & Hij & Hj & _).
  exists j, b'. repeat split; assumption.
Qed.

(** C3 (as the code has it).  When no title equals [t] ignoring case and
    the library is one that the file can take, [remove_book t] leaves the
    records as they were, still rewrites the file once, with the unchanged
    library, and then reports through [st.warning], the not-found outcome,
    not through [st.error]. *)
Theorem remove_book_not_found (t : string) (m : manager) :
  (forall b, In b (library m) -> ~ same_ignoring_case lower (title b) t) ->
  writable (library m) ->
  let m' := snd (remove_book lower t m) in
  fst (remove_book lower t m) = Ret tt
  /\ library m' = library m
  /\ disk m' = Some (json_dump (library m))
  /\ writes (trace m') = S (writes (trace m))
  /\ exists msg,
       trace m' = trace m ++ [file_write (json_dump (library m)); st_warning msg]
       /\ outcome_of (st_warning msg) = Some NotFound.
Proof.
  intros Hnone Hw m'. subst m'.
  assert (Hkeep : filter (keeps lower t) (library m) = library m).
  { apply forallb_filter_id. apply forallb_forall.
    intros b Hb. apply keeps_spec. auto. }
  rewrite remove_book_ok by (rewrite Hkeep; exact Hw).
  rewrite Hkeep, Nat.ltb_irrefl. cbn [fst snd library disk trace].
  repeat split.
  - rewrite writes_app. simpl. lia.
  - eexists. split; reflexivity.
Qed.

End RemoveBook.

(* ------------------------------------------------------------------ *)
(** ** [add_book] *)

Section AddBook.

Variable strip : string -> string.

Lemma falsy_empty (s : string) : falsy s = true <-> s = EmptyString.
Proof. destruct s; simpl; split; congruence. Qed.

(** The guard of [add_book] looks at the arguments as they were passed. *)
Lemma add_book_rejects_empty (title author genre : string) (year : Z)
  (read_status : bool) (m : manager) :
  title = EmptyString \/ author = EmptyString ->
  add_book strip title author year genre read_status m
  = (Ret tt, mk_manager (library m) (disk m)
               (trace m ++ [st_error "Title and Author cannot be empty!"])).
Proof.
  intros H. unfold add_book.
  assert (E : falsy title || falsy author = true).
  { apply orb_true_iff. rewrite !falsy_empty. exact H. }
  rewrite E. reflexivity.
Qed.

(** An accepted [add_book], however the writing ends: the record is
    appended first, the file is rewritten, and the report follows when the
    writing has not raised. *)
Lemma add_book_run (title author genre : string) (year : Z)
  (read_status : bool) (m : manager) :
  title <> EmptyString -> author <> EmptyString ->
  let l := library m ++ [mk_book (strip title) (strip author) (py_int year)
                                 (strip genre) read_status] in
  let text := snd (dump_result l) in
  add_book strip title author year genre read_status m
  = match fst (dump_result l) with
    | Ret _ =>
        (Ret tt,
         mk_manager l (Some text)
           (trace m
            ++ [file_write text;
                st_success ("✅ Book **" ++ title ++ "** added successfully!")]))
    | Raise e =>
        (Raise e, mk_manager l (Some text) (trace m ++ [file_write text]))
    end.
Proof.
  intros Ht Ha l text. subst text. unfold add_book.
  destruct title as [|c title']; [congruence|].
  destruct author as [|d author']; [congruence|].
  cbv beta iota zeta delta
    [falsy orb bind get_library set_library save_library write_json emit].
  cbn [fst snd library disk trace]. fold l.
  destruct (dump_result l) as [[[]|e] text]; cbn [fst snd library disk trace];
    [|reflexivity].
  rewrite <- app_assoc. reflexivity.
Qed.

Lemma add_book_ok (title author genre : string) (year : Z)
  (read_status : bool) (m : manager) :
  title <> EmptyString -> author <> EmptyString ->
  let l := library m ++ [mk_book (strip title) (strip author) (py_int year)
                                 (strip genre) read_status] in
  writable l ->
  add_book strip title author year genre read_status m
  = (Ret tt,
     mk_manager l (Some (json_dump l))
       (trace m ++ [file_write (json_dump l);
                    st_success ("✅ Book **" ++ title ++ "** added successfully!")])).
Proof.
  intros Ht Ha l Hw.
  rewrite (add_book_run title author genre year read_status m Ht Ha).
  fold l. rewrite (dump_result_writable l Hw). reflexivity.
Qed.

Lemma add_book_library (title author genre : string) (year : Z)
  (read_status : bool) (m : manager) :
  title <> EmptyString -> author <> EmptyString ->
  library (snd (add_book strip title author year genre read_status m))
  = library m ++ [mk_book (strip title) (strip author) (py_int year)
                          (strip genre) read_status].
Proof.
  intros Ht Ha.
  rewrite (add_book_run title author genre year read_status m Ht Ha).
  destruct (fst (dump_result _)); reflexivity.
Qed.

(** C4 (as the code has it).  With a title and an author that are not empty
    once trimmed, and when the library with the new record is one that the
    file can take, [add_book] returns normally, appends one record (the
    trimmed title, author and genre, the year as an integer, the read flag)
    behind the records already there, rewrites the file with the new library
    and then reports through [st.success].  Nothing is compared with the
    records already there: the same call made again appends the same record
    again. *)
Theorem add_book_appends_record (title author genre : string) (year : Z)
  (read_status : bool) (m : manager) :
  strip EmptyString = EmptyString ->
  strip title <> EmptyString -> strip author <> EmptyString ->
  let record := mk_book (strip title) (strip author) year (strip genre)
                        read_status in
  writable (library m ++ [record]) ->
  let run := add_book strip title author year genre read_status in
  let m' := snd (run m) in
  fst (run m) = Ret tt
  /\ library m' = library m ++ [record]
  /\ disk m' = Some (json_dump (library m ++ [record]))
  /\ writes (trace m') = S (writes (trace m))
  /\ (exists msg,
        trace m' = trace m ++ [file_write (json_dump (library m ++ [record]));
                               st_success msg]
        /\ outcome_of (st_success msg) = Some Success)
  /\ library (snd (run m')) = library m ++ [record; record].
Proof.
  intros Hstrip Ht Ha record Hw run m'.
  assert (Ht' : title <> EmptyString) by (intros ->; auto).
  assert (Ha' : author <> EmptyString) by (intros ->; auto).
  assert (Hlib : forall m0, library (snd (run m0)) = library m0 ++ [record])
    by (intros m0; exact (add_book_library title author genre year
                            read_status m0 Ht' Ha')).
  assert (Hrun : run m = _)
    by exact (add_book_ok title author genre year read_status m Ht' Ha' Hw).
  subst m'. rewrite Hrun. cbn [fst snd library disk trace].
  split; [reflexivity|]. split; [reflexivity|]. split; [reflexivity|].
  split; [rewrite writes_app; simpl; lia|].
  split; [eexists; split; reflexivity|].
  rewrite Hlib. cbn [library]. rewrite <- app_assoc. reflexivity.
Qed.

End AddBook.

(** C2 (where the code departs from it).  A title made of blanks only is
    empty once trimmed, yet it passes the guard of [add_book]: the record is
    appended with an empty title, the file is rewritten and the call reports
    through [st.success]. *)
Theorem add_book_accepts_blank_title :
  let title := "   " in
  let m := empty_manager None in
  let m' := snd (add_book ascii_strip title "Frank Herbert" 1965 "Sci-Fi" true m) in
  ascii_strip title = EmptyString
  /\ library m' = [mk_book "" "Frank Herbert" 1965 "Sci-Fi" true]
  /\ List.length (library m') = S (List.length (library m))
  /\ writes (trace m') = 1
  /\ map outcome_of (trace m') = [None; Some Success].
Proof.
  cbv zeta. repeat split.
Qed.

(* ------------------------------------------------------------------ *)
(** ** [search_books] *)

Section SearchBooks.

Variable lower : string -> string.

(** A record matches a query when the lower-cased query occurs in its
    lower-cased title or in its lower-cased author. *)
Lemma hit_spec (query : string) (b : book) :
  hit lower query b = true
  <-> occurs (lower query) (lower (title b))
      \/ occurs (lower query) (lower (author b)).
Proof.
  unfold hit. rewrite orb_true_iff, !contains_occurs. tauto.
Qed.

Lemma search_books_run (query : string) (m : manager) :
  search_books lower query m = (Ret (filter (hit lower query) (library m)), m).
Proof. reflexivity. Qed.

(** C5.  [search_books query] returns the records whose title or author
    contains the query, case ignored, as a subsequence of the library in its
    order; the empty query returns the whole library; the call changes
    neither the library nor the file and performs no effect. *)
Theorem search_books_selects_matches (query : string) (m : manager) :
  lower EmptyString = EmptyString ->
  (exists found,
     search_books lower query m = (Ret found, m)
     /\ selects (fun b => occurs (lower query) (lower (title b))
                          \/ occurs (lower query) (lower (author b)))
                (library m) found)
  /\ search_books lower EmptyString m = (Ret (library m), m)
  /\ writes (trace (snd (search_books lower query m))) = writes (trace m).
Proof.
  intros Hlower. rewrite !search_books_run. split; [|split].
  - exists (filter (hit lower query) (library m)). split; [reflexivity|].
    apply selects_filter. intros b. apply hit_spec.
  - f_equal. f_equal. apply forallb_filter_id. apply forallb_forall.
    intros b _. unfold hit. rewrite Hlower, contains_empty. reflexivity.
  - reflexivity.
Qed.

End SearchBooks.

(* ------------------------------------------------------------------ *)
(** ** Floats: rounding to binary64 *)

Local Open Scope Q_scope.

(** *** The nearest integer *)

Lemma nearest_compat (q q' : Q) : q == q' -> nearest q = nearest q'.
Proof.
  intros H. unfold nearest.
  rewrite (Qfloor_comp _ _ H).
  assert (E : Qcompare (q - inject_Z (Qfloor q')) (1 # 2)
              = Qcompare (q' - inject_Z (Qfloor q')) (1 # 2)).
  { apply Qcompare_comp; [rewrite H; reflexivity | reflexivity]. }
  rewrite E. reflexivity.
Qed.

Lemma floor_bounds (q : Q) :
  inject_Z (Qfloor q) <= q /\ q < inject_Z (Qfloor q) + 1.
Proof.
  split; [apply Qfloor_le|].
  pose proof (Qlt_floor q) as H.
  rewrite inject_Z_plus in H. exact H.
Qed.

Lemma nearest_cases (q : Q) :
  let f := Qfloor q in
  (nearest q = f /\ q - inject_Z f <= 1 # 2)
  \/ (nearest q = (f + 1)%Z /\ 1 # 2 <= q - inject_Z f).
Proof.
  intros f. unfold nearest. fold f.
  destruct (Qcompare (q - inject_Z f) (1 # 2)) eqn:E.
  - apply Qeq_alt in E.
    destruct (Z.even f); [left | right]; split; auto; rewrite E; apply Qle_refl.
  - apply Qlt_alt in E. left. split; [reflexivity | apply Qlt_le_weak; exact E].
  - apply Qgt_alt in E. right. split; [reflexivity | apply Qlt_le_weak; exact E].
Qed.

Lemma nearest_bounds (q : Q) :
  inject_Z (nearest q) - (1 # 2) <= q /\ q <= inject_Z (nearest q) + (1 # 2).
Proof.
  destruct (floor_bounds q) as [Hlo Hhi].
  destruct (nearest_cases q) as [[-> H]|[-> H]].
  - split; lra.
  - rewrite inject_Z_plus. change (inject_Z 1) with 1. split; lra.
Qed.

Lemma nearest_le_Z (q : Q) (k : Z) : q <= inject_Z k -> (nearest q <= k)%Z.
Proof.
  intros H. pose proof (nearest_bounds q) as [Hlo _].
  assert (Hlt : inject_Z (nearest q) < inject_Z (k + 1)).
  { rewrite inject_Z_plus. change (inject_Z 1) with 1. lra. }
  rewrite <- Zlt_Qlt in Hlt. lia.
Qed.

Lemma nearest_ge_Z (q : Q) (k : Z) : inject_Z k <= q -> (k <= nearest q)%Z.
Proof.
  intros H. pose proof (nearest_bounds q) as [_ Hhi].
  assert (Hlt : inject_Z k < inject_Z (nearest q + 1)).
  { rewrite inject_Z_plus. change (inject_Z 1) with 1. lra. }
  rewrite <- Zlt_Qlt in Hlt. lia.
Qed.

Lemma nearest_mono (q q' : Q) : q <= q' -> (nearest q <= nearest q')%Z.
Proof.
  intros H.
  pose proof (Qfloor_resp_le _ _ H) as Hf.
  destruct (nearest_cases q) as [[E1 H1]|[E1 H1]];
    destruct (nearest_cases q') as [[E2 H2]|[E2 H2]]; rewrite E1, E2; try lia.
  destruct (Z.eq_dec (Qfloor q) (Qfloor q')) as [E|E]; [|lia].
  exfalso.
  (* same floor, q rounds up and q' rounds down: both sit on the tie *)
  rewrite <- E in H2.
  assert (Hq : q - inject_Z (Qfloor q) == 1 # 2) by lra.
  assert (Hq' : q' - inject_Z (Qfloor q) == 1 # 2) by lra.
  assert (Hqq : q == q') by lra.
  pose proof (nearest_compat _ _ Hqq) as Hn. lia.
Qed.

Lemma nearest_Z (k : Z) : nearest (inject_Z k) = k.
Proof.
  apply Z.le_antisymm.
  - apply nearest_le_Z. apply Qle_refl.
  - apply nearest_ge_Z. apply Qle_refl.
Qed.

(** *** Powers of two *)

Lemma two_pos (e : Z) : 0 < 2 ^ e.
Proof. apply Qpower_0_lt. reflexivity. Qed.

Lemma two_le (a b : Z) : (a <= b)%Z -> 2 ^ a <= 2 ^ b.
Proof. intros H. apply Qpower_le_compat_l; [exact H | discriminate]. Qed.

Lemma two_lt (a b : Z) : (a < b)%Z -> 2 ^ a < 2 ^ b.
Proof. intros H. apply Qpower_lt_compat_l; [exact H | reflexivity]. Qed.

Lemma two_plus (a b : Z) : 2 ^ (a + b) == 2 ^ a * 2 ^ b.
Proof. apply Qpower_plus. discriminate. Qed.

Lemma two_Z (n : Z) : (0 <= n)%Z -> inject_Z (2 ^ n) == 2 ^ n.
Proof. intros H. rewrite Zpower_Qpower by exact H. reflexivity. Qed.

Lemma two_succ (a : Z) : 2 ^ (a + 1) == 2 * 2 ^ a.
Proof. rewrite two_plus. change (2 ^ 1) with 2. ring. Qed.

(** *** The exponent of a positive rational *)

Lemma log2_floor_spec (q : Q) :
  0 < q -> 2 ^ log2_floor q <= q /\ q < 2 ^ (log2_floor q + 1).
Proof.
  intros Hq. destruct q as [n d]. unfold log2_floor. cbn [Qnum Qden].
  assert (Hn : (0 < n)%Z).
  { unfold Qlt in Hq. simpl in Hq. lia. }
  set (a := Z.log2 n). set (b := Z.log2 (Z.pos d)).
  assert (Ha : (2 ^ a <= n < 2 ^ (a + 1))%Z).
  { pose proof (Z.log2_spec n Hn). unfold a. replace (a + 1)%Z with (Z.succ (Z.log2 n)); [lia|unfold a; lia]. }
  assert (Hb : (2 ^ b <= Z.pos d < 2 ^ (b + 1))%Z).
  { pose proof (Z.log2_spec (Z.pos d) eq_refl). unfold b.
    replace (Z.log2 (Z.pos d) + 1)%Z with (Z.succ (Z.log2 (Z.pos d))) by lia. lia. }
  assert (Ha0 : (0 <= a)%Z) by apply Z.log2_nonneg.
  assert (Hb0 : (0 <= b)%Z) by apply Z.log2_nonneg.
  assert (Hq' : n # d == inject_Z n / inject_Z (Z.pos d)).
  { rewrite Qmake_Qdiv. reflexivity. }
  assert (Hd : 0 < inject_Z (Z.pos d)) by reflexivity.
  (* 2^(a-b-1) <= q < 2^(a-b+1) *)
  assert (HA1 : 2 ^ a <= inject_Z n).
  { rewrite <- two_Z by lia. rewrite <- Zle_Qle. lia. }
  assert (HA2 : inject_Z n < 2 ^ (a + 1)).
  { rewrite <- two_Z by lia. rewrite <- Zlt_Qlt. lia. }
  assert (HB1 : 2 ^ b <= inject_Z (Z.pos d)).
  { rewrite <- two_Z by lia. rewrite <- Zle_Qle. lia. }
  assert (HB2 : inject_Z (Z.pos d) < 2 ^ (b + 1)).
  { rewrite <- two_Z by lia. rewrite <- Zlt_Qlt. lia. }
  assert (Hup : n # d < 2 ^ (a - b + 1)).
  { rewrite Hq'. apply Qlt_shift_div_r; [exact Hd|].
    replace (a - b + 1)%Z with ((a + 1) + (- b))%Z by lia.
    rewrite two_plus.
    assert (E : 2 ^ (- b) * 2 ^ b == 1).
    { rewrite <- two_plus. replace (- b + b)%Z with 0%Z by lia. reflexivity. }
    pose proof (two_pos (a + 1)). pose proof (two_pos (- b)). pose proof (two_pos b).
    apply Qlt_le_trans with (2 ^ (a + 1)); [exact HA2|].
    setoid_replace (2 ^ (a + 1)) with (2 ^ (a + 1) * 2 ^ (- b) * 2 ^ b) at 1
      by (rewrite <- Qmult_assoc, E; ring).
    apply Qmult_le_l; [|exact HB1].
    apply Qmult_lt_0_compat; assumption. }
  assert (Hlo : 2 ^ (a - b - 1) <= n # d).
  { rewrite Hq'. apply Qle_shift_div_l; [exact Hd|].
    replace (a - b - 1)%Z with (a + (- (b + 1)))%Z by lia.
    rewrite two_plus.
    assert (E : 2 ^ (- (b + 1)) * 2 ^ (b + 1) == 1).
    { rewrite <- two_plus. replace (- (b + 1) + (b + 1))%Z with 0%Z by lia.
      reflexivity. }
    pose proof (two_pos a). pose proof (two_pos (- (b + 1))).
    pose proof (two_pos (b + 1)).
    apply Qle_trans with (2 ^ a); [|exact HA1].
    setoid_replace (2 ^ a) with (2 ^ a * 2 ^ (- (b + 1)) * 2 ^ (b + 1)) at 2
      by (rewrite <- Qmult_assoc, E; ring).
    apply Qmult_le_l; [|apply Qlt_le_weak; exact HB2].
    apply Qmult_lt_0_compat; assumption. }
  destruct (Qle_bool (2 ^ (a - b)) (n # d)) eqn:E.
  - apply Qle_bool_iff in E. split; assumption.
  - assert (Hlt : n # d < 2 ^ (a - b)).
    { apply Qnot_le_lt. intros H. apply Qle_bool_iff in H. congruence. }
    replace (a - b - 1 + 1)%Z with (a - b)%Z by lia. split; assumption.
Qed.

Lemma log2_floor_unique (q : Q) (k : Z) :
  2 ^ k <= q -> q < 2 ^ (k + 1) -> log2_floor q = k.
Proof.
  intros Hlo Hhi.
  assert (Hq : 0 < q) by (pose proof (two_pos k); lra).
  destruct (log2_floor_spec q Hq) as [Hlo' Hhi'].
  assert (H1 : (k < log2_floor q + 1)%Z).
  { apply (Qpower_lt_compat_l_inv 2); [lra | reflexivity]. }
  assert (H2 : (log2_floor q < k + 1)%Z).
  { apply (Qpower_lt_compat_l_inv 2); [lra | reflexivity]. }
  lia.
Qed.

Lemma log2_floor_mono (q q' : Q) :
  0 < q -> q <= q' -> (log2_floor q <= log2_floor q')%Z.
Proof.
  intros Hq H.
  destruct (log2_floor_spec q Hq) as [Hlo _].
  destruct (log2_floor_spec q') as [_ Hhi']; [lra|].
  assert (H1 : (log2_floor q < log2_floor q' + 1)%Z).
  { apply (Qpower_lt_compat_l_inv 2); [lra | reflexivity]. }
  lia.
Qed.

Lemma log2_floor_compat (q q' : Q) :
  0 < q -> q == q' -> log2_floor q = log2_floor q'.
Proof.
  intros Hq H.
  destruct (log2_floor_spec q Hq) as [Hlo Hhi].
  symmetry. apply log2_floor_unique; rewrite <- H; assumption.
Qed.

(** *** Rounding to binary64 *)

Lemma binary64_pos_eq (x : Q) :
  0 < x -> binary64 x = inject_Z (nearest (x / 2 ^ ulp_exp x)) * 2 ^ ulp_exp x.
Proof.
  intros Hx. unfold binary64.
  destruct (Qeq_bool x 0) eqn:E; [|reflexivity].
  apply Qeq_bool_iff in E. lra.
Qed.

Lemma binary64_zero (x : Q) : x == 0 -> binary64 x = 0.
Proof.
  intros H. unfold binary64.
  destruct (Qeq_bool x 0) eqn:E; [reflexivity|].
  apply Qeq_bool_neq in E. contradiction.
Qed.

Lemma ulp_exp_pos (x : Q) :
  0 < x -> ulp_exp x = Z.max (log2_floor x - 52) (-1074).
Proof.
  intros Hx. unfold ulp_exp.
  rewrite (log2_floor_compat (Qabs x) x); [reflexivity | | ].
  - rewrite Qabs_pos; lra.
  - apply Qabs_pos. lra.
Qed.

Lemma binary64_nonneg (x : Q) : 0 <= x -> 0 <= binary64 x.
Proof.
  intros Hx. destruct (Qeq_dec x 0) as [E|E].
  - rewrite binary64_zero by exact E. apply Qle_refl.
  - assert (Hpos : 0 < x) by lra.
    rewrite binary64_pos_eq by exact Hpos.
    pose proof (two_pos (ulp_exp x)) as H2.
    apply Qmult_le_0_compat; [|lra].
    change 0 with (inject_Z 0). rewrite <- Zle_Qle.
    apply nearest_ge_Z. change (inject_Z 0) with 0.
    apply Qle_shift_div_l; [exact H2 | lra].
Qed.

Lemma binary64_compat (x y : Q) : 0 <= x -> x == y -> binary64 x == binary64 y.
Proof.
  intros Hx H. destruct (Qeq_dec x 0) as [E|E].
  - rewrite !binary64_zero; [reflexivity | rewrite <- H; exact E | exact E].
  - assert (Hpos : 0 < x) by lra.
    assert (Hposy : 0 < y) by lra.
    rewrite !binary64_pos_eq by assumption.
    rewrite !ulp_exp_pos by assumption.
    rewrite (log2_floor_compat x y Hpos H).
    set (e := Z.max _ _).
    rewrite (nearest_compat (x / 2 ^ e) (y / 2 ^ e)); [reflexivity|].
    rewrite H. reflexivity.
Qed.

(** Scaling: x / 2^e <= K  <->  x <= K * 2^e *)
Lemma scaled_le (x : Q) (e : Z) (k : Q) : x <= k * 2 ^ e -> x / 2 ^ e <= k.
Proof.
  intros H. apply Qle_shift_div_r; [apply two_pos | exact H].
Qed.

Lemma scaled_ge (x : Q) (e : Z) (k : Q) : k * 2 ^ e <= x -> k <= x / 2 ^ e.
Proof.
  intros H. apply Qle_shift_div_l; [apply two_pos | exact H].
Qed.

Lemma binary64_mono (x y : Q) : 0 <= x -> x <= y -> binary64 x <= binary64 y.
Proof.
  intros Hx Hxy. destruct (Qeq_dec x 0) as [E|E].
  { rewrite (binary64_zero x E). apply binary64_nonneg. lra. }
  assert (Hpx : 0 < x) by lra. assert (Hpy : 0 < y) by lra.
  rewrite !binary64_pos_eq by assumption.
  rewrite !ulp_exp_pos by assumption.
  pose proof (log2_floor_mono x y Hpx Hxy) as HL.
  destruct (log2_floor_spec x Hpx) as [Hxlo Hxhi].
  destruct (log2_floor_spec y Hpy) as [Hylo Hyhi].
  set (Lx := log2_floor x) in *. set (Ly := log2_floor y) in *.
  set (ex := Z.max (Lx - 52) (-1074)). set (ey := Z.max (Ly - 52) (-1074)).
  pose proof (two_pos ex) as Hex. pose proof (two_pos ey) as Hey.
  destruct (Z.eq_dec ex ey) as [Ee|Ee].
  - rewrite <- Ee.
    apply Qmult_le_compat_r; [|lra].
    rewrite <- Zle_Qle. apply nearest_mono.
    apply Qmult_le_compat_r; [exact Hxy|].
    apply Qlt_le_weak. apply Qinv_lt_0_compat. exact Hex.
  - assert (Hlt : (ex < ey)%Z) by lia.
    assert (Hey' : ey = (Ly - 52)%Z) by lia.
    (* binary64 y >= 2^Ly *)
    assert (Hy2 : 2 ^ Ly <= inject_Z (nearest (y / 2 ^ ey)) * 2 ^ ey).
    { assert (Hk : (2 ^ 52 <= nearest (y / 2 ^ ey))%Z).
      { apply nearest_ge_Z. apply scaled_ge.
        rewrite two_Z by lia. rewrite <- two_plus.
        replace (52 + ey)%Z with Ly by lia. exact Hylo. }
      apply Qle_trans with (inject_Z (2 ^ 52) * 2 ^ ey).
      - rewrite two_Z by lia. rewrite <- two_plus.
        replace (52 + ey)%Z with Ly by lia. apply Qle_refl.
      - apply Qmult_le_compat_r; [|lra]. rewrite <- Zle_Qle. exact Hk. }
    (* binary64 x <= 2^max(Lx+1, ex) <= 2^Ly *)
    apply Qle_trans with (2 ^ Ly); [|exact Hy2].
    destruct (Z_le_gt_dec ex (Lx + 1)) as [Hc|Hc].
    + assert (Hk : (nearest (x / 2 ^ ex) <= 2 ^ (Lx + 1 - ex))%Z).
      { apply nearest_le_Z. apply scaled_le.
        rewrite two_Z by lia. rewrite <- two_plus.
        replace (Lx + 1 - ex + ex)%Z with (Lx + 1)%Z by lia. lra. }
      apply Qle_trans with (inject_Z (2 ^ (Lx + 1 - ex)) * 2 ^ ex).
      * apply Qmult_le_compat_r; [|lra]. rewrite <- Zle_Qle. exact Hk.
      * rewrite two_Z by lia. rewrite <- two_plus.
        replace (Lx + 1 - ex + ex)%Z with (Lx + 1)%Z by lia.
        apply two_le. lia.
    + assert (Hk : (nearest (x / 2 ^ ex) <= 1)%Z).
      { apply nearest_le_Z. apply scaled_le. change (inject_Z 1) with 1.
        apply Qle_trans with (2 ^ (Lx + 1)); [lra|].
        rewrite Qmult_1_l. apply two_le. lia. }
      apply Qle_trans with (inject_Z 1 * 2 ^ ex).
      * apply Qmult_le_compat_r; [|lra]. rewrite <- Zle_Qle. exact Hk.
      * change (inject_Z 1) with 1. rewrite Qmult_1_l. apply two_le. lia.
Qed.

(** The error of one rounding below [2 ^ k]. *)
Lemma binary64_error (x : Q) (k : Z) :
  0 <= x -> x < 2 ^ k -> (-1021 <= k)%Z ->
  Qabs (binary64 x - x) <= 2 ^ (k - 54).
Proof.
  intros Hx Hk Hmin. destruct (Qeq_dec x 0) as [E|E].
  { rewrite (binary64_zero x E).
    setoid_replace (0 - x) with 0 by (rewrite E; ring).
    apply Qlt_le_weak. apply two_pos. }
  assert (Hpx : 0 < x) by lra.
  rewrite binary64_pos_eq by exact Hpx. rewrite ulp_exp_pos by exact Hpx.
  destruct (log2_floor_spec x Hpx) as [Hlo Hhi].
  set (L := log2_floor x) in *. set (e := Z.max (L - 52) (-1074)).
  assert (HL : (L < k)%Z).
  { apply (Qpower_lt_compat_l_inv 2); [lra | reflexivity]. }
  assert (He : (e <= k - 53)%Z) by lia.
  pose proof (two_pos e) as H2.
  assert (Hx' : x == x / 2 ^ e * 2 ^ e) by (field; lra).
  pose proof (nearest_bounds (x / 2 ^ e)) as [Hn1 Hn2].
  set (q := x / 2 ^ e) in *.
  set (n := inject_Z (nearest q)) in *.
  set (u := 2 ^ e) in *.
  assert (Herr : Qabs (n * u - x) <= (1 # 2) * u).
  { assert (Ed : n * u - x == (n - q) * u) by (rewrite Hx' at 1; ring).
    rewrite Ed.
    apply Qabs_Qle_condition. split.
    - setoid_replace (- ((1 # 2) * u)) with ((- (1 # 2)) * u) by ring.
      apply Qmult_le_compat_r; lra.
    - apply Qmult_le_compat_r; lra. }
  subst u.
  apply Qle_trans with ((1 # 2) * 2 ^ e); [exact Herr|].
  pose proof (two_le e (k - 53) He) as Hle.
  assert (Hs' : 2 ^ (k - 53) == 2 * 2 ^ (k - 54)).
  { replace (k - 53)%Z with (k - 54 + 1)%Z by lia. apply two_succ. }
  lra.
Qed.

(** The floats that the bounds below are read off. *)
Lemma binary64_one : binary64 1 == 1.
Proof. vm_compute. reflexivity. Qed.

Lemma binary64_hundred : binary64 100 == 100.
Proof. vm_compute. reflexivity. Qed.

Lemma binary64_below_one : binary64 (1 - 2 ^ (-53)) == 1 - 2 ^ (-53).
Proof. vm_compute. reflexivity. Qed.

Lemma binary64_below_hundred :
  binary64 ((1 - 2 ^ (-53)) * 100) == 100 - 2 ^ (-46).
Proof. vm_compute. reflexivity. Qed.

Lemma binary64_small : binary64 (2 ^ (-53)) == 2 ^ (-53).
Proof. vm_compute. reflexivity. Qed.

Lemma binary64_small_hundred : 0 < binary64 (2 ^ (-53) * 100).
Proof. vm_compute. reflexivity. Qed.

Local Close Scope Q_scope.

(* ------------------------------------------------------------------ *)
(** ** [display_statistics] *)

Local Open Scope Q_scope.

Lemma inject_Z_pos (t : Z) : (0 < t)%Z -> 0 < inject_Z t.
Proof. intros H. change 0 with (inject_Z 0). rewrite <- Zlt_Qlt. exact H. Qed.

Lemma Qle_eq_r (a b c : Q) : a <= b -> b == c -> a <= c.
Proof. intros H E. rewrite <- E. exact H. Qed.

Lemma Qle_eq_l (a b c : Q) : a == b -> b <= c -> a <= c.
Proof. intros E H. rewrite E. exact H. Qed.

(** The quotient of the two counts, before it is rounded. *)
Lemma quotient_bounds (r t : Z) :
  (0 <= r <= t)%Z -> (0 < t)%Z ->
  0 <= inject_Z r / inject_Z t /\ inject_Z r / inject_Z t <= 1.
Proof.
  intros Hr Ht. pose proof (inject_Z_pos t Ht) as Hpos.
  split.
  - apply Qle_shift_div_l; [exact Hpos|]. rewrite Qmult_0_l.
    change 0 with (inject_Z 0). rewrite <- Zle_Qle. lia.
  - apply Qle_shift_div_r; [exact Hpos|]. rewrite Qmult_1_l.
    rewrite <- Zle_Qle. lia.
Qed.

Lemma float_quotient_bounds (r t : Z) :
  (0 <= r <= t)%Z -> (0 < t)%Z ->
  0 <= binary64 (inject_Z r / inject_Z t)
  /\ binary64 (inject_Z r / inject_Z t) <= 1.
Proof.
  intros Hr Ht. destruct (quotient_bounds r t Hr Ht) as [H0 H1].
  split; [apply binary64_nonneg; exact H0|].
  apply (Qle_eq_r _ (binary64 1)); [|exact binary64_one].
  apply binary64_mono; assumption.
Qed.

(** A float between 0 and 1 is far from the infinities. *)
Lemma no_overflow (q : Q) :
  0 <= q -> q <= 1 -> Qle_bool (2 ^ 1024) (Qabs q) = false.
Proof.
  intros H0 H1. destruct (Qle_bool (2 ^ 1024) (Qabs q)) eqn:E; [|reflexivity].
  apply Qle_bool_iff in E. rewrite Qabs_pos in E by exact H0.
  pose proof (two_lt 0 1024 eq_refl) as H. change (2 ^ 0) with 1 in H. lra.
Qed.

Lemma truediv_counts (r t : Z) (m : manager) :
  (0 <= r <= t)%Z -> (0 < t)%Z ->
  truediv r t m = (Ret (binary64 (inject_Z r / inject_Z t)), m).
Proof.
  intros Hr Ht. unfold truediv.
  destruct (t =? 0)%Z eqn:E; [apply Z.eqb_eq in E; lia|].
  destruct (float_quotient_bounds r t Hr Ht) as [H0 H1].
  rewrite (no_overflow _ H0 H1). reflexivity.
Qed.

(** What [display_statistics] returns: the number of records, and the
    quotient of the two counts rounded to a float, times 100, rounded
    again. *)
Lemma display_statistics_run (m : manager) :
  display_statistics m
  = (Ret (Z.of_nat (List.length (library m)),
          if (0 <? Z.of_nat (List.length (library m)))%Z
          then binary64
                 (binary64 (inject_Z (count_read (library m))
                            / inject_Z (Z.of_nat (List.length (library m))))
                  * 100)
          else 0), m).
Proof.
  unfold display_statistics, bind, get_library, fmul.
  destruct (0 <? Z.of_nat (List.length (library m)))%Z eqn:E; [|reflexivity].
  apply Z.ltb_lt in E.
  rewrite (truediv_counts _ _ m (count_read_bounds (library m)) E).
  reflexivity.
Qed.

(** The percentage of [r] in [t], as floats give it. *)
Lemma percentage_range (r t : Z) :
  (0 <= r <= t)%Z -> (0 < t)%Z ->
  0 <= binary64 (binary64 (inject_Z r / inject_Z t) * 100)
  /\ binary64 (binary64 (inject_Z r / inject_Z t) * 100) <= 100.
Proof.
  intros Hr Ht. destruct (float_quotient_bounds r t Hr Ht) as [H0 H1].
  set (y := binary64 (inject_Z r / inject_Z t)) in *.
  split; [apply binary64_nonneg; lra|].
  apply (Qle_eq_r _ (binary64 100)); [|exact binary64_hundred].
  apply binary64_mono; lra.
Qed.

(** Two roundings: the float is the exact percentage up to [2 ^ (-46)],
    some fourteen decimal places. *)
Lemma percentage_error (r t : Z) :
  (0 <= r <= t)%Z -> (0 < t)%Z ->
  Qabs (binary64 (binary64 (inject_Z r / inject_Z t) * 100)
        - 100 * inject_Z r / inject_Z t) <= 2 ^ (-46).
Proof.
  intros Hr Ht.
  destruct (quotient_bounds r t Hr Ht) as [Hx0 Hx1].
  destruct (float_quotient_bounds r t Hr Ht) as [Hy0 Hy1].
  set (x := inject_Z r / inject_Z t) in *.
  set (y := binary64 x) in *.
  assert (E1 : Qabs (y - x) <= 2 ^ (-54)).
  { destruct (Qlt_le_dec x 1) as [Hlt|Hge].
    - apply (binary64_error x 0); [exact Hx0 | exact Hlt | lia].
    - assert (Ex : x == 1) by lra.
      assert (Ey : y == 1).
      { unfold y. rewrite (binary64_compat x 1 Hx0 Ex). apply binary64_one. }
      setoid_replace (y - x) with 0 by (rewrite Ex, Ey; ring).
      apply Qlt_le_weak. apply two_pos. }
  assert (E2 : Qabs (binary64 (y * 100) - y * 100) <= 2 ^ (-47)).
  { apply (binary64_error (y * 100) 7); [lra | | lia].
    change (2 ^ 7) with 128. lra. }
  assert (Ed : binary64 (y * 100) - 100 * inject_Z r / inject_Z t
               == (binary64 (y * 100) - y * 100) + 100 * (y - x)).
  { unfold x. field. pose proof (inject_Z_pos t Ht). lra. }
  rewrite Ed.
  eapply Qle_trans; [apply Qabs_triangle|].
  rewrite Qabs_Qmult. change (Qabs 100) with 100.
  assert (P1 : 2 ^ (-46) == 2 * 2 ^ (-47)) by reflexivity.
  assert (P2 : 2 ^ (-47) == 128 * 2 ^ (-54)) by reflexivity.
  pose proof (two_pos (-54)) as P3.
  set (a := Qabs (binary64 (y * 100) - y * 100)) in *.
  set (b := Qabs (y - x)) in *.
  lra.
Qed.

(** Below [2 ^ 53] records the float is 100 for equal counts only, and 0
    for no record read only. *)
Lemma percentage_hundred (r t : Z) :
  (0 <= r <= t)%Z -> (0 < t < 2 ^ 53)%Z ->
  (binary64 (binary64 (inject_Z r / inject_Z t) * 100) == 100 <-> r = t).
Proof.
  intros Hr [Ht Hbig]. pose proof (inject_Z_pos t Ht) as Hpos.
  destruct (quotient_bounds r t Hr Ht) as [Hx0 Hx1].
  split.
  - intros H. destruct (Z.eq_dec r t) as [E|E]; [exact E|]. exfalso.
    assert (Hx : inject_Z r / inject_Z t <= 1 - 2 ^ (-53)).
    { apply Qle_shift_div_r; [exact Hpos|].
      assert (H1 : inject_Z r + 1 <= inject_Z t).
      { change 1 with (inject_Z 1). rewrite <- inject_Z_plus.
        rewrite <- Zle_Qle. lia. }
      assert (H2 : inject_Z t <= 9007199254740992).
      { change 9007199254740992 with (inject_Z (2 ^ 53)).
        rewrite <- Zle_Qle. lia. }
      change (2 ^ (-53)) with (1 # 9007199254740992). lra. }
    assert (Hy : binary64 (inject_Z r / inject_Z t) <= 1 - 2 ^ (-53)).
    { apply (Qle_eq_r _ (binary64 (1 - 2 ^ (-53))));
        [|exact binary64_below_one].
      apply binary64_mono; assumption. }
    destruct (float_quotient_bounds r t Hr Ht) as [Hy0 _].
    set (y := binary64 (inject_Z r / inject_Z t)) in *.
    assert (Hp : binary64 (y * 100) <= 100 - 2 ^ (-46)).
    { apply (Qle_eq_r _ (binary64 ((1 - 2 ^ (-53)) * 100)));
        [|exact binary64_below_hundred].
      apply binary64_mono; lra. }
    pose proof (two_pos (-46)). lra.
  - intros ->.
    assert (Ex : inject_Z t / inject_Z t == 1) by (field; lra).
    rewrite (binary64_compat (binary64 (inject_Z t / inject_Z t) * 100) 100).
    + apply binary64_hundred.
    + apply Qmult_le_0_compat; [apply binary64_nonneg; lra | discriminate].
    + rewrite (binary64_compat _ 1 Hx0 Ex), binary64_one. reflexivity.
Qed.

Lemma percentage_zero (r t : Z) :
  (0 <= r <= t)%Z -> (0 < t < 2 ^ 53)%Z ->
  (binary64 (binary64 (inject_Z r / inject_Z t) * 100) == 0 <-> r = 0%Z).
Proof.
  intros Hr [Ht Hbig]. pose proof (inject_Z_pos t Ht) as Hpos.
  destruct (quotient_bounds r t Hr Ht) as [Hx0 Hx1].
  split.
  - intros H. destruct (Z.eq_dec r 0) as [E|E]; [exact E|]. exfalso.
    assert (Hx : 2 ^ (-53) <= inject_Z r / inject_Z t).
    { apply Qle_shift_div_l; [exact Hpos|].
      assert (H1 : 1 <= inject_Z r).
      { change 1 with (inject_Z 1). rewrite <- Zle_Qle. lia. }
      assert (H2 : inject_Z t <= 9007199254740992).
      { change 9007199254740992 with (inject_Z (2 ^ 53)).
        rewrite <- Zle_Qle. lia. }
      change (2 ^ (-53)) with (1 # 9007199254740992). lra. }
    assert (Hy : 2 ^ (-53) <= binary64 (inject_Z r / inject_Z t)).
    { apply (Qle_eq_l _ (binary64 (2 ^ (-53))));
        [symmetry; exact binary64_small|].
      apply binary64_mono; [|exact Hx].
      apply Qlt_le_weak. apply two_pos. }
    set (y := binary64 (inject_Z r / inject_Z t)) in *.
    pose proof (two_pos (-53)) as Hp.
    assert (Hz : binary64 (2 ^ (-53) * 100) <= binary64 (y * 100)).
    { apply binary64_mono; lra. }
    pose proof binary64_small_hundred. lra.
  - intros ->.
    assert (Ex : inject_Z 0 / inject_Z t == 0).
    { unfold Qdiv. change (inject_Z 0) with 0. ring. }
    rewrite (binary64_zero _ Ex).
    rewrite binary64_zero; [reflexivity | ring].
Qed.

(** At small counts the floats of the machine give the same values: 25 and
    50, and the float next above 28 for seven of twenty-five. *)
Example percentage_binary64_samples :
  (exists x, float_value (percentage_binary64 1 4) = Some x /\ x == 25)
  /\ (exists x, float_value (percentage_binary64 1 2) = Some x /\ x == 50)
  /\ (exists x, float_value (percentage_binary64 7 25) = Some x
                 /\ x == binary64 (binary64 (7 / 25) * 100)
                 /\ x == 28 + 2 ^ (-48))
  /\ (exists x, float_value (percentage_binary64 1 3) = Some x
                 /\ x == binary64 (binary64 (1 / 3) * 100)).
Proof.
  repeat split; eexists; repeat split;
    try (vm_compute; reflexivity).
Qed.

Local Close Scope Q_scope.

(** C6 (as the code has it).  [display_statistics] returns the number of
    records and the percentage of records whose read flag is set, computed
    in floats: the quotient of the two counts rounded to binary64, times 100,
    rounded again, which is 100 * read / total up to [2 ^ (-46)] and not
    always that number.  There is no record: (0, 0).  Four records of which
    one is read: (4, 25).  The state is left as it was. *)
Theorem display_statistics_value (m : manager) :
  let total := Z.of_nat (List.length (library m)) in
  let read_count := Z.of_nat (List.length (filter read (library m))) in
  exists percent,
    display_statistics m = (Ret (total, percent), m)
    /\ ((0 < total)%Z ->
        percent
        = binary64 (binary64 (inject_Z read_count / inject_Z total) * 100)
        /\ (Qabs (percent - 100 * inject_Z read_count / inject_Z total)
            <= 2 ^ (-46))%Q)
    /\ (total = 0%Z -> percent = 0%Q)
    /\ (library m = [] -> (total, percent) = (0%Z, 0%Q))
    /\ (total = 4%Z -> read_count = 1%Z -> (percent == 25)%Q).
Proof.
  intros total read_count. rewrite display_statistics_run.
  fold total. eexists. split; [reflexivity|].
  pose proof (count_read_bounds (library m)) as Hb.
  rewrite count_read_filter in *. fold read_count in Hb |- *. fold total in Hb.
  split; [|split; [|split]].
  - intros Hpos. apply Z.ltb_lt in Hpos as E. rewrite E.
    split; [reflexivity|]. apply percentage_error; assumption.
  - intros ->. reflexivity.
  - intros Hnil. subst total. rewrite Hnil. reflexivity.
  - intros -> ->. vm_compute. reflexivity.
Qed.

(** C9.  The division of [display_statistics] is only reached with a
    non-zero divisor: the call returns a pair for every library, never
    raising [ZeroDivisionError], and the percentage lies from 0 to 100. *)
Theorem display_statistics_total (m : manager) :
  exists total percent,
    display_statistics m = (Ret (total, percent), m)
    /\ (0 <= percent)%Q /\ (percent <= 100)%Q.
Proof.
  rewrite display_statistics_run.
  eexists. eexists. split; [reflexivity|].
  destruct (0 <? Z.of_nat (List.length (library m)))%Z eqn:E.
  - apply Z.ltb_lt in E.
    apply percentage_range; [apply count_read_bounds | exact E].
  - split; [apply Qle_refl | discriminate].
Qed.

(* ------------------------------------------------------------------ *)
(** ** String literals: [scanstring] undoes [encode_basestring] *)

(** The piece that the scanner reads back from the escaped form of [c]. *)
Lemma scan_escape_char (c : ascii) (r : string) :
  exists p,
    scan_pieces (escape_char c ++ r)
    = match scan_pieces r with
      | Some (ps, rest) => Some (p :: ps, rest)
      | None => None
      end
    /\ forall ps, join_pieces (p :: ps) = String c (join_pieces ps).
Proof.
  destruct c as [[] [] [] [] [] [] [] []];
    (eexists; split; [reflexivity|]; intros ps; try reflexivity;
     destruct ps as [|[d|n] ps]; reflexivity).
Qed.

Lemma scan_escape (s rest : string) :
  exists ps,
    scan_pieces (escape s ++ String dquote rest) = Some (ps, rest)
    /\ join_pieces ps = s.
Proof.
  induction s as [|c s (ps & Hscan & Hjoin)]; simpl.
  - exists []. split; reflexivity.
  - destruct (scan_escape_char c (escape s ++ String dquote rest))
      as (p & Hp & Hj).
    exists (p :: ps). rewrite append_assoc, Hp, Hscan, Hj, Hjoin.
    split; reflexivity.
Qed.

Lemma scan_string_escape (s rest : string) :
  scan_string (escape s ++ String dquote rest) = Some (s, rest).
Proof.
  unfold scan_string.
  destruct (scan_escape s rest) as (ps & -> & ->). reflexivity.
Qed.

(* ------------------------------------------------------------------ *)
(** ** Integers: [NUMBER_RE] and [int] undo [int.__repr__] *)

Lemma scan_digits_print (d : uint) (rest : string) :
  ends_number rest ->
  scan_digits (NilEmpty.string_of_uint d ++ rest) = (d, rest).
Proof.
  intros Hrest.
  induction d as [|d IH|d IH|d IH|d IH|d IH|d IH|d IH|d IH|d IH|d IH];
    simpl; try (rewrite IH; reflexivity).
  destruct rest as [|c r]; [reflexivity|].
  simpl. destruct Hrest as (-> & _). reflexivity.
Qed.

Lemma number_tail_int (negative : bool) (d : uint) (rest : string) :
  ends_number rest -> nb_digits d <= int_max_str_digits ->
  number_tail negative d rest
  = Ret (JInt (if negative then - Z.of_uint d else Z.of_uint d), rest).
Proof.
  intros Hrest Hlen. unfold number_tail.
  assert (Hfrac : scan_frac rest = (EmptyString, rest)).
  { destruct rest as [|c r]; [reflexivity|].
    destruct Hrest as (_ & Hdot & _).
    unfold scan_frac.
    destruct c as [[] [] [] [] [] [] [] []]; try reflexivity.
    congruence. }
  assert (Hexp : scan_exp rest = (EmptyString, rest)).
  { destruct rest as [|c r]; [reflexivity|].
    destruct Hrest as (_ & _ & He & HE).
    unfold scan_exp.
    destruct c as [[] [] [] [] [] [] [] []]; try reflexivity; congruence. }
  rewrite Hfrac, Hexp. apply Nat.leb_le in Hlen. rewrite Hlen. reflexivity.
Qed.

(** The decimal digits of a positive number start with a non-zero digit. *)
Lemma to_uint_head (p : positive) :
  match Pos.to_uint p with
  | Nil | D0 _ => False
  | _ => True
  end.
Proof.
  pose proof (DecimalPos.Unsigned.to_uint_nonzero p) as Hnz.
  assert (Hnorm : unorm (Pos.to_uint p) = Pos.to_uint p).
  { rewrite <- (DecimalPos.Unsigned.to_of (Pos.to_uint p)).
    rewrite DecimalPos.Unsigned.of_to. reflexivity. }
  destruct (Pos.to_uint p) as [|d|d|d|d|d|d|d|d|d|d] eqn:E; try exact I.
  - apply (DecimalPos.Unsigned.to_uint_nonnil p). exact E.
  - rewrite DecimalFacts.unorm_D0 in Hnorm.
    destruct (uint_eq_dec d Nil) as [->|Hd]; [apply Hnz; reflexivity|].
    pose proof (DecimalFacts.nb_digits_unorm d Hd) as Hlen.
    rewrite Hnorm in Hlen. simpl in Hlen. lia.
Qed.

(** The text after the digits of a positive number, when the digits are
    followed by a character that cannot continue the number. *)
Lemma match_number_digits (negative : bool) (p : positive) (rest : string) :
  ends_number rest -> nb_digits (Pos.to_uint p) <= int_max_str_digits ->
  match_number ((if negative then "-" else "")
                ++ NilEmpty.string_of_uint (Pos.to_uint p) ++ rest)
  = Some (Ret (JInt (if negative then Z.neg p else Z.pos p), rest)).
Proof.
  intros Hrest Hlen.
  assert (Hval : Z.of_uint (Pos.to_uint p) = Z.pos p).
  { unfold Z.of_uint. rewrite DecimalPos.Unsigned.of_to. reflexivity. }
  pose proof (to_uint_head p) as Hhead.
  destruct (Pos.to_uint p) as [|d|d|d|d|d|d|d|d|d|d] eqn:E;
    try contradiction;
    destruct negative; unfold match_number; cbn;
    rewrite (scan_digits_print d rest Hrest), number_tail_int
      by (exact Hrest || exact Hlen);
    rewrite Hval; reflexivity.
Qed.

Lemma match_number_print (z : Z) (rest : string) :
  ends_number rest -> int_digits z <= int_max_str_digits ->
  match_number (dump_int z ++ rest) = Some (Ret (JInt z, rest)).
Proof.
  intros Hrest Hlen. destruct z as [|p|p].
  - unfold match_number. cbn -[number_tail].
    rewrite number_tail_int by (exact Hrest || (cbn; unfold int_max_str_digits; lia)).
    reflexivity.
  - unfold int_digits, Z.to_int in Hlen.
    unfold dump_int, Z.to_int, NilZero.string_of_int, NilZero.string_of_uint.
    pose proof (to_uint_head p) as Hhead.
    pose proof (match_number_digits false p rest Hrest Hlen) as H.
    destruct (Pos.to_uint p); try contradiction; exact H.
  - unfold int_digits, Z.to_int in Hlen.
    unfold dump_int, Z.to_int, NilZero.string_of_int, NilZero.string_of_uint.
    pose proof (to_uint_head p) as Hhead.
    pose proof (match_number_digits true p rest Hrest Hlen) as H.
    destruct (Pos.to_uint p); try contradiction; exact H.
Qed.

(** The first character of a printed integer is a digit or the minus sign,
    so [_scan_once] reaches the number pattern. *)
Lemma scan_atom_print (z : Z) (rest : string) :
  ends_number rest -> int_digits z <= int_max_str_digits ->
  scan_atom (dump_int z ++ rest) = Ret (JInt z, rest).
Proof.
  intros Hrest Hlen. unfold scan_atom.
  rewrite (match_number_print z rest Hrest Hlen).
  assert (Hfirst : exists c r, (dump_int z ++ rest)%string = String c r
                               /\ (c = "-"%char \/ digit_of c <> None)).
  { destruct z as [|p|p].
    - exists "0"%char. eexists. split; [reflexivity|]. right. discriminate.
    - unfold dump_int, Z.to_int, NilZero.string_of_int, NilZero.string_of_uint.
      pose proof (to_uint_head p) as Hhead.
      destruct (Pos.to_uint p); try contradiction;
        (eexists; eexists; split; [reflexivity|]; right; discriminate).
    - exists "-"%char. eexists. split; [reflexivity|]. left. reflexivity. }
  destruct Hfirst as (c & r & -> & Hc).
  destruct c as [[] [] [] [] [] [] [] []];
    try reflexivity; destruct Hc as [Hc|Hc]; try discriminate;
    exfalso; apply Hc; reflexivity.
Qed.

(* ------------------------------------------------------------------ *)
(** ** Records: [JSONObject] undoes [_iterencode_dict] *)

Lemma scan_once_quoted (k : nat) (s rest : string) :
  scan_once (S k) (String dquote (escape s ++ String dquote rest))
  = Ret (JStr s, rest).
Proof. cbn -[scan_string]. rewrite scan_string_escape. reflexivity. Qed.

Lemma dump_int_head (z : Z) (rest : string) :
  exists c r, (dump_int z ++ rest)%string = String c r
              /\ (c = "-"%char \/ digit_of c <> None).
Proof.
  destruct z as [|p|p].
  - exists "0"%char. eexists. split; [reflexivity|]. right. discriminate.
  - unfold dump_int, Z.to_int, NilZero.string_of_int, NilZero.string_of_uint.
    pose proof (to_uint_head p) as Hhead.
    destruct (Pos.to_uint p); try contradiction;
      (eexists; eexists; split; [reflexivity|]; right; discriminate).
  - exists "-"%char. eexists. split; [reflexivity|]. left. reflexivity.
Qed.

Lemma skip_ws_int (z : Z) (rest : string) :
  skip_ws (dump_int z ++ rest) = (dump_int z ++ rest)%string.
Proof.
  destruct (dump_int_head z rest) as (c & r & -> & Hc).
  destruct c as [[] [] [] [] [] [] [] []];
    try reflexivity; destruct Hc as [Hc|Hc]; try discriminate;
    exfalso; apply Hc; reflexivity.
Qed.

Lemma scan_once_int (k : nat) (z : Z) (rest : string) :
  ends_number rest -> int_digits z <= int_max_str_digits ->
  scan_once (S k) (dump_int z ++ rest) = Ret (JInt z, rest).
Proof.
  intros Hrest Hlen.
  pose proof (scan_atom_print z rest Hrest Hlen) as Hatom.
  destruct (dump_int_head z rest) as (c & r & E & Hc).
  rewrite E in *.
  destruct c as [[] [] [] [] [] [] [] []];
    try exact Hatom; destruct Hc as [Hc|Hc]; try discriminate;
    exfalso; apply Hc; reflexivity.
Qed.

(** One step of the loop of [JSONObject]: a key, the colon, a value, and
    then either the closing brace or a comma and the next key. *)
Lemma scan_members_eq (k : nat) (key r : string) :
  scan_members (S k) (String dquote (escape key ++ String dquote r))
  = match skip_ws r with
    | EmptyString => Raise JSONDecodeError
    | String c2 r2 =>
        if (code c2 =? 58)%N then
          match scan_once k (skip_ws r2) with
          | Raise e => Raise e
          | Ret (v, r3) =>
              match skip_ws r3 with
              | EmptyString => Raise JSONDecodeError
              | String c3 r4 =>
                  if (code c3 =? 125)%N then Ret ([(key, v)], r4)
                  else if (code c3 =? 44)%N then
                    match scan_members k (skip_ws r4) with
                    | Ret (ms, rest) => Ret ((key, v) :: ms, rest)
                    | Raise e => Raise e
                    end
                  else Raise JSONDecodeError
              end
          end
        else Raise JSONDecodeError
    end.
Proof. cbn -[scan_string scan_once]. rewrite scan_string_escape. reflexivity. Qed.

Lemma scan_once_object (k : nat) (r : string) :
  scan_once (S k) (String "{"%char r)
  = match skip_ws r with
    | EmptyString => Raise JSONDecodeError
    | String c1 rest =>
        if (code c1 =? 125)%N then Ret (JDict [], rest)
        else
          match scan_members k (String c1 rest) with
          | Ret (pairs, rest') => Ret (JDict (dict_of_pairs pairs), rest')
          | Raise e => Raise e
          end
    end.
Proof. reflexivity. Qed.

Ltac scan_step :=
  first
    [ rewrite scan_members_eq
    | rewrite scan_once_quoted
    | rewrite skip_ws_int
    | rewrite scan_once_int
        by (assumption || (cbn; repeat split; discriminate)) ];
  cbn -[scan_once scan_members escape dump_int].

Lemma scan_book (k : nat) (b : book) (rest : string) :
  int_digits (year b) <= int_max_str_digits ->
  scan_once (7 + k) (dump_book 1 b ++ rest) = Ret (of_book b, rest).
Proof.
  destruct b as [t a y g r]. cbn [year]. intros Hlen.
  unfold dump_book, dump_key, dump_str, newline_indent.
  cbn [title author year genre read].
  rewrite !append_assoc.
  destruct r; cbn -[scan_once scan_members escape dump_int];
    rewrite scan_once_object;
    cbn -[scan_once scan_members escape dump_int];
    repeat scan_step; reflexivity.
Qed.

(* ------------------------------------------------------------------ *)
(** ** The library: [JSONArray] undoes [_iterencode_list] *)

Lemma scan_items_eq (k : nat) (s : string) :
  scan_items (S k) s
  = match scan_once k s with
    | Raise e => Raise e
    | Ret (v, r) =>
        match skip_ws r with
        | EmptyString => Raise JSONDecodeError
        | String c r1 =>
            if (code c =? 93)%N then Ret ([v], r1)
            else if (code c =? 44)%N then
              match scan_items k (skip_ws r1) with
              | Ret (vs, rest) => Ret (v :: vs, rest)
              | Raise e => Raise e
              end
            else Raise JSONDecodeError
        end
    end.
Proof. reflexivity. Qed.

Lemma dump_book_head (b : book) (rest : string) :
  exists r, (dump_book 1 b ++ rest)%string = String "{"%char r.
Proof. eexists. reflexivity. Qed.

(** The items of the list, from the first record to the closing bracket. *)
Lemma scan_items_dump (bs : list book) :
  forall (b : book) (k : nat) (rest : string),
    int_digits (year b) <= int_max_str_digits ->
    Forall (fun b' => int_digits (year b') <= int_max_str_digits) bs ->
    scan_items (8 + List.length bs + k)
      (dump_book 1 b ++ dump_more bs ++ newline_indent 0 ++ "]" ++ rest)
    = Ret (map of_book (b :: bs), rest).
Proof.
  induction bs as [|b' bs IH]; intros b k rest Hb Hbs.
  - change (8 + List.length (@nil book) + k) with (S (7 + k)).
    rewrite scan_items_eq, scan_book by exact Hb. reflexivity.
  - change (8 + List.length (b' :: bs) + k)
      with (S (7 + S (List.length bs + k))).
    rewrite scan_items_eq, scan_book by exact Hb.
    cbn [dump_more]. rewrite !append_assoc.
    replace (7 + S (List.length bs + k)) with (8 + List.length bs + k) by lia.
    inversion Hbs as [|? ? Hb' Hbs']; subst.
    specialize (IH b' k rest Hb' Hbs').
    destruct (dump_book_head b'
                (dump_more bs ++ newline_indent 0 ++ "]" ++ rest)) as (r & E).
    rewrite E in IH.
    cbn -[scan_items dump_book Nat.add] in E |- *. rewrite E.
    cbn -[scan_items Nat.add]. rewrite IH. reflexivity.
Qed.

Lemma dump_more_length (bs : list book) :
  List.length bs <= String.length (dump_more bs).
Proof.
  induction bs as [|b bs IH]; simpl; [lia|].
  rewrite !length_append. lia.
Qed.

Lemma dump_book_length (b : book) : 9 <= String.length (dump_book 1 b).
Proof.
  unfold dump_book. cbn [String.length append newline_indent nl indent].
  repeat (rewrite ?length_append; cbn [String.length append]).
  lia.
Qed.

(** [json.loads] reads back what [json.dump] wrote for a library, when no
    year has more digits than [int] converts. *)
Lemma json_loads_dump (l : list book) :
  Forall (fun b => int_digits (year b) <= int_max_str_digits) l ->
  json_loads (json_dump l) = Ret (of_catalog l).
Proof.
  intros Hl.
  destruct Hl as [|b bs Hb Hbs]; [reflexivity|].
  unfold json_loads, json_dump.
  assert (Hlen : 9 + List.length bs
                 <= 2 * String.length ("[" ++ newline_indent 1 ++ dump_book 1 b
                                       ++ dump_more bs ++ newline_indent 0 ++ "]")).
  { rewrite !length_append.
    pose proof (dump_book_length b). pose proof (dump_more_length bs).
    simpl String.length. lia. }
  remember (2 * String.length _) as n eqn:En. clear En.
  replace (S n) with (S (8 + List.length bs + (n - (8 + List.length bs))))
    by lia.
  cbn -[scan_items dump_book Nat.add Nat.sub].
  destruct (dump_book_head b (dump_more bs ++ String newline "]")) as (r & E).
  pose proof (scan_items_dump bs b (n - (8 + List.length bs)) EmptyString
                Hb Hbs)
    as Hitems.
  cbn -[scan_items dump_book Nat.add Nat.sub] in Hitems, E.
  rewrite E in *.
  cbn -[scan_items Nat.add Nat.sub]. rewrite Hitems. reflexivity.
Qed.

(* ------------------------------------------------------------------ *)
(** ** [load_library] and [save_library] *)

Lemma as_catalog_of_catalog (l : list book) : as_catalog (of_catalog l) = Some l.
Proof.
  unfold of_catalog, as_catalog.
  induction l as [|[t a y g r] l IH]; [reflexivity|].
  cbn [map as_books]. rewrite IH. reflexivity.
Qed.

Lemma writable_years (l : list book) :
  writable l -> Forall (fun b => int_digits (year b) <= int_max_str_digits) l.
Proof.
  unfold writable. rewrite !Forall_forall. intros H b Hb.
  apply H in Hb. destruct Hb as [_ Hb]. exact Hb.
Qed.

(** Every way [load_library] can end: the empty list for a missing file and
    for text on which the reader raises [JSONDecodeError], the value read for
    text that is JSON, and an exception for bytes that do not decode and for
    whatever else the reader raises. *)
Lemma load_library_run (m : manager) :
  load_library m
  = (match disk m with
     | None => Ret (JList [])
     | Some bytes =>
         if utf8_valid bytes then
           match json_loads bytes with
           | Ret v => Ret v
           | Raise e => if load_handles e then Ret (JList []) else Raise e
           end
         else Raise UnicodeDecodeError
     end, m).
Proof.
  destruct m as [l [bytes|] tr]; [|reflexivity].
  cbv beta iota delta
    [load_library bind path_exists try_except json_load read_text disk negb].
  destruct (utf8_valid bytes); [|reflexivity].
  destruct (json_loads bytes) as [v|e]; [reflexivity|].
  destruct (load_handles e); reflexivity.
Qed.

(** A manager, whatever it holds, loads from the file of a library that
    could be written the library that was written. *)
Lemma load_library_saved (l held : list book) (tr : list event) :
  writable l ->
  load_library (mk_manager held (Some (json_dump l)) tr)
  = (Ret (of_catalog l), mk_manager held (Some (json_dump l)) tr).
Proof.
  intros Hw. rewrite load_library_run. cbn [disk].
  rewrite (json_dump_valid _ (writable_text _ Hw)).
  rewrite (json_loads_dump _ (writable_years _ Hw)). reflexivity.
Qed.

(** C8 (as the code has it).  When the library is one that the file can
    take, [save_library] writes it in full, and [load_library], called by a
    manager that holds any other library over the file written, returns the
    library that was saved: the list of the records' dicts, key for key and
    value for value, which reads back as the same records. *)
Theorem save_then_load_round_trip (m : manager) (held : list book)
  (tr : list event) :
  writable (library m) ->
  let saved := snd (save_library m) in
  let fresh := mk_manager held (disk saved) tr in
  fst (save_library m) = Ret tt
  /\ load_library fresh = (Ret (of_catalog (library m)), fresh)
  /\ as_catalog (of_catalog (library m)) = Some (library m).
Proof.
  intros Hw saved fresh. subst fresh saved.
  rewrite (save_library_ok m Hw). cbn [fst snd disk].
  split; [reflexivity|]. split.
  - apply load_library_saved. exact Hw.
  - apply as_catalog_of_catalog.
Qed.

(** C7 (where the code departs from it).  A file whose bytes are not UTF-8,
    here a list with the one title "Café" stored in Latin-1, is present but
    cannot be read: [load_library] does not return the empty list, it lets
    [UnicodeDecodeError] through, which its [except] clause does not name. *)
Theorem load_library_raises_on_undecodable_file :
  let bytes := ("[" ++ dq ++ "Caf" ++ String "233"%char dq ++ "]")%string in
  let m := empty_manager (Some bytes) in
  utf8_valid bytes = false
  /\ load_handles UnicodeDecodeError = false
  /\ load_library m = (Raise UnicodeDecodeError, m).
Proof.
  cbv zeta. repeat split.
Qed.

(* ------------------------------------------------------------------ *)
(** ** The bound on nested calls is never what makes [json.loads] fail *)

Lemma skip_ws_length (s : string) :
  String.length (skip_ws s) <= String.length s.
Proof.
  induction s as [|c s IH]; simpl; [lia|].
  destruct (is_ws c); simpl; lia.
Qed.

Lemma scan_pieces_length (n : nat) :
  forall s ps r,
    String.length s <= n -> scan_pieces s = Some (ps, r) ->
    String.length r < String.length s.
Proof.
  induction n as [|n IH]; intros s ps r Hn H.
  - destruct s; [discriminate|simpl in Hn; lia].
  - destruct s as [|c s]; [discriminate|].
    cbn [scan_pieces] in H. simpl in Hn.
    destruct (code c =? 34)%N.
    { inversion H; subst. simpl. lia. }
    destruct (code c =? 92)%N.
    { destruct s as [|e s1]; [discriminate|].
      destruct (code e =? 117)%N.
      - destruct s1 as [|h1 [|h2 [|h3 [|h4 s2]]]]; try discriminate.
        destruct (hex4 h1 h2 h3 h4); [|discriminate].
        destruct (scan_pieces s2) as [[ps' r']|] eqn:E; [|discriminate].
        inversion H; subst.
        apply IH in E; simpl in *; lia.
      - destruct (simple_escape e); [|discriminate].
        destruct (scan_pieces s1) as [[ps' r']|] eqn:E; [|discriminate].
        inversion H; subst.
        apply IH in E; simpl in *; lia. }
    destruct (code c <? 32)%N; [discriminate|].
    destruct (scan_pieces s) as [[ps' r']|] eqn:E; [|discriminate].
    inversion H; subst.
    apply IH in E; simpl in *; lia.
Qed.

Lemma scan_string_length (s str r : string) :
  scan_string s = Some (str, r) -> String.length r < String.length s.
Proof.
  unfold scan_string. intros H.
  destruct (scan_pieces s) as [[ps r']|] eqn:E; [|discriminate].
  inversion H; subst.
  exact (scan_pieces_length _ _ _ _ (le_n _) E).
Qed.

Lemma scan_digits_length (s : string) :
  String.length (snd (scan_digits s)) <= String.length s.
Proof.
  induction s as [|c s IH]; simpl; [lia|].
  destruct (digit_of c); [|simpl; lia].
  destruct (scan_digits s). simpl in *. lia.
Qed.

Lemma scan_frac_length (s : string) :
  String.length (snd (scan_frac s)) <= String.length s.
Proof.
  destruct s as [|c r]; simpl; [lia|].
  destruct (code c =? 46)%N; [|simpl; lia].
  pose proof (scan_digits_length r) as H.
  destruct (scan_digits r) as [[] rest]; simpl in *; lia.
Qed.

Lemma scan_exp_length (s : string) :
  String.length (snd (scan_exp s)) <= String.length s.
Proof.
  destruct s as [|e r]; simpl; [lia|].
  destruct ((code e =? 101) || (code e =? 69))%N; [|simpl; lia].
  destruct r as [|g r'].
  - simpl. lia.
  - destruct ((code g =? 45) || (code g =? 43))%N.
    + pose proof (scan_digits_length r') as H.
      destruct (scan_digits r') as [[] rest]; simpl in *; lia.
    + pose proof (scan_digits_length (String g r')) as H.
      destruct (scan_digits (String g r')) as [[] rest]; simpl in *; lia.
Qed.

Lemma number_tail_length (negative : bool) (d : uint) (s : string) (v : json)
  (r : string) :
  number_tail negative d s = Ret (v, r) -> String.length r <= String.length s.
Proof.
  unfold number_tail.
  pose proof (scan_frac_length s) as Hf.
  destruct (scan_frac s) as [frac r1].
  pose proof (scan_exp_length r1) as He.
  destruct (scan_exp r1) as [exp r2].
  simpl in *. destruct frac, exp;
    try destruct (nb_digits d <=? int_max_str_digits)%nat;
    intros H; inversion H; subst; lia.
Qed.

Lemma match_unsigned_length (negative : bool) (s : string) (v : json)
  (r : string) :
  match_unsigned negative s = Some (Ret (v, r)) ->
  String.length r < String.length s.
Proof.
  destruct s as [|c s]; [discriminate|]. cbn [match_unsigned].
  destruct (code c =? 48)%N.
  - intros H. inversion H as [E].
    apply number_tail_length in E. simpl. lia.
  - destruct (digit_of c) as [d|]; [|discriminate].
    pose proof (scan_digits_length s) as Hd.
    destruct (scan_digits s) as [ds rest].
    intros H. inversion H as [E].
    apply number_tail_length in E. simpl in *. lia.
Qed.

Lemma match_number_length (s : string) (v : json) (r : string) :
  match_number s = Some (Ret (v, r)) -> String.length r < String.length s.
Proof.
  destruct s as [|c s]; [discriminate|]. cbn [match_number].
  destruct (code c =? 45)%N; intros H;
    apply match_unsigned_length in H; simpl in *; lia.
Qed.

Lemma after_length (word s r : string) :
  after word s = Some r ->
  String.length s = String.length word + String.length r.
Proof.
  revert s. induction word as [|a w IH]; intros s H.
  - inversion H; subst. reflexivity.
  - destruct s as [|b s]; [discriminate|]. simpl in H.
    destruct (Ascii.eqb a b); [|discriminate].
    apply IH in H. simpl. lia.
Qed.

Lemma scan_atom_length (s : string) (v : json) (r : string) :
  scan_atom s = Ret (v, r) -> String.length r < String.length s.
Proof.
  unfold scan_atom.
  destruct (after "null" s) eqn:E1;
    [intros H; inversion H; subst; apply after_length in E1; simpl in E1; lia|].
  destruct (after "true" s) eqn:E2;
    [intros H; inversion H; subst; apply after_length in E2; simpl in E2; lia|].
  destruct (after "false" s) eqn:E3;
    [intros H; inversion H; subst; apply after_length in E3; simpl in E3; lia|].
  destruct (match_number s) as [[[v' r']|e']|] eqn:E4;
    [intros H; inversion H; subst; exact (match_number_length _ _ _ E4)
    |discriminate|].
  destruct (after "NaN" s) eqn:E5;
    [intros H; inversion H; subst; apply after_length in E5; simpl in E5; lia|].
  destruct (after "Infinity" s) eqn:E6;
    [intros H; inversion H; subst; apply after_length in E6; simpl in E6; lia|].
  destruct (after "-Infinity" s) eqn:E7;
    [intros H; inversion H; subst; apply after_length in E7; simpl in E7; lia|].
  discriminate.
Qed.

Lemma scan_once_S (k : nat) (c : ascii) (r : string) :
  scan_once (S k) (String c r)
  = if (code c =? 34)%N then
      match scan_string r with
      | Some (str, rest) => Ret (JStr str, rest)
      | None => Raise JSONDecodeError
      end
    else if (code c =? 123)%N then
      match skip_ws r with
      | EmptyString => Raise JSONDecodeError
      | String c1 rest =>
          if (code c1 =? 125)%N then Ret (JDict [], rest)
          else
            match scan_members k (String c1 rest) with
            | Ret (pairs, rest') => Ret (JDict (dict_of_pairs pairs), rest')
            | Raise e => Raise e
            end
      end
    else if (code c =? 91)%N then
      match skip_ws r with
      | EmptyString => Raise JSONDecodeError
      | String c1 rest =>
          if (code c1 =? 93)%N then Ret (JList [], rest)
          else
            match scan_items k (String c1 rest) with
            | Ret (vs, rest') => Ret (JList vs, rest')
            | Raise e => Raise e
            end
      end
    else scan_atom (String c r).
Proof. reflexivity. Qed.

Lemma scan_members_S (k : nat) (c : ascii) (r : string) :
  scan_members (S k) (String c r)
  = if (code c =? 34)%N then
      match scan_string r with
      | None => Raise JSONDecodeError
      | Some (key, r1) =>
          match skip_ws r1 with
          | EmptyString => Raise JSONDecodeError
          | String c2 r2 =>
              if (code c2 =? 58)%N then
                match scan_once k (skip_ws r2) with
                | Raise e => Raise e
                | Ret (v, r3) =>
                    match skip_ws r3 with
                    | EmptyString => Raise JSONDecodeError
                    | String c3 r4 =>
                        if (code c3 =? 125)%N then Ret ([(key, v)], r4)
                        else if (code c3 =? 44)%N then
                          match scan_members k (skip_ws r4) with
                          | Ret (ms, rest) => Ret ((key, v) :: ms, rest)
                          | Raise e => Raise e
                          end
                        else Raise JSONDecodeError
                    end
                end
              else Raise JSONDecodeError
          end
      end
    else Raise JSONDecodeError.
Proof. reflexivity. Qed.

(** What a step of reasoning on lengths needs about the text skipped. *)
Ltac lengths :=
  repeat match goal with
         | H : skip_ws ?s = _ |- _ =>
             lazymatch goal with
             | _ : String.length (skip_ws s) <= _ |- _ => fail
             | _ => pose proof (skip_ws_length s)
             end
         end;
  repeat match goal with
         | H : skip_ws ?s = _, L : context [skip_ws ?s] |- _ =>
             rewrite H in L
         end;
  cbn [String.length] in *; lia.

Lemma scan_once_settled (k : nat) :
  settled scan_items 1 k -> settled scan_members 1 k ->
  settled scan_once 0 (S k).
Proof.
  intros Hitems Hmembers s. split.
  - intros v r H.
    destruct s as [|c s']; [discriminate|].
    rewrite scan_once_S in H.
    destruct (code c =? 34)%N eqn:E34.
    { destruct (scan_string s') as [[str rest]|] eqn:Es; [|discriminate].
      inversion H; subst. apply scan_string_length in Es as Hl.
      split; [simpl; lia|].
      intros [|m] Hm; [lia|]. rewrite scan_once_S, E34, Es. reflexivity. }
    destruct (code c =? 123)%N eqn:E123.
    { destruct (skip_ws s') as [|c1 rest] eqn:Ew; [discriminate|].
      destruct (code c1 =? 125)%N eqn:E125.
      - inversion H; subst. split; [lengths|].
        intros [|m] Hm; [lia|].
        rewrite scan_once_S, E34, E123, Ew, E125. reflexivity.
      - destruct (scan_members k (String c1 rest)) as [[pairs rest']|e] eqn:Em;
          [|discriminate].
        inversion H; subst.
        destruct (proj1 (Hmembers _) _ _ Em) as [Hl Hm'].
        split; [lengths|].
        intros [|m] Hm; [lia|].
        rewrite scan_once_S, E34, E123, Ew, E125, Hm' by lengths. reflexivity. }
    destruct (code c =? 91)%N eqn:E91.
    { destruct (skip_ws s') as [|c1 rest] eqn:Ew; [discriminate|].
      destruct (code c1 =? 93)%N eqn:E93.
      - inversion H; subst. split; [lengths|].
        intros [|m] Hm; [lia|].
        rewrite scan_once_S, E34, E123, E91, Ew, E93. reflexivity.
      - destruct (scan_items k (String c1 rest)) as [[vs rest']|e] eqn:Ei;
          [|discriminate].
        inversion H; subst.
        destruct (proj1 (Hitems _) _ _ Ei) as [Hl Hm'].
        split; [lengths|].
        intros [|m] Hm; [lia|].
        rewrite scan_once_S, E34, E123, E91, Ew, E93, Hm' by lengths.
        reflexivity. }
    apply scan_atom_length in H as Hl. split; [exact Hl|].
    intros [|m] Hm; [lia|]. rewrite scan_once_S, E34, E123, E91. exact H.
  - intros e H Hne [|m] Hm; [lia|].
    destruct s as [|c s']; [inversion H; subst; congruence|].
    rewrite scan_once_S in H |- *.
    destruct (code c =? 34)%N eqn:E34.
    { destruct (scan_string s') as [[str rest]|]; inversion H; subst; congruence. }
    destruct (code c =? 123)%N eqn:E123.
    { destruct (skip_ws s') as [|c1 rest] eqn:Ew;
        [inversion H; subst; congruence|].
      destruct (code c1 =? 125)%N eqn:E125; [discriminate|].
      destruct (scan_members k (String c1 rest)) as [[pairs rest']|e'] eqn:Em;
        [discriminate|].
      inversion H; subst.
      rewrite (proj2 (Hmembers _) _ Em Hne m) by lengths. reflexivity. }
    destruct (code c =? 91)%N eqn:E91.
    { destruct (skip_ws s') as [|c1 rest] eqn:Ew;
        [inversion H; subst; congruence|].
      destruct (code c1 =? 93)%N eqn:E93; [discriminate|].
      destruct (scan_items k (String c1 rest)) as [[vs rest']|e'] eqn:Ei;
        [discriminate|].
      inversion H; subst.
      rewrite (proj2 (Hitems _) _ Ei Hne m) by lengths. reflexivity. }
    exact H.
Qed.

Lemma scan_items_settled (k : nat) :
  settled scan_once 0 k -> settled scan_items 1 k ->
  settled scan_items 1 (S k).
Proof.
  intros Honce Hitems s. split.
  - intros vs r H.
    rewrite scan_items_eq in H.
    destruct (scan_once k s) as [[v r0]|e] eqn:Eo; [|discriminate].
    destruct (proj1 (Honce _) _ _ Eo) as [Hl0 Hm0].
    destruct (skip_ws r0) as [|c r1] eqn:Ew; [discriminate|].
    destruct (code c =? 93)%N eqn:E93.
    { inversion H; subst. split; [lengths|].
      intros [|m] Hm; [lia|].
      rewrite scan_items_eq, Hm0, Ew, E93 by lengths. reflexivity. }
    destruct (code c =? 44)%N eqn:E44; [|discriminate].
    destruct (scan_items k (skip_ws r1)) as [[vs' rest]|e] eqn:Ei;
      [|discriminate].
    inversion H; subst. destruct (proj1 (Hitems _) _ _ Ei) as [Hl1 Hm1].
    pose proof (skip_ws_length r1) as Hw1.
    split; [lengths|].
    intros [|m] Hm; [lia|].
    rewrite scan_items_eq, Hm0, Ew, E93, E44, Hm1 by lengths. reflexivity.
  - intros e H Hne [|m] Hm; [lia|].
    rewrite scan_items_eq in H |- *.
    destruct (scan_once k s) as [[v r0]|e'] eqn:Eo.
    + destruct (proj1 (Honce _) _ _ Eo) as [Hl0 Hm0].
      rewrite Hm0 by lia.
      destruct (skip_ws r0) as [|c r1] eqn:Ew; [exact H|].
      destruct (code c =? 93)%N eqn:E93; [discriminate|].
      destruct (code c =? 44)%N eqn:E44; [|exact H].
      pose proof (skip_ws_length r1) as Hw1.
      destruct (scan_items k (skip_ws r1)) as [[vs' rest]|e'] eqn:Ei;
        [discriminate|].
      inversion H; subst.
      rewrite (proj2 (Hitems _) _ Ei Hne m) by lengths. reflexivity.
    + inversion H; subst.
      rewrite (proj2 (Honce _) _ Eo Hne m) by lia. reflexivity.
Qed.

Lemma scan_members_settled (k : nat) :
  settled scan_once 0 k -> settled scan_members 1 k ->
  settled scan_members 1 (S k).
Proof.
  intros Honce Hmembers s. split.
  - intros ms r H.
    destruct s as [|c s']; [discriminate|].
    rewrite scan_members_S in H.
    destruct (code c =? 34)%N eqn:E34; [|discriminate].
    destruct (scan_string s') as [[key r1]|] eqn:Es; [|discriminate].
    apply scan_string_length in Es as Hls.
    destruct (skip_ws r1) as [|c2 r2] eqn:Ew1; [discriminate|].
    destruct (code c2 =? 58)%N eqn:E58; [|discriminate].
    destruct (scan_once k (skip_ws r2)) as [[v r3]|e] eqn:Eo; [|discriminate].
    destruct (proj1 (Honce _) _ _ Eo) as [Hl0 Hm0].
    pose proof (skip_ws_length r2) as Hw2.
    destruct (skip_ws r3) as [|c3 r4] eqn:Ew3; [discriminate|].
    destruct (code c3 =? 125)%N eqn:E125.
    { inversion H; subst. split; [lengths|].
      intros [|m] Hm; [lia|].
      rewrite scan_members_S, E34, Es, Ew1, E58, Hm0, Ew3, E125 by lengths.
      reflexivity. }
    destruct (code c3 =? 44)%N eqn:E44; [|discriminate].
    destruct (scan_members k (skip_ws r4)) as [[ms' rest]|e] eqn:Em;
      [|discriminate].
    inversion H; subst. destruct (proj1 (Hmembers _) _ _ Em) as [Hl1 Hm1].
    pose proof (skip_ws_length r4) as Hw4.
    split; [lengths|].
    intros [|m] Hm; [lia|].
    rewrite scan_members_S, E34, Es, Ew1, E58, Hm0, Ew3, E125, E44, Hm1
      by lengths.
    reflexivity.
  - intros e H Hne [|m] Hm; [lia|].
    destruct s as [|c s']; [inversion H; subst; congruence|].
    rewrite scan_members_S in H |- *.
    destruct (code c =? 34)%N eqn:E34; [|exact H].
    destruct (scan_string s') as [[key r1]|] eqn:Es; [|exact H].
    apply scan_string_length in Es as Hls.
    destruct (skip_ws r1) as [|c2 r2] eqn:Ew1; [exact H|].
    destruct (code c2 =? 58)%N eqn:E58; [|exact H].
    pose proof (skip_ws_length r2) as Hw2.
    destruct (scan_once k (skip_ws r2)) as [[v r3]|e'] eqn:Eo.
    + destruct (proj1 (Honce _) _ _ Eo) as [Hl0 Hm0].
      rewrite Hm0 by lengths.
      destruct (skip_ws r3) as [|c3 r4] eqn:Ew3; [exact H|].
      destruct (code c3 =? 125)%N eqn:E125; [discriminate|].
      destruct (code c3 =? 44)%N eqn:E44; [|exact H].
      pose proof (skip_ws_length r4) as Hw4.
      destruct (scan_members k (skip_ws r4)) as [[ms' rest]|e'] eqn:Em;
        [discriminate|].
      inversion H; subst.
      rewrite (proj2 (Hmembers _) _ Em Hne m) by lengths. reflexivity.
    + inversion H; subst.
      rewrite (proj2 (Honce _) _ Eo Hne m) by lengths. reflexivity.
Qed.

Lemma scanners_settled (n : nat) :
  settled scan_once 0 n /\ settled scan_items 1 n /\ settled scan_members 1 n.
Proof.
  induction n as [|k (Honce & Hitems & Hmembers)].
  - split; [|split]; intros s; (split; [intros v r H; discriminate H|]);
      intros e H Hne; inversion H; subst; congruence.
  - split; [|split].
    + apply scan_once_settled; assumption.
    + apply scan_items_settled; assumption.
    + apply scan_members_settled; assumption.
Qed.

(** A text that scans as one value under some bound is loaded by
    [json.loads], which bounds the calls by the length of the text, and a
    text on which the scan raises [ValueError] under some bound makes
    [json.loads] raise it: when [json_loads] answers [JSONDecodeError], no
    bound would have made the scan end otherwise. *)
Lemma json_loads_any_bound (text : string) (n : nat) (v : json) (rest : string) :
  scan_once n (skip_ws text) = Ret (v, rest) ->
  skip_ws rest = EmptyString ->
  json_loads text = Ret v.
Proof.
  intros H Hrest. unfold json_loads.
  destruct (scanners_settled n) as (Honce & _ & _).
  destruct (proj1 (Honce _) _ _ H) as [Hl Hm].
  pose proof (skip_ws_length text) as Hw.
  rewrite Hm by lia. rewrite Hrest. reflexivity.
Qed.

Lemma json_loads_any_bound_raise (text : string) (n : nat) (e : exn) :
  scan_once n (skip_ws text) = Raise e -> e <> JSONDecodeError ->
  json_loads text = Raise e.
Proof.
  intros H Hne. unfold json_loads.
  destruct (scanners_settled n) as (Honce & _ & _).
  pose proof (skip_ws_length text) as Hw.
  rewrite (proj2 (Honce _) _ H Hne) by lia. reflexivity.
Qed.

(** The reader raises nothing but [JSONDecodeError], which [load_library]
    answers with the empty list, and the [ValueError] of an integer with too
    many digits, which it lets through. *)
Lemma scan_atom_raises (s : string) (e : exn) :
  scan_atom s = Raise e -> e = JSONDecodeError \/ e = ValueError.
Proof.
  unfold scan_atom.
  destruct (after "null" s); [discriminate|].
  destruct (after "true" s); [discriminate|].
  destruct (after "false" s); [discriminate|].
  destruct (match_number s) as [[num|e']|] eqn:E.
  - discriminate.
  - intros H. inversion H; subst. right.
    assert (Htail : forall neg d r, number_tail neg d r = Raise e -> e = ValueError).
    { intros neg d r. unfold number_tail.
      destruct (scan_frac r) as [frac r1]. destruct (scan_exp r1) as [exp r2].
      destruct frac, exp;
        try destruct (nb_digits d <=? int_max_str_digits)%nat;
        intros H'; inversion H'; reflexivity. }
    assert (Huns : forall neg r, match_unsigned neg r = Some (Raise e) ->
                                 e = ValueError).
    { intros neg r. destruct r as [|c r]; [discriminate|]. cbn [match_unsigned].
      destruct (code c =? 48)%N.
      - intros H'. inversion H' as [E']. exact (Htail _ _ _ E').
      - destruct (digit_of c); [|discriminate].
        destruct (scan_digits r) as [ds rest'].
        intros H'. inversion H' as [E']. exact (Htail _ _ _ E'). }
    destruct s as [|c s]; [discriminate|]. cbn [match_number] in E.
    destruct (code c =? 45)%N; exact (Huns _ _ E).
  - destruct (after "NaN" s); [discriminate|].
    destruct (after "Infinity" s); [discriminate|].
    destruct (after "-Infinity" s); [discriminate|].
    intros H. inversion H. left. reflexivity.
Qed.

Lemma scanners_raise (n : nat) :
  (forall s e, scan_once n s = Raise e -> e = JSONDecodeError \/ e = ValueError)
  /\ (forall s e, scan_items n s = Raise e ->
                  e = JSONDecodeError \/ e = ValueError)
  /\ (forall s e, scan_members n s = Raise e ->
                  e = JSONDecodeError \/ e = ValueError).
Proof.
  induction n as [|k (Honce & Hitems & Hmembers)].
  - repeat split; intros s e H; inversion H; auto.
  - split; [|split]; intros s e H.
    + destruct s as [|c s']; [inversion H; auto|].
      rewrite scan_once_S in H.
      destruct (code c =? 34)%N.
      { destruct (scan_string s') as [[str rest]|]; inversion H; auto. }
      destruct (code c =? 123)%N.
      { destruct (skip_ws s') as [|c1 rest]; [inversion H; auto|].
        destruct (code c1 =? 125)%N; [discriminate|].
        destruct (scan_members k (String c1 rest)) as [[pairs rest']|e'] eqn:Em;
          [discriminate|].
        inversion H; subst. exact (Hmembers _ _ Em). }
      destruct (code c =? 91)%N.
      { destruct (skip_ws s') as [|c1 rest]; [inversion H; auto|].
        destruct (code c1 =? 93)%N; [discriminate|].
        destruct (scan_items k (String c1 rest)) as [[vs rest']|e'] eqn:Ei;
          [discriminate|].
        inversion H; subst. exact (Hitems _ _ Ei). }
      exact (scan_atom_raises _ _ H).
    + rewrite scan_items_eq in H.
      destruct (scan_once k s) as [[v r0]|e'] eqn:Eo.
      * destruct (skip_ws r0) as [|c r1]; [inversion H; auto|].
        destruct (code c =? 93)%N; [discriminate|].
        destruct (code c =? 44)%N; [|inversion H; auto].
        destruct (scan_items k (skip_ws r1)) as [[vs' rest]|e'] eqn:Ei;
          [discriminate|].
        inversion H; subst. exact (Hitems _ _ Ei).
      * inversion H; subst. exact (Honce _ _ Eo).
    + destruct s as [|c s']; [inversion H; auto|].
      rewrite scan_members_S in H.
      destruct (code c =? 34)%N; [|inversion H; auto].
      destruct (scan_string s') as [[key r1]|]; [|inversion H; auto].
      destruct (skip_ws r1) as [|c2 r2]; [inversion H; auto|].
      destruct (code c2 =? 58)%N; [|inversion H; auto].
      destruct (scan_once k (skip_ws r2)) as [[v r3]|e'] eqn:Eo.
      * destruct (skip_ws r3) as [|c3 r4]; [inversion H; auto|].
        destruct (code c3 =? 125)%N; [discriminate|].
        destruct (code c3 =? 44)%N; [|inversion H; auto].
        destruct (scan_members k (skip_ws r4)) as [[ms' rest]|e'] eqn:Em;
          [discriminate|].
        inversion H; subst. exact (Hmembers _ _ Em).
      * inversion H; subst. exact (Honce _ _ Eo).
Qed.

Lemma json_loads_raises (text : string) (e : exn) :
  json_loads text = Raise e -> e = JSONDecodeError \/ e = ValueError.
Proof.
  unfold json_loads.
  destruct (scan_once _ _) as [[v rest]|e'] eqn:E.
  - destruct (skip_ws rest); [discriminate|]. intros H. inversion H. auto.
  - intros H. inversion H; subst.
    exact (proj1 (scanners_raise _) _ _ E).
Qed.

(* ------------------------------------------------------------------ *)
(** ** What [json.load] returns can be written as far as its years go *)

Lemma small_list (l : list json) :
  small_ints (JList l) <-> Forall small_ints l.
Proof.
  induction l as [|x l IH]; cbn [small_ints].
  - split; [constructor | exact (fun _ => I)].
  - split.
    + intros [Hx Hl]. constructor; [exact Hx | apply IH; exact Hl].
    + intros H. inversion H; subst. split; [assumption | apply IH; assumption].
Qed.

Lemma small_dict (d : list (string * json)) :
  small_ints (JDict d) <-> Forall (fun kv => small_ints (snd kv)) d.
Proof.
  induction d as [|[k x] d IH]; cbn [small_ints].
  - split; [constructor | exact (fun _ => I)].
  - split.
    + intros [Hx Hl]. constructor; [exact Hx | apply IH; exact Hl].
    + intros H. inversion H; subst. split; [assumption | apply IH; assumption].
Qed.

Lemma dict_set_small (k : string) (v : json) (d : list (string * json)) :
  small_ints v -> Forall (fun kv => small_ints (snd kv)) d ->
  Forall (fun kv => small_ints (snd kv)) (dict_set k v d).
Proof.
  intros Hv Hd. induction Hd as [|[k' v'] d Hx Hd IH]; cbn [dict_set].
  - constructor; [exact Hv | constructor].
  - destruct (k' =? k)%string; constructor; assumption.
Qed.

Lemma dict_of_pairs_small (pairs : list (string * json)) :
  Forall (fun kv => small_ints (snd kv)) pairs ->
  Forall (fun kv => small_ints (snd kv)) (dict_of_pairs pairs).
Proof.
  unfold dict_of_pairs.
  assert (H : forall d, Forall (fun kv => small_ints (snd kv)) d ->
                        Forall (fun kv => small_ints (snd kv)) pairs ->
                        Forall (fun kv => small_ints (snd kv))
                          (fold_left (fun d kv => dict_set (fst kv) (snd kv) d)
                             pairs d)).
  { induction pairs as [|[k v] pairs IH]; intros d Hd Hp; cbn [fold_left].
    - exact Hd.
    - inversion Hp; subst. apply IH; [|assumption].
      apply dict_set_small; assumption. }
  intros Hp. apply H; [constructor | exact Hp].
Qed.

(** The digits of the integer that a run of digits denotes are no more than
    the run. *)
Lemma int_digits_of_uint (negative : bool) (d : uint) :
  d <> Nil ->
  int_digits (if negative then - Z.of_uint d else Z.of_uint d) <= nb_digits d.
Proof.
  intros Hd. unfold int_digits, Z.of_uint.
  pose proof (DecimalPos.Unsigned.to_of d) as Hto.
  pose proof (DecimalFacts.nb_digits_unorm d Hd) as Hn.
  destruct (Pos.of_uint d) as [|p]; cbn [N.to_uint] in Hto.
  - assert (1 <= nb_digits d) by (destruct d; simpl; try lia; congruence).
    destruct negative; simpl; lia.
  - destruct negative; simpl; rewrite Hto; exact Hn.
Qed.

Lemma number_tail_small (negative : bool) (d : uint) (s : string) (v : json)
  (r : string) :
  d <> Nil -> number_tail negative d s = Ret (v, r) -> small_ints v.
Proof.
  intros Hd. unfold number_tail.
  destruct (scan_frac s) as [frac r1]. destruct (scan_exp r1) as [exp r2].
  destruct frac, exp;
    try (intros H; inversion H; subst; exact I).
  destruct (nb_digits d <=? int_max_str_digits)%nat eqn:E; [|discriminate].
  intros H. inversion H; subst. cbn [small_ints].
  apply Nat.leb_le in E.
  pose proof (int_digits_of_uint negative d Hd). lia.
Qed.

Lemma scan_atom_small (s : string) (v : json) (r : string) :
  scan_atom s = Ret (v, r) -> small_ints v.
Proof.
  unfold scan_atom.
  destruct (after "null" s); [intros H; inversion H; exact I|].
  destruct (after "true" s); [intros H; inversion H; exact I|].
  destruct (after "false" s); [intros H; inversion H; exact I|].
  destruct (match_number s) as [[[v' r']|e']|] eqn:E.
  - intros H. inversion H; subst.
    assert (Huns : forall neg t, match_unsigned neg t = Some (Ret (v, r)) ->
                                 small_ints v).
    { intros neg t. destruct t as [|c t]; [discriminate|]. cbn [match_unsigned].
      destruct (code c =? 48)%N.
      - intros H'. inversion H' as [E'].
        apply (number_tail_small neg (D0 Nil) t v r); [discriminate | exact E'].
      - destruct (digit_of c) as [dg|] eqn:Ed; [|discriminate].
        destruct (scan_digits t) as [ds rest'].
        intros H'. inversion H' as [E'].
        apply (number_tail_small neg (dg ds) rest' v r); [|exact E'].
        destruct c as [[] [] [] [] [] [] [] []]; try discriminate Ed;
          inversion Ed; subst; discriminate. }
    destruct s as [|c s]; [discriminate|]. cbn [match_number] in E.
    destruct (code c =? 45)%N; exact (Huns _ _ E).
  - discriminate.
  - destruct (after "NaN" s); [intros H; inversion H; exact I|].
    destruct (after "Infinity" s); [intros H; inversion H; exact I|].
    destruct (after "-Infinity" s); [intros H; inversion H; exact I|].
    discriminate.
Qed.

Lemma scanners_small (n : nat) :
  (forall s v r, scan_once n s = Ret (v, r) -> small_ints v)
  /\ (forall s vs r, scan_items n s = Ret (vs, r) -> Forall small_ints vs)
  /\ (forall s ms r, scan_members n s = Ret (ms, r) ->
                     Forall (fun kv => small_ints (snd kv)) ms).
Proof.
  induction n as [|k (Honce & Hitems & Hmembers)].
  - repeat split; intros s v r H; discriminate H.
  - split; [|split].
    + intros s v r H. destruct s as [|c s']; [discriminate|].
      rewrite scan_once_S in H.
      destruct (code c =? 34)%N.
      { destruct (scan_string s') as [[str rest]|]; inversion H; exact I. }
      destruct (code c =? 123)%N.
      { destruct (skip_ws s') as [|c1 rest]; [discriminate|].
        destruct (code c1 =? 125)%N; [inversion H; exact I|].
        destruct (scan_members k (String c1 rest)) as [[pairs rest']|e] eqn:Em;
          [|discriminate].
        inversion H; subst. apply small_dict. apply dict_of_pairs_small.
        exact (Hmembers _ _ _ Em). }
      destruct (code c =? 91)%N.
      { destruct (skip_ws s') as [|c1 rest]; [discriminate|].
        destruct (code c1 =? 93)%N; [inversion H; exact I|].
        destruct (scan_items k (String c1 rest)) as [[vs rest']|e] eqn:Ei;
          [|discriminate].
        inversion H; subst. apply small_list. exact (Hitems _ _ _ Ei). }
      exact (scan_atom_small _ _ _ H).
    + intros s vs r H. rewrite scan_items_eq in H.
      destruct (scan_once k s) as [[v r0]|e] eqn:Eo; [|discriminate].
      destruct (skip_ws r0) as [|c r1]; [discriminate|].
      destruct (code c =? 93)%N.
      { inversion H; subst. constructor; [exact (Honce _ _ _ Eo)|constructor]. }
      destruct (code c =? 44)%N; [|discriminate].
      destruct (scan_items k (skip_ws r1)) as [[vs' rest]|e] eqn:Ei;
        [|discriminate].
      inversion H; subst.
      constructor; [exact (Honce _ _ _ Eo) | exact (Hitems _ _ _ Ei)].
    + intros s ms r H. destruct s as [|c s']; [discriminate|].
      rewrite scan_members_S in H.
      destruct (code c =? 34)%N; [|discriminate].
      destruct (scan_string s') as [[key r1]|]; [|discriminate].
      destruct (skip_ws r1) as [|c2 r2]; [discriminate|].
      destruct (code c2 =? 58)%N; [|discriminate].
      destruct (scan_once k (skip_ws r2)) as [[v r3]|e] eqn:Eo; [|discriminate].
      destruct (skip_ws r3) as [|c3 r4]; [discriminate|].
      destruct (code c3 =? 125)%N.
      { inversion H; subst. constructor; [exact (Honce _ _ _ Eo)|constructor]. }
      destruct (code c3 =? 44)%N; [|discriminate].
      destruct (scan_members k (skip_ws r4)) as [[ms' rest]|e] eqn:Em;
        [|discriminate].
      inversion H; subst.
      constructor; [exact (Honce _ _ _ Eo) | exact (Hmembers _ _ _ Em)].
Qed.

Lemma json_loads_small (text : string) (v : json) :
  json_loads text = Ret v -> small_ints v.
Proof.
  unfold json_loads.
  destruct (scan_once _ _) as [[v' rest]|e] eqn:E; [|discriminate].
  destruct (skip_ws rest); [|discriminate].
  intros H. inversion H; subst.
  exact (proj1 (scanners_small _) _ _ _ E).
Qed.

Lemma as_catalog_years (v : json) (l : list book) :
  small_ints v -> as_catalog v = Some l ->
  Forall (fun b => int_digits (year b) <= int_max_str_digits) l.
Proof.
  destruct v as [| | | | |vs|]; try discriminate. cbn [as_catalog].
  rewrite small_list. intros Hs. revert l.
  induction Hs as [|v vs Hv _ IH]; intros l H; cbn [as_books] in H.
  - inversion H. constructor.
  - destruct (as_book v) as [b|] eqn:Eb; [|discriminate].
    destruct (as_books vs) as [bs|]; [|discriminate].
    inversion H; subst. constructor; [|apply IH; reflexivity].
    unfold as_book in Eb.
    destruct v as [| | | | | |d]; try discriminate.
    destruct d as [|[k1 [| | | |t| |]] d]; try discriminate.
    destruct d as [|[k2 [| | | |a| |]] d]; try discriminate.
    destruct d as [|[k3 [| |y| | | |]] d]; try discriminate.
    destruct d as [|[k4 [| | | |g| |]] d]; try discriminate.
    destruct d as [|[k5 [|r| | | | |]] d]; try discriminate.
    destruct d; try discriminate.
    destruct (_ && _); [|discriminate].
    inversion Eb; subst. cbn [year].
    cbn [small_ints] in Hv. tauto.
Qed.

(* ------------------------------------------------------------------ *)
(** ** The statements at concrete inputs *)

Example scenario_library : library two_books = [dune; emma].
Proof. vm_compute. reflexivity. Qed.

Example scenario_statistics :
  exists percent,
    fst (display_statistics two_books) = Ret (2%Z, percent) /\ (percent == 50)%Q.
Proof. eexists. split; [vm_compute; reflexivity | reflexivity]. Qed.

Example scenario_search :
  fst (search_books ascii_lower "jane" two_books) = Ret [emma].
Proof. vm_compute. reflexivity. Qed.

Example scenario_remove :
  library (snd (remove_book ascii_lower "dune" two_books)) = [emma].
Proof. vm_compute. reflexivity. Qed.

(** Removing a title twice over removes both records at once. *)
Example remove_book_duplicates :
  library (snd (remove_book ascii_lower "DUNE"
                  (mk_manager [dune; emma; dune] None [])))
  = [emma].
Proof. vm_compute. reflexivity. Qed.

(** C3, as stated, fails: on a fresh manager with no file, removing a title
    that matches nothing still writes the file. *)
Lemma remove_book_not_found_still_writes :
  let m := empty_manager None in
  let m' := snd (remove_book ascii_lower "Dune" m) in
  (forall b, In b (library m) ->
             ~ same_ignoring_case ascii_lower (title b) "Dune")
  /\ disk m = None
  /\ disk m' = Some "[]"
  /\ writes (trace m') = 1
  /\ map outcome_of (trace m') = [None; Some NotFound].
Proof.
  cbv zeta. split; [intros b []|]. repeat split.
Qed.

(** The not-found case on a library that holds one other title. *)
Lemma remove_book_not_found_witness :
  let m := mk_manager [emma] (Some (json_dump [emma])) [] in
  let m' := snd (remove_book ascii_lower "dune" m) in
  fst (remove_book ascii_lower "dune" m) = Ret tt
  /\ library m' = library m
  /\ disk m' = Some (json_dump (library m))
  /\ writes (trace m') = S (writes (trace m))
  /\ exists msg,
       trace m' = trace m ++ [file_write (json_dump (library m)); st_warning msg]
       /\ outcome_of (st_warning msg) = Some NotFound.
Proof.
  apply (remove_book_not_found ascii_lower "dune"
           (mk_manager [emma] (Some (json_dump [emma])) [])).
  - intros b [<-|[]]. unfold same_ignoring_case. simpl. discriminate.
  - constructor; [|constructor].
    split; [repeat split|]. apply Nat.leb_le. vm_compute. reflexivity.
Defined.

(** Removing "dune" from Dune and Emma: the record kept is Emma, whole. *)
Lemma remove_book_keeps_records_intact_witness :
  exists j b,
    0 <= j /\ nth_error [dune; emma] j = Some b
    /\ title b = "Emma" /\ author b = "Jane Austen" /\ year b = 1815%Z
    /\ genre b = "Romance" /\ read b = false.
Proof.
  apply (remove_book_keeps_records_intact ascii_lower "dune"
           (mk_manager [dune; emma] None []) 0 emma).
  reflexivity.
Defined.

(** Adding Emma, with blanks around the title and the genre, behind Dune. *)
Lemma add_book_appends_record_witness :
  let m := mk_manager [dune] (Some (json_dump [dune])) [] in
  let run := add_book ascii_strip " Emma " "Jane Austen" 1815 "Romance " false in
  let m' := snd (run m) in
  fst (run m) = Ret tt
  /\ library m' = library m ++ [emma]
  /\ disk m' = Some (json_dump (library m ++ [emma]))
  /\ writes (trace m') = S (writes (trace m))
  /\ (exists msg,
        trace m' = trace m ++ [file_write (json_dump (library m ++ [emma]));
                               st_success msg]
        /\ outcome_of (st_success msg) = Some Success)
  /\ library (snd (run m')) = library m ++ [emma; emma].
Proof.
  apply (add_book_appends_record ascii_strip " Emma " "Jane Austen" "Romance "
           1815 false (mk_manager [dune] (Some (json_dump [dune])) [])).
  - reflexivity.
  - simpl. discriminate.
  - simpl. discriminate.
  - constructor; [|constructor; [|constructor]];
      (split; [repeat split|]; apply Nat.leb_le; vm_compute; reflexivity).
Defined.

(** C4, as stated, fails: a record whose title is a lone surrogate is in
    the library after the constructor has read it from the file; adding Emma
    then appends her record and opens the file, but the write stops at the
    title of the first record, [save_library] raises, and nothing is
    reported. *)
Lemma add_book_raises_on_unwritable_library :
  let m := mk_manager [lone] (Some lone_file) [] in
  let run := add_book ascii_strip "Emma" "Jane Austen" 1815 "Romance" false in
  new_manager (Some lone_file) = Some (Ret m)
  /\ ascii_strip "Emma" <> EmptyString
  /\ ascii_strip "Jane Austen" <> EmptyString
  /\ fst (run m) = Raise UnicodeEncodeError
  /\ library (snd (run m)) = [lone; emma]
  /\ disk (snd (run m))
     = Some ("[" ++ nl ++ "    {" ++ nl ++ "        "
             ++ dq ++ "title" ++ dq ++ ": ")%string
  /\ map outcome_of (trace (snd (run m))) = [None].
Proof.
  cbv zeta.
  split; [vm_compute; reflexivity|].
  split; [vm_compute; discriminate|].
  split; [vm_compute; discriminate|].
  repeat split; vm_compute; reflexivity.
Qed.

(** Searching the two books for "JANE". *)
Lemma search_books_selects_matches_witness :
  (exists found,
     search_books ascii_lower "JANE" two_books = (Ret found, two_books)
     /\ selects (fun b => occurs (ascii_lower "JANE") (ascii_lower (title b))
                          \/ occurs (ascii_lower "JANE") (ascii_lower (author b)))
                (library two_books) found)
  /\ search_books ascii_lower EmptyString two_books
     = (Ret (library two_books), two_books)
  /\ writes (trace (snd (search_books ascii_lower "JANE" two_books)))
     = writes (trace two_books).
Proof.
  apply (search_books_selects_matches ascii_lower "JANE" two_books).
  reflexivity.
Defined.

(** C6, as stated, fails: with seven books read out of twenty-five the
    quotient and the product are each rounded to a float, and the result is
    28.000000000000004, the float next above 28. *)
Lemma display_statistics_not_exact :
  exists percent,
    display_statistics seven_of_25 = (Ret (25%Z, percent), seven_of_25)
    /\ Z.of_nat (List.length (filter read (library seven_of_25))) = 7%Z
    /\ ~ (percent == 100 * 7 / 25)%Q
    /\ (percent == 28 + 2 ^ (-48))%Q.
Proof.
  eexists. split; [vm_compute; reflexivity|].
  split; [reflexivity|]. split.
  - intros H. vm_compute in H. discriminate H.
  - vm_compute. reflexivity.
Qed.

(** Saving the two books, then loading in a manager made afterwards. *)
Lemma save_then_load_round_trip_witness :
  let saved := snd (save_library two_books) in
  let fresh := mk_manager [] (disk saved) [] in
  fst (save_library two_books) = Ret tt
  /\ load_library fresh = (Ret (of_catalog (library two_books)), fresh)
  /\ as_catalog (of_catalog (library two_books)) = Some (library two_books).
Proof.
  apply (save_then_load_round_trip two_books [] []).
  constructor; [|constructor; [|constructor]];
    (split; [repeat split|]; apply Nat.leb_le; vm_compute; reflexivity).
Defined.

(** C8, as stated, fails: the catalog that holds the record with the lone
    surrogate cannot be saved.  [save_library] raises and leaves the
    beginning of the text, and a manager that loads afterwards gets the empty
    list. *)
Lemma save_then_load_loses_unwritable_library :
  let m := mk_manager [lone] (Some lone_file) [] in
  let saved := snd (save_library m) in
  let fresh := mk_manager [] (disk saved) [] in
  new_manager (Some lone_file) = Some (Ret m)
  /\ fst (save_library m) = Raise UnicodeEncodeError
  /\ disk saved = Some ("[" ++ nl ++ "    {" ++ nl ++ "        "
                        ++ dq ++ "title" ++ dq ++ ": ")%string
  /\ load_library fresh = (Ret (JList []), fresh)
  /\ as_catalog (JList []) = Some []
  /\ library m <> [].
Proof.
  cbv zeta. repeat split; try (vm_compute; reflexivity).
  discriminate.
Qed.

(* ================================================================== *)
(** * Further facts about the methods *)

(** ** Lists and text, continued *)

Lemma filter_swap {A : Type} (f g : A -> bool) (l : list A) :
  filter f (filter g l) = filter g (filter f l).
Proof.
  induction l as [|x l IH]; simpl; [reflexivity|].
  destruct (f x) eqn:Ef, (g x) eqn:Eg; simpl; rewrite ?Ef, ?Eg, IH; reflexivity.
Qed.

Lemma filter_twice {A : Type} (f : A -> bool) (l : list A) :
  filter f (filter f l) = filter f l.
Proof.
  apply forallb_filter_id. apply forallb_filter.
Qed.


Lemma contains_self (q : string) : contains q q = true.
Proof.
  apply contains_occurs. exists EmptyString, EmptyString.
  simpl. rewrite append_empty_r. reflexivity.
Qed.

Lemma occurs_trans (a b c : string) : occurs a b -> occurs b c -> occurs a c.
Proof.
  intros (p1 & s1 & ->) (p2 & s2 & ->).
  exists (p2 ++ p1)%string, (s1 ++ s2)%string.
  rewrite !append_assoc. reflexivity.
Qed.

Lemma of_catalog_inj (l1 l2 : list book) :
  of_catalog l1 = of_catalog l2 -> l1 = l2.
Proof.
  intros H. apply (f_equal as_catalog) in H.
  rewrite !as_catalog_of_catalog in H. congruence.
Qed.

Lemma count_read_all (l : list book) :
  count_read l = Z.of_nat (List.length l) <-> forall b, In b l -> read b = true.
Proof.
  rewrite count_read_filter. split.
  - intros H b Hb. apply Nat2Z.inj in H.
    apply filter_length_forallb in H. rewrite forallb_forall in H. auto.
  - intros H. f_equal. f_equal. apply forallb_filter_id.
    apply forallb_forall. exact H.
Qed.

Lemma count_read_none (l : list book) :
  count_read l = 0%Z <-> forall b, In b l -> read b = false.
Proof.
  induction l as [|x l IH]; cbn [count_read In].
  - split; [intros _ b [] | reflexivity].
  - pose proof (count_read_bounds l) as Hb.
    destruct (read x) eqn:E.
    + split; [intros H; lia|].
      intros H. specialize (H x (or_introl eq_refl)). congruence.
    + rewrite IH. split.
      * intros H b [<-|Hb']; auto.
      * intros H b Hb'. auto.
Qed.

(** ** [save_library] raises one of two exceptions *)





(* ================================================================== *)
(** * Facts about the page *)

Lemma skipn_all_app {A : Type} (l l' : list A) :
  skipn (List.length l) (l ++ l') = l'.
Proof. induction l as [|x l IH]; [reflexivity | exact IH]. Qed.

(** A method that leaves the trace as it was adds nothing to the page. *)
Lemma call_quiet {A : Type} (c : M A) (s : session) (a : A) :
  c (mgr s) = (Ret a, mgr s) -> call c s = (Ret a, s).
Proof.
  intros H. unfold call. rewrite H.
  rewrite <- (app_nil_r (trace (mgr s))) at 2.
  rewrite skipn_all_app. cbn [map]. rewrite app_nil_r.
  destruct s; reflexivity.
Qed.

(** A method that appends to the trace adds what it appends to the page. *)
Lemma call_loud {A : Type} (c : M A) (s : session) (r : result A)
  (l : list book) (d : option string) (es : list event) :
  c (mgr s) = (r, mk_manager l d (trace (mgr s) ++ es)) ->
  call c s
  = (r, mk_session (mk_manager l d (trace (mgr s) ++ es))
          (page s ++ map did es)).
Proof.
  intros H. unfold call. rewrite H. cbn [trace].
  rewrite skipn_all_app. reflexivity.
Qed.

(** The loop that shows the books ends when every year can be formatted,
    and then shows the six items of each book. *)
Lemma render_books_small (l : list book) :
  Forall (fun b => int_digits (year b) <= int_max_str_digits) l ->
  render_books l = (Ret tt, flat_map render_book l).
Proof.
  induction 1 as [|b l Hb _ IH]; cbn [render_books flat_map]; [reflexivity|].
  rewrite (int_repr_ok _ Hb), IH. reflexivity.
Qed.

(** It shows nothing that a method reports. *)
Lemma render_books_quiet (l : list book) (e : event) :
  ~ In (did e) (snd (render_books l)).
Proof.
  induction l as [|b l IH]; cbn [render_books]; [intros []|].
  destruct (int_repr (year b)).
  - destruct (render_books l) as [r xs]. cbn [snd] in *.
    intros Hin. apply in_app_or in Hin. destruct Hin as [Hin|Hin]; [|auto].
    cbn [render_book In] in Hin. intuition discriminate.
  - cbn [snd In]. intuition discriminate.
Qed.

(** The constructor: the manager it builds holds the file untouched, an empty
    trace and years that [str] converts; the exception it lets through is that
    of the decoder or that of an integer too long. *)
Lemma new_manager_outcome (file : option string) (r : result manager) :
  new_manager file = Some r ->
  match r with
  | Ret m => disk m = file /\ trace m = []
             /\ Forall (fun b => int_digits (year b) <= int_max_str_digits)
                  (library m)
  | Raise e =>
      exists bytes,
        file = Some bytes
        /\ ((e = UnicodeDecodeError /\ utf8_valid bytes = false)
            \/ (e = ValueError /\ utf8_valid bytes = true
                /\ json_loads bytes = Raise ValueError))
  end.
Proof.
  unfold new_manager. rewrite load_library_run. cbn [disk empty_manager].
  destruct file as [bytes|].
  - destruct (utf8_valid bytes) eqn:Ev.
    + destruct (json_loads bytes) as [v|e] eqn:Ej.
      * destruct (as_catalog v) as [l|] eqn:El; [|discriminate].
        intros H. inversion H; subst. cbn [disk trace library].
        repeat split.
        exact (as_catalog_years v l (json_loads_small _ _ Ej) El).
      * destruct (json_loads_raises _ _ Ej) as [->| ->]; cbn [load_handles].
        -- cbn [as_catalog as_books]. intros H. inversion H; subst.
           cbn [disk trace library]. repeat split. constructor.
        -- intros H. inversion H; subst. exists bytes. auto.
    + intros H. inversion H; subst. exists bytes. auto.
  - cbn [as_catalog as_books]. intros H. inversion H; subst.
    cbn [disk trace library]. repeat split. constructor.
Qed.

(** The constructor over the file of a manager that is in step. *)
Lemma new_manager_in_step (m : manager) :
  in_step m -> writable (library m) ->
  new_manager (disk m) = Some (Ret (mk_manager (library m) (disk m) [])).
Proof.
  unfold in_step. intros Hstep Hw.
  unfold new_manager. rewrite load_library_run. cbn [disk empty_manager].
  rewrite Hstep, (json_dump_valid _ (writable_text _ Hw)),
    (json_loads_dump _ (writable_years _ Hw)), as_catalog_of_catalog.
  reflexivity.
Qed.

Lemma new_manager_saved (l : list book) :
  writable l ->
  new_manager (Some (json_dump l))
  = Some (Ret (mk_manager l (Some (json_dump l)) [])).
Proof.
  intros Hw.
  exact (new_manager_in_step (mk_manager l (Some (json_dump l)) [])
           eq_refl Hw).
Qed.

Lemma new_manager_kept (file : option string) :
  kept file ->
  exists l, new_manager file = Some (Ret (mk_manager l file []))
            /\ writable l.
Proof.
  intros [->|(l & Hw & ->)].
  - exists []. split; [reflexivity | constructor].
  - exists l. split; [apply new_manager_saved; exact Hw | exact Hw].
Qed.

(** A library of text whose years [str] converts can be written. *)
Lemma writable_of_parts (l : list book) :
  Forall text_book l ->
  Forall (fun b => int_digits (year b) <= int_max_str_digits) l ->
  writable l.
Proof.
  intros Ht. induction Ht as [|b l Hb _ IH]; intros Hy; [constructor|].
  inversion Hy; subst. constructor; [split; assumption | apply IH; assumption].
Qed.

Section ScriptFacts.

Variable lower : string -> string.
Variable strip : string -> string.

(** What a branch can do.  It adds to the page.  Unless a button of the add
    or remove entry was pressed it leaves the manager as it was and shows no
    write, and it ends normally when the years of the library can be
    formatted.  When it ends normally, the manager it leaves is in step with
    its file, which holds the whole text, or has the library and the file it
    had.  Years stay non-negative, and they stay such that [str] converts
    them when the year typed is. *)
Lemma branch_run (i : interaction) (s : session) :
  exists r m' added,
    branch lower strip i s = (r, mk_session m' (page s ++ added))
    /\ (mutating i = false ->
        m' = mgr s /\ forall text, ~ In (did (file_write text)) added)
    /\ (mutating i = false ->
        Forall (fun b => int_digits (year b) <= int_max_str_digits)
          (library (mgr s)) ->
        r = Ret tt)
    /\ (r = Ret tt ->
        (in_step m' /\ writable (library m'))
        \/ (library m' = library (mgr s) /\ disk m' = disk (mgr s)))
    /\ (Forall (fun b => (0 <= year b)%Z) (library (mgr s)) ->
        Forall (fun b => (0 <= year b)%Z) (library m'))
    /\ (text_entry strip i -> writable (library (mgr s)) ->
        r = Ret tt /\ writable (library m')).
Proof.
  destruct s as [m pg].
  destruct i as [ttl ath yr gnr rd pressed|ttl pressed|q pressed| |];
    cbv beta iota zeta delta [branch mutating shows text_entry]; cbn [mgr page].
  - destruct pressed.
    + destruct (string_dec ttl EmptyString) as [Ht|Ht];
        [|destruct (string_dec ath EmptyString) as [Ha|Ha]].
      * erewrite call_loud
          by (cbn [mgr]; apply add_book_rejects_empty; auto).
        cbn [mgr page]. rewrite <- app_assoc.
        eexists. eexists. eexists. split; [reflexivity|].
        split; [discriminate|]. split; [discriminate|].
        split; [intros _; right; split; reflexivity|].
        cbn [library]. auto.
      * erewrite call_loud
          by (cbn [mgr]; apply add_book_rejects_empty; auto).
        cbn [mgr page]. rewrite <- app_assoc.
        eexists. eexists. eexists. split; [reflexivity|].
        split; [discriminate|]. split; [discriminate|].
        split; [intros _; right; split; reflexivity|].
        cbn [library]. auto.
      * pose proof (add_book_run strip ttl ath gnr (Z.of_N yr) rd m Ht Ha)
          as Hrun.
        cbv zeta in Hrun. unfold py_int in Hrun.
        destruct (fst (dump_result _)) as [[]|e] eqn:Ed.
        -- apply dump_result_ret in Ed as Hw.
           rewrite (dump_result_writable _ Hw) in Hrun. cbn [snd] in Hrun.
           erewrite call_loud by (cbn [mgr]; exact Hrun).
           cbn [mgr page]. rewrite <- app_assoc.
           eexists. eexists. eexists. split; [reflexivity|].
           split; [discriminate|]. split; [discriminate|].
           split; [intros _; left; split; [reflexivity | exact Hw]|].
           cbn [library]. split; [|auto].
           intros H. apply Forall_app. split; [exact H|].
           constructor; [|constructor]. cbn [year]. lia.
        -- erewrite call_loud by (cbn [mgr]; exact Hrun).
           cbn [mgr page]. rewrite <- app_assoc.
           eexists. eexists. eexists. split; [reflexivity|].
           split; [discriminate|]. split; [discriminate|].
           split; [discriminate|].
           cbn [library]. split.
           ++ intros H. apply Forall_app. split; [exact H|].
              constructor; [|constructor]. cbn [year]. lia.
           ++ intros Hentry Hw. exfalso.
              assert (Hall : writable
                        (library m ++ [mk_book (strip ttl) (strip ath)
                                         (Z.of_N yr) (strip gnr) rd])).
              { apply writable_app. split; assumption. }
              apply dump_result_iff in Hall. congruence.
    + eexists. eexists. eexists. split; [reflexivity|].
      split; [|split; [auto|split; [intros _; right; split; reflexivity|auto]]].
      intros _. split; [reflexivity|].
      intros text Hin. cbn [In] in Hin. intuition discriminate.
  - destruct pressed.
    + pose proof (remove_book_run lower ttl m) as Hrun. cbv zeta in Hrun.
      destruct (fst (dump_result _)) as [[]|e] eqn:Ed.
      * apply dump_result_ret in Ed as Hw.
        rewrite (dump_result_writable _ Hw) in Hrun. cbn [snd] in Hrun.
        erewrite call_loud by (cbn [mgr]; exact Hrun).
        cbn [mgr page]. rewrite <- app_assoc.
        eexists. eexists. eexists. split; [reflexivity|].
        split; [discriminate|]. split; [discriminate|].
        split; [intros _; left; split; [reflexivity | exact Hw]|].
        cbn [library]. split; [|auto].
        intros H. apply Forall_forall.
        intros b Hb. apply filter_In in Hb. rewrite Forall_forall in H.
        apply H. tauto.
      * erewrite call_loud by (cbn [mgr]; exact Hrun).
        cbn [mgr page]. rewrite <- app_assoc.
        eexists. eexists. eexists. split; [reflexivity|].
        split; [discriminate|]. split; [discriminate|].
        split; [discriminate|].
        cbn [library]. split.
        -- intros H. apply Forall_forall.
           intros b Hb. apply filter_In in Hb. rewrite Forall_forall in H.
           apply H. tauto.
        -- intros _ Hw. exfalso.
           apply (writable_filter (keeps lower ttl)) in Hw.
           apply dump_result_iff in Hw. congruence.
    + eexists. eexists. eexists. split; [reflexivity|].
      split; [|split; [auto|split; [intros _; right; split; reflexivity|auto]]].
      intros _. split; [reflexivity|].
      intros text Hin. cbn [In] in Hin. intuition discriminate.
  - destruct pressed.
    + rewrite (call_quiet _ _ _ (search_books_run lower q _)).
      cbn [mgr page].
      assert (Hsmall :
                Forall (fun b => int_digits (year b) <= int_max_str_digits)
                  (library m) ->
                render_books (filter (hit lower q) (library m))
                = (Ret tt, flat_map render_book
                             (filter (hit lower q) (library m)))).
      { intros H. apply render_books_small. apply Forall_forall.
        intros b Hb. apply filter_In in Hb. rewrite Forall_forall in H.
        apply H. tauto. }
      pose proof (render_books_quiet (filter (hit lower q) (library m)))
        as Hquiet.
      destruct (filter (hit lower q) (library m)) as [|b found].
      * rewrite <- app_assoc.
        eexists. eexists. eexists. split; [reflexivity|].
        split; [|split; [auto|split; [intros _; right; split; reflexivity|auto]]].
        intros _. split; [reflexivity|].
        intros text Hin. cbn [In List.app] in Hin. intuition discriminate.
      * destruct (render_books (b :: found)) as [r xs].
        cbn [mgr page snd] in *. rewrite <- app_assoc.
        eexists. eexists. eexists. split; [reflexivity|].
        split; [|split; [|split; [intros _; right; split; reflexivity|]]].
        -- intros _. split; [reflexivity|].
           intros text Hin. apply in_app_or in Hin. destruct Hin as [Hin|Hin];
             [cbn [In] in Hin; intuition discriminate | exact (Hquiet _ Hin)].
        -- intros _ H. specialize (Hsmall H). congruence.
        -- split; [auto|]. intros _ Hw. split; [|exact Hw].
           specialize (Hsmall (writable_years _ Hw)). congruence.
    + eexists. eexists. eexists. split; [reflexivity|].
      split; [|split; [auto|split; [intros _; right; split; reflexivity|auto]]].
      intros _. split; [reflexivity|].
      intros text Hin. cbn [In] in Hin. intuition discriminate.
  - pose proof (render_books_small (library m)) as Hsmall.
    pose proof (render_books_quiet (library m)) as Hquiet.
    destruct (library m) as [|b l] eqn:El.
    + rewrite <- app_assoc.
      exists (Ret tt), m. eexists. split; [reflexivity|].
      split; [|split; [auto|split; [intros _; right; split;
                                    [exact El | reflexivity]|]]].
      * intros _. split; [reflexivity|].
        intros text Hin. cbn [In List.app] in Hin. intuition discriminate.
      * rewrite El. auto.
    + destruct (render_books (b :: l)) as [r xs].
      cbn [mgr page snd] in *. rewrite <- app_assoc.
      exists r, m. eexists. split; [reflexivity|].
      split; [|split; [|split; [intros _; right; split;
                                [exact El | reflexivity]|]]].
      * intros _. split; [reflexivity|].
        intros text Hin. apply in_app_or in Hin. destruct Hin as [Hin|Hin];
          [cbn [In] in Hin; intuition discriminate | exact (Hquiet _ Hin)].
      * intros _ H. specialize (Hsmall H). congruence.
      * rewrite El. split; [auto|]. intros _ Hw. split; [|exact Hw].
        specialize (Hsmall (writable_years _ Hw)). congruence.
  - rewrite (call_quiet _ _ _ (display_statistics_run _)).
    cbv beta iota. cbn [mgr page]. rewrite <- app_assoc.
    eexists. eexists. eexists. split; [reflexivity|].
    split; [|split; [auto|split; [intros _; right; split; reflexivity|auto]]].
    intros _. split; [reflexivity|].
    intros text Hin. cbn [In List.app] in Hin.
    destruct Hin as [H|[H|[H|[]]]]; discriminate H.
Qed.

End ScriptFacts.

(* ================================================================== *)
(** * Further statements about the methods *)

(** ** [add_book] and [remove_book], further *)

Section AddFurther.

Variable strip : string -> string.

(** X1.  The guard of [add_book] is about the arguments as passed and
    nothing else: the library stays as it was exactly when the title or the
    author passed is the empty string, the file is left alone exactly then,
    and the only thing such a call does is report through [st.error]. *)
Theorem add_book_rejects_exactly_empty (title author genre : string)
  (year : Z) (read_status : bool) (m : manager) :
  let m' := snd (add_book strip title author year genre read_status m) in
  ((title = EmptyString \/ author = EmptyString) <-> library m' = library m)
  /\ ((title = EmptyString \/ author = EmptyString)
      <-> writes (trace m') = writes (trace m))
  /\ ((title = EmptyString \/ author = EmptyString) ->
      disk m' = disk m
      /\ trace m' = trace m ++ [st_error "Title and Author cannot be empty!"]).
Proof.
  intros m'. subst m'.
  destruct (string_dec title EmptyString) as [Ht|Ht];
    [|destruct (string_dec author EmptyString) as [Ha|Ha]].
  - rewrite add_book_rejects_empty by auto. cbn [snd library disk trace].
    repeat split; auto.
    rewrite writes_app. simpl. lia.
  - rewrite add_book_rejects_empty by auto. cbn [snd library disk trace].
    repeat split; auto.
    rewrite writes_app. simpl. lia.
  - rewrite (add_book_run strip title author genre year read_status m Ht Ha).
    destruct (fst (dump_result _)) as [[]|e]; cbn [snd library disk trace].
    + split; [|split].
      * split; [tauto|]. intros H. apply (f_equal (@List.length book)) in H.
        rewrite length_app in H. simpl in H. lia.
      * split; [tauto|]. rewrite writes_app. simpl. lia.
      * tauto.
    + split; [|split].
      * split; [tauto|]. intros H. apply (f_equal (@List.length book)) in H.
        rewrite length_app in H. simpl in H. lia.
      * split; [tauto|]. rewrite writes_app. simpl. lia.
      * tauto.
Qed.

(** X7.  When the library with the new record can be written, an accepted
    [add_book] returns, and what it leaves on disk is what [load_library]
    reads next, in the same manager and in any manager made afterwards: the
    former records and the new one behind them. *)
Theorem add_book_then_load (title author genre : string) (year : Z)
  (read_status : bool) (m : manager) :
  title <> EmptyString -> author <> EmptyString ->
  let record := mk_book (strip title) (strip author) year (strip genre)
                        read_status in
  writable (library m ++ [record]) ->
  let run := add_book strip title author year genre read_status in
  let m' := snd (run m) in
  fst (run m) = Ret tt
  /\ load_library m' = (Ret (of_catalog (library m ++ [record])), m')
  /\ forall held tr,
       load_library (mk_manager held (disk m') tr)
       = (Ret (of_catalog (library m ++ [record])),
          mk_manager held (disk m') tr).
Proof.
  intros Ht Ha record Hw run m'. subst run m'.
  rewrite (add_book_ok strip title author genre year read_status m Ht Ha Hw).
  cbn [fst snd disk]. unfold py_int. fold record.
  split; [reflexivity|]. split; [|intros held tr];
    apply load_library_saved; exact Hw.
Qed.

End AddFurther.

Section RemoveFurther.

Variable lower : string -> string.


(** X3.  Removing the same title a second time changes neither the library
    nor the file and ends as the first call did; when it returns, it reports
    that nothing was found. *)
Theorem remove_book_twice (t : string) (m : manager) :
  let m1 := snd (remove_book lower t m) in
  let m2 := snd (remove_book lower t m1) in
  library m2 = library m1
  /\ disk m2 = disk m1
  /\ fst (remove_book lower t m1) = fst (remove_book lower t m)
  /\ (fst (remove_book lower t m) = Ret tt ->
      exists msg,
        trace m2 = trace m1 ++ [file_write (json_dump (library m1));
                                 st_warning msg]).
Proof.
  intros m1 m2. subst m2 m1.
  pose proof (remove_book_run lower t m) as H1. cbv zeta in H1.
  pose proof (remove_book_run lower t (snd (remove_book lower t m))) as H2.
  cbv zeta in H2. rewrite remove_book_library, filter_twice in H2.
  pose proof (dump_result_iff (filter (keeps lower t) (library m))) as Hiff.
  destruct (fst (dump_result _)) as [[]|e0] eqn:Ed.
  - assert (Hw : writable (filter (keeps lower t) (library m)))
      by (apply Hiff; reflexivity).
    rewrite (dump_result_writable _ Hw) in H1, H2. cbn [snd] in H1, H2.
    rewrite H2, H1. cbn [fst snd library disk trace].
    rewrite Nat.ltb_irrefl. repeat split.
    intros _. eexists. reflexivity.
  - rewrite H2, H1. cbn [fst snd library disk trace].
    repeat split. discriminate.
Qed.

(** X4.  Two removals give the same library and the same file in either
    order. *)
Theorem remove_book_order (t1 t2 : string) (m : manager) :
  let m12 := snd (remove_book lower t2 (snd (remove_book lower t1 m))) in
  let m21 := snd (remove_book lower t1 (snd (remove_book lower t2 m))) in
  library m12 = library m21 /\ disk m12 = disk m21.
Proof.
  intros m12 m21. subst m12 m21.
  assert (Hdisk : forall t m0,
             disk (snd (remove_book lower t m0))
             = Some (snd (dump_result (library (snd (remove_book lower t m0)))))).
  { intros t m0. rewrite remove_book_library, remove_book_run.
    destruct (fst (dump_result _)); reflexivity. }
  rewrite !Hdisk, !remove_book_library.
  rewrite (filter_swap (keeps lower t2) (keeps lower t1)).
  split; reflexivity.
Qed.

(** X6.  When the library can be written, [remove_book] returns, and what
    it leaves on disk is what [load_library] reads next, in the same manager
    and in any manager made afterwards: the records that were kept. *)
Theorem remove_book_then_load (t : string) (m : manager) :
  writable (library m) ->
  let m' := snd (remove_book lower t m) in
  fst (remove_book lower t m) = Ret tt
  /\ load_library m' = (Ret (of_catalog (library m')), m')
  /\ (forall held tr,
        load_library (mk_manager held (disk m') tr)
        = (Ret (of_catalog (library m')), mk_manager held (disk m') tr))
  /\ as_catalog (of_catalog (library m')) = Some (library m').
Proof.
  intros Hw m'. subst m'.
  apply (writable_filter (keeps lower t)) in Hw.
  rewrite (remove_book_ok lower t m Hw).
  cbn [fst snd library disk trace].
  split; [reflexivity|].
  split; [apply load_library_saved; exact Hw|].
  split; [intros held tr; apply load_library_saved; exact Hw|].
  apply as_catalog_of_catalog.
Qed.

End RemoveFurther.

Section Mutators.

Variable lower : string -> string.
Variable strip : string -> string.

(** X5.  The file is kept in step with the library by the calls that
    return: when [remove_book] or an accepted [add_book] returns, the file
    holds the text of the library it leaves, whatever the file held before,
    and a rejected [add_book] leaves a file that was in step in step.  Both
    return whenever the library they leave can be written. *)
Theorem mutators_keep_file_in_step (title author genre t : string) (year : Z)
  (read_status : bool) (m : manager) :
  let add := add_book strip title author year genre read_status in
  let remove := remove_book lower t in
  (fst (remove m) = Ret tt -> in_step (snd (remove m)))
  /\ (title <> EmptyString -> author <> EmptyString ->
      fst (add m) = Ret tt -> in_step (snd (add m)))
  /\ (in_step m -> fst (add m) = Ret tt -> in_step (snd (add m)))
  /\ (writable (library (snd (remove m))) -> fst (remove m) = Ret tt)
  /\ (writable (library (snd (add m))) -> fst (add m) = Ret tt).
Proof.
  intros add remove. subst add remove. unfold in_step.
  assert (Hrem : fst (remove_book lower t m) = Ret tt
                 <-> writable (library (snd (remove_book lower t m)))).
  { rewrite remove_book_library, remove_book_run.
    rewrite <- dump_result_iff.
    destruct (fst (dump_result _)) as [[]|e]; cbn [fst];
      split; congruence. }
  assert (Hacc : title <> EmptyString -> author <> EmptyString ->
                 (fst (add_book strip title author year genre read_status m)
                  = Ret tt
                  <-> writable
                        (library
                           (snd (add_book strip title author year genre
                                   read_status m))))).
  { intros Ht Ha.
    rewrite (add_book_library strip title author genre year read_status m Ht Ha).
    rewrite (add_book_run strip title author genre year read_status m Ht Ha).
    rewrite <- dump_result_iff.
    destruct (fst (dump_result _)) as [[]|e]; cbn [fst];
      split; congruence. }
  assert (Hstep : title <> EmptyString -> author <> EmptyString ->
                  fst (add_book strip title author year genre read_status m)
                  = Ret tt ->
                  disk (snd (add_book strip title author year genre
                               read_status m))
                  = Some (json_dump
                            (library
                               (snd (add_book strip title author year genre
                                       read_status m))))).
  { intros Ht Ha Hret. apply (Hacc Ht Ha) in Hret.
    rewrite (add_book_library strip title author genre year read_status m Ht Ha)
      in Hret |- *.
    rewrite (add_book_ok strip title author genre year read_status m Ht Ha Hret).
    reflexivity. }
  split; [|split; [exact Hstep|split; [|split]]].
  - intros Hret. apply Hrem in Hret. rewrite remove_book_library in Hret |- *.
    rewrite (remove_book_ok lower t m Hret). reflexivity.
  - intros Hm Hret.
    destruct (string_dec title EmptyString) as [Ht|Ht];
      [|destruct (string_dec author EmptyString) as [Ha|Ha]];
      try (rewrite add_book_rejects_empty by auto; exact Hm).
    apply Hstep; assumption.
  - apply Hrem.
  - destruct (string_dec title EmptyString) as [Ht|Ht];
      [|destruct (string_dec author EmptyString) as [Ha|Ha]];
      try (rewrite add_book_rejects_empty by auto; reflexivity).
    apply Hacc; assumption.
Qed.

(** X8.  Removing the stored title of a book just added takes the new
    record out again, with every older record of that title: the library is
    the one that the removal alone would have left. *)
Theorem add_book_then_remove (new_title new_author new_genre : string)
  (new_year : Z) (read_status : bool) (m : manager) :
  new_title <> EmptyString -> new_author <> EmptyString ->
  let added :=
    snd (add_book strip new_title new_author new_year new_genre read_status m) in
  library (snd (remove_book lower (strip new_title) added))
  = library (snd (remove_book lower (strip new_title) m))
  /\ ((forall b, In b (library m) ->
                 ~ same_ignoring_case lower (title b) (strip new_title)) ->
      library (snd (remove_book lower (strip new_title) added)) = library m).
Proof.
  intros Ht Ha added. subst added.
  rewrite !remove_book_library.
  rewrite (add_book_library strip new_title new_author new_genre new_year
             read_status m Ht Ha).
  assert (E : filter (keeps lower (strip new_title))
                (library m ++ [mk_book (strip new_title) (strip new_author)
                                 (py_int new_year) (strip new_genre)
                                 read_status])
              = filter (keeps lower (strip new_title)) (library m)).
  { rewrite filter_app. cbn [filter]. unfold keeps at 2. cbn [title].
    rewrite String.eqb_refl. cbn [negb]. apply app_nil_r. }
  rewrite E. split; [reflexivity|].
  intros Hnone. apply forallb_filter_id. apply forallb_forall.
  intros b Hb. apply keeps_spec. auto.
Qed.

End Mutators.

(* ------------------------------------------------------------------ *)
(** ** [save_library] and [load_library], further *)


(** X9.  Two libraries that [save_library] writes in full as the same text
    are the same list of records: the file determines the library. *)
Theorem save_library_loses_nothing (m1 m2 : manager) :
  fst (save_library m1) = Ret tt -> fst (save_library m2) = Ret tt ->
  disk (snd (save_library m1)) = disk (snd (save_library m2)) ->
  library m1 = library m2.
Proof.
  rewrite !save_library_run. cbn [fst snd disk]. intros H1 H2 H.
  apply dump_result_iff in H1, H2.
  rewrite (dump_result_writable _ H1), (dump_result_writable _ H2) in H.
  cbn [snd] in H.
  assert (E : json_dump (library m1) = json_dump (library m2)) by congruence.
  apply (f_equal json_loads) in E.
  rewrite (json_loads_dump _ (writable_years _ H1)),
    (json_loads_dump _ (writable_years _ H2)) in E.
  apply of_catalog_inj. congruence.
Qed.

(** X10.  [load_library] never changes the manager or the file.  With no
    file it returns the empty list; when the bytes of the file are not UTF-8
    it raises [UnicodeDecodeError]; the two exceptions of its [except] clause
    never leave it; and over the text of a library that [save_library] wrote
    in full it returns that library. *)
Theorem load_library_outcome (m : manager) :
  snd (load_library m) = m
  /\ (disk m = None -> fst (load_library m) = Ret (JList []))
  /\ (forall bytes, disk m = Some bytes -> utf8_valid bytes = false ->
                    fst (load_library m) = Raise UnicodeDecodeError)
  /\ fst (load_library m) <> Raise JSONDecodeError
  /\ fst (load_library m) <> Raise FileNotFoundError
  /\ (forall l, writable l -> disk m = Some (json_dump l) ->
                fst (load_library m) = Ret (of_catalog l)).
Proof.
  rewrite load_library_run. cbn [fst snd].
  split; [reflexivity|].
  destruct (disk m) as [bytes|].
  - split; [discriminate|]. split; [|split; [|split]].
    + intros b Hb Hv. inversion Hb; subst. rewrite Hv. reflexivity.
    + destruct (utf8_valid bytes); [|discriminate].
      destruct (json_loads bytes) as [v|[]]; cbn [load_handles]; discriminate.
    + destruct (utf8_valid bytes); [|discriminate].
      destruct (json_loads bytes) as [v|[]]; cbn [load_handles]; discriminate.
    + intros l Hw Hl. inversion Hl; subst.
      rewrite (json_dump_valid _ (writable_text _ Hw)),
        (json_loads_dump _ (writable_years _ Hw)).
      reflexivity.
  - split; [reflexivity|]. split; [discriminate|].
    split; [discriminate|]. split; [discriminate|]. discriminate.
Qed.

(* ------------------------------------------------------------------ *)
(** ** [search_books], further *)

Section Searching.

Variable lower : string -> string.
Variable strip : string -> string.

(** X11.  A book that [add_book] has just accepted is found by a search for
    its stored title and by a search for its stored author, and it is the
    last record of either result. *)
Theorem add_book_then_search (new_title new_author new_genre : string)
  (new_year : Z) (read_status : bool) (m : manager) :
  new_title <> EmptyString -> new_author <> EmptyString ->
  let record := mk_book (strip new_title) (strip new_author) new_year
                        (strip new_genre) read_status in
  let added :=
    snd (add_book strip new_title new_author new_year new_genre read_status m) in
  (exists before,
     fst (search_books lower (strip new_title) added) = Ret (before ++ [record]))
  /\ (exists before,
        fst (search_books lower (strip new_author) added)
        = Ret (before ++ [record])).
Proof.
  intros Ht Ha record added. subst added.
  rewrite !search_books_run. cbn [fst].
  rewrite (add_book_library strip new_title new_author new_genre new_year
             read_status m Ht Ha).
  unfold py_int. fold record.
  rewrite !filter_app. cbn [filter]. unfold hit at 2 4. cbn [title author record].
  rewrite !contains_self, orb_true_r. cbn [orb].
  split; eexists; reflexivity.
Qed.

(** X12.  A query that contains another one, case ignored, finds no more
    than it: the result for the longer query is the result for the shorter
    one, searched again. *)
Theorem search_books_narrows (q1 q2 : string) (m : manager) :
  occurs (lower q1) (lower q2) ->
  exists found1 found2,
    fst (search_books lower q1 m) = Ret found1
    /\ fst (search_books lower q2 m) = Ret found2
    /\ found2 = filter (hit lower q2) found1
    /\ incl found2 found1.
Proof.
  intros Hocc. rewrite !search_books_run. cbn [fst].
  exists (filter (hit lower q1) (library m)),
         (filter (hit lower q2) (library m)).
  assert (Himp : forall b, hit lower q2 b = true -> hit lower q1 b = true).
  { intros b Hb. apply hit_spec in Hb. apply hit_spec.
    destruct Hb as [Hb|Hb]; [left|right];
      exact (occurs_trans _ _ _ Hocc Hb). }
  assert (E : filter (hit lower q2) (library m)
              = filter (hit lower q2) (filter (hit lower q1) (library m))).
  { induction (library m) as [|b l IH]; simpl; [reflexivity|].
    destruct (hit lower q2 b) eqn:E2.
    - rewrite (Himp b E2). simpl. rewrite E2, IH. reflexivity.
    - destruct (hit lower q1 b); simpl; rewrite ?E2; exact IH. }
  repeat split; [exact E|].
  rewrite E. apply incl_filter.
Qed.

End Searching.

(* ------------------------------------------------------------------ *)
(** ** [display_statistics], further *)

(** X13.  In a library of fewer than 2^53 records, the percentage is 100
    exactly when the library holds a record and every record is marked read,
    and 0 exactly when no record is marked read (in particular when there is
    none): the two roundings do not blur the extremes. *)
Theorem display_statistics_extremes (m : manager) :
  (Z.of_nat (List.length (library m)) < 2 ^ 53)%Z ->
  exists total percent,
    display_statistics m = (Ret (total, percent), m)
    /\ ((percent == 100)%Q
        <-> library m <> [] /\ forall b, In b (library m) -> read b = true)
    /\ ((percent == 0)%Q <-> forall b, In b (library m) -> read b = false).
Proof.
  intros Hsize.
  rewrite display_statistics_run. eexists. eexists. split; [reflexivity|].
  destruct (library m) as [|x l] eqn:El.
  - cbn [List.length Z.of_nat Z.ltb Z.compare]. split.
    + split; [intros H; discriminate H | intros [H _]; congruence].
    + split; [intros _ b [] | reflexivity].
  - rewrite <- El in *.
    assert (Hpos : (0 < Z.of_nat (List.length (library m)))%Z)
      by (rewrite El; simpl List.length; lia).
    pose proof (count_read_bounds (library m)) as Hb.
    apply Z.ltb_lt in Hpos as E. rewrite E. split.
    + rewrite percentage_hundred, count_read_all by lia.
      split; [intros H; split; [rewrite El; discriminate | exact H] | tauto].
    + rewrite percentage_zero by lia. apply count_read_none.
Qed.

(** X14.  An accepted [add_book] raises the total by one and the number of
    records marked read by one exactly when the new book is marked read: the
    next percentage is the float computed from the new count and the new
    total, within 2^-46 of 100 times the one over the other. *)
Theorem add_book_then_statistics (strip : string -> string)
  (new_title new_author new_genre : string) (new_year : Z)
  (read_status : bool) (m : manager) :
  new_title <> EmptyString -> new_author <> EmptyString ->
  let added :=
    snd (add_book strip new_title new_author new_year new_genre read_status m) in
  let total := Z.of_nat (List.length (library m)) in
  let marked := Z.of_nat (List.length (filter read (library m))) in
  let marked' := (marked + if read_status then 1 else 0)%Z in
  exists percent,
    display_statistics added = (Ret (total + 1, percent)%Z, added)
    /\ percent
       = binary64 (binary64 (inject_Z marked' / inject_Z (total + 1)) * 100)
    /\ (Qabs (percent - 100 * inject_Z marked' / inject_Z (total + 1))
        <= 2 ^ (-46))%Q.
Proof.
  intros Ht Ha added total marked marked'.
  assert (Hlib : library added
                 = library m ++ [mk_book (strip new_title) (strip new_author)
                                   (py_int new_year) (strip new_genre)
                                   read_status])
    by (apply add_book_library; assumption).
  rewrite display_statistics_run, Hlib.
  rewrite length_app. cbn [List.length].
  replace (Z.of_nat (List.length (library m) + 1)) with (total + 1)%Z
    by (subst total; lia).
  assert (Hpos : (0 < total + 1)%Z) by (subst total; lia).
  apply Z.ltb_lt in Hpos as E. rewrite E.
  assert (Hcount : count_read
                     (library m ++ [mk_book (strip new_title) (strip new_author)
                                      (py_int new_year) (strip new_genre)
                                      read_status])
                   = marked').
  { rewrite count_read_filter, filter_app, length_app. cbn [filter read].
    subst marked' marked. destruct read_status; simpl List.length; lia. }
  rewrite Hcount.
  eexists. split; [reflexivity|]. split; [reflexivity|].
  apply percentage_error; [|exact Hpos].
  pose proof (filter_length_le read (library m)) as Hle.
  subst marked' marked total. destruct read_status; lia.
Qed.

(* ================================================================== *)
(** * Statements about the page *)

Section ScriptRuns.

Variable lower : string -> string.
Variable strip : string -> string.

(** X15.  The constructor gives an empty library when there is no file, and
    when the file holds text that is not JSON, as a lone opening brace; over
    the file that [save_library] wrote in full it gives the saved library. *)
Theorem new_manager_over_file (m : manager) :
  writable (library m) ->
  new_manager None = Some (Ret (mk_manager [] None []))
  /\ new_manager (Some "{") = Some (Ret (mk_manager [] (Some "{") []))
  /\ fst (save_library m) = Ret tt
  /\ new_manager (disk (snd (save_library m)))
     = Some (Ret (mk_manager (library m) (Some (json_dump (library m))) [])).
Proof.
  intros Hw. split; [reflexivity|]. split; [vm_compute; reflexivity|].
  rewrite (save_library_ok _ Hw). cbn [fst snd disk].
  split; [reflexivity|]. apply new_manager_saved. exact Hw.
Qed.

(** X16.  Whatever the user does, a run that ends leaves a file from which
    the next run's constructor gets the library this run ended with. *)
Theorem script_leaves_loadable_file (i : interaction) (file : option string)
  (s' : session) :
  script lower strip i file = Some (Ret tt, s') ->
  Forall text_book (library (mgr s')) ->
  exists m'',
    new_manager (disk (mgr s')) = Some (Ret m'')
    /\ library m'' = library (mgr s').
Proof.
  unfold script. intros Hrun Htext.
  destruct (new_manager file) as [[m|e]|] eqn:En; try discriminate Hrun.
  destruct (branch_run lower strip i
              (mk_session m [st_markdown css;
                             st_title "📚 Personal Library Manager";
                             st_widget radio "Menu"]))
    as (r & m' & added & Eb & _ & _ & Hstep & _).
  rewrite Eb in Hrun. destruct r as [[]|e]; [|discriminate Hrun].
  inversion Hrun; subst s'. cbn [mgr shows] in *.
  destruct (Hstep eq_refl) as [[Hin Hw]|[Hl Hd]].
  - eexists. split; [apply new_manager_in_step; assumption | reflexivity].
  - apply new_manager_outcome in En as Hm. destruct Hm as [Hdisk _].
    exists m. rewrite Hd, Hdisk. auto.
Qed.

(** X17.  A run in which no button of the add or remove entry is pressed
    never writes the file: the file is the one the run started with, no
    write is shown on the page, and the manager is the one constructed. *)
Theorem script_looking_never_writes (i : interaction) (file : option string)
  (r : result unit) (s : session) :
  mutating i = false ->
  script lower strip i file = Some (r, s) ->
  disk (mgr s) = file
  /\ (forall text, ~ In (did (file_write text)) (page s))
  /\ (forall m, new_manager file = Some (Ret m) -> mgr s = m).
Proof.
  unfold script. intros Hlook Hrun.
  destruct (new_manager file) as [[m|e]|] eqn:En; try discriminate Hrun.
  - destruct (branch_run lower strip i
                (mk_session m [st_markdown css;
                               st_title "📚 Personal Library Manager";
                               st_widget radio "Menu"]))
      as (r' & m' & added & Eb & Hquiet & _).
    destruct (Hquiet Hlook) as [-> Hno]. cbn [mgr] in *.
    rewrite Eb in Hrun.
    apply new_manager_outcome in En as Hm. destruct Hm as [Hdisk _].
    assert (Hpage : forall text,
               ~ In (did (file_write text))
                   ([st_markdown css;
                     st_title "📚 Personal Library Manager";
                     st_widget radio "Menu"] ++ added)).
    { intros text Hin. cbn [List.app In] in Hin.
      destruct Hin as [H|[H|[H|Hin]]]; try discriminate H.
      exact (Hno _ Hin). }
    destruct r' as [[]|e]; inversion Hrun; subst r s; cbn [mgr page shows].
    + split; [exact Hdisk|]. split.
      * intros text Hin. apply in_app_or in Hin. destruct Hin as [Hin|Hin];
          [exact (Hpage _ Hin) | cbn [footer In] in Hin; intuition discriminate].
      * intros m0 H0. congruence.
    + split; [exact Hdisk|]. split; [exact Hpage|].
      intros m0 H0. congruence.
  - inversion Hrun; subst. cbn [mgr page empty_manager disk].
    split; [reflexivity|]. split.
    + intros text [H|[]]. discriminate H.
    + intros m0 H0. discriminate H0.
Qed.

(** X18.  Over a file whose bytes are not UTF-8 every run raises
    [UnicodeDecodeError], whatever the user does: the constructor raises it
    when only the style sheet has been shown, and the file is left as it
    was. *)
Theorem script_raises_on_undecodable_file (i : interaction) (bytes : string) :
  utf8_valid bytes = false ->
  exists s,
    script lower strip i (Some bytes) = Some (Raise UnicodeDecodeError, s)
    /\ page s = [st_markdown css]
    /\ disk (mgr s) = Some bytes.
Proof.
  intros Hv. unfold script, new_manager.
  rewrite load_library_run. cbn [disk empty_manager]. rewrite Hv.
  eexists. split; [reflexivity|]. split; reflexivity.
Qed.

(** X19.  The page only hands over years that are not negative: when no
    year of the library loaded is negative, none is negative after the run. *)
Theorem script_keeps_years_nonnegative (i : interaction)
  (file : option string) (m : manager) (r : result unit) (s : session) :
  new_manager file = Some (Ret m) ->
  Forall (fun b => (0 <= year b)%Z) (library m) ->
  script lower strip i file = Some (r, s) ->
  Forall (fun b => (0 <= year b)%Z) (library (mgr s)).
Proof.
  unfold script. intros En Hyears Hrun. rewrite En in Hrun.
  destruct (branch_run lower strip i
              (mk_session m [st_markdown css;
                             st_title "📚 Personal Library Manager";
                             st_widget radio "Menu"]))
    as (r' & m' & added & Eb & _ & _ & _ & Hkeep & _).
  rewrite Eb in Hrun.
  destruct r' as [[]|e]; inversion Hrun; subst; cbn [mgr shows];
    apply Hkeep; exact Hyears.
Qed.

(** X20.  The search entry, with its button pressed, leaves the manager as
    constructed and shows, behind its widgets, the warning that nothing
    matches when no record matches, and otherwise the six items of each
    matching record, in the order of the library. *)
Theorem script_search_page (query : string) (file : option string)
  (m : manager) :
  new_manager file = Some (Ret m) ->
  exists found,
    selects (fun b => occurs (lower query) (lower (title b))
                      \/ occurs (lower query) (lower (author b)))
            (library m) found
    /\ script lower strip (on_search query true) file
       = Some (Ret tt,
               mk_session m
                 ([st_markdown css;
                   st_title "📚 Personal Library Manager";
                   st_widget radio "Menu";
                   st_header "🔍 Search for a Book";
                   st_widget text_input "Enter title or author";
                   st_widget button "🔎 Search"]
                  ++ match found with
                     | [] => [did (st_warning "⚠️ No matching books found.")]
                     | _ :: _ => flat_map render_book found
                     end
                  ++ footer)).
Proof.
  intros En. exists (filter (hit lower query) (library m)).
  split; [apply selects_filter; intros b; apply hit_spec|].
  apply new_manager_outcome in En as Hm. destruct Hm as (_ & _ & Hyears).
  assert (Hsmall : render_books (filter (hit lower query) (library m))
                   = (Ret tt, flat_map render_book
                                (filter (hit lower query) (library m)))).
  { apply render_books_small. apply Forall_forall.
    intros b Hb. apply filter_In in Hb. rewrite Forall_forall in Hyears.
    apply Hyears. tauto. }
  unfold script. rewrite En.
  cbv beta iota zeta delta [branch shows]. cbn [mgr page].
  rewrite (call_quiet _ _ _ (search_books_run lower query _)).
  cbn [mgr page].
  destruct (filter (hit lower query) (library m)); [|rewrite Hsmall];
    cbn [mgr page List.app]; rewrite <- ?app_assoc; reflexivity.
Qed.

(** X21.  A book added in one run is listed in the next, when its year has
    no more digits than [str] converts: the run that lists the books over the
    file this run leaves shows every former record and then the new one. *)
Theorem added_book_is_listed_next_run (new_title new_author new_genre : string)
  (new_year : N) (read_status : bool) (file : option string) (m : manager) :
  new_manager file = Some (Ret m) ->
  new_title <> EmptyString -> new_author <> EmptyString ->
  Forall text_book (library m) ->
  let record := mk_book (strip new_title) (strip new_author)
                        (Z.of_N new_year) (strip new_genre) read_status in
  text_book record ->
  int_digits (Z.of_N new_year) <= int_max_str_digits ->
  exists s1 s2,
    script lower strip
      (on_add new_title new_author new_year new_genre read_status true) file
    = Some (Ret tt, s1)
    /\ script lower strip on_display_all (disk (mgr s1)) = Some (Ret tt, s2)
    /\ page s2
       = [st_markdown css;
          st_title "📚 Personal Library Manager";
          st_widget radio "Menu";
          st_header "📚 Your Library"]
         ++ flat_map render_book (library m) ++ render_book record ++ footer.
Proof.
  intros En Ht Ha Htext record Hrec Hyear.
  apply new_manager_outcome in En as Hm. destruct Hm as (_ & _ & Hyears).
  assert (Hall : writable (library m ++ [record])).
  { apply writable_app. split; [apply writable_of_parts; assumption|].
    split; [exact Hrec | exact Hyear]. }
  unfold script at 1. rewrite En.
  cbv beta iota zeta delta [branch shows]. cbn [mgr page].
  erewrite call_loud
    by (cbn [mgr];
        apply (add_book_ok strip new_title new_author new_genre
                 (Z.of_N new_year) read_status m Ht Ha Hall)).
  cbn [mgr page].
  eexists. eexists. split; [reflexivity|]. cbn [mgr disk].
  unfold script.
  unfold py_int. fold record. rewrite (new_manager_saved _ Hall).
  cbv beta iota zeta delta [branch shows]. cbn [mgr page library disk].
  rewrite (render_books_small _ (writable_years _ Hall)).
  destruct (library m ++ [record]) as [|b l] eqn:El.
  - destruct (library m); discriminate El.
  - rewrite <- El. split; [reflexivity|]. cbn [page List.app].
    rewrite flat_map_app. cbn [flat_map]. rewrite app_nil_r.
    rewrite <- !app_assoc. reflexivity.
Qed.

(** X22.  Over no file, and over a file that the page has written in full,
    a run never raises, whatever the user does with text and a year that
    [str] converts: it ends normally and leaves such a file again, so the
    next run does not raise either. *)
Theorem script_over_own_file_never_raises (i : interaction)
  (file : option string) :
  kept file -> text_entry strip i ->
  exists s,
    script lower strip i file = Some (Ret tt, s)
    /\ kept (disk (mgr s))
    /\ writable (library (mgr s)).
Proof.
  intros Hkept Hentry.
  destruct (new_manager_kept file Hkept) as (l & En & Hw).
  unfold script. rewrite En.
  destruct (branch_run lower strip i
              (mk_session (mk_manager l file [])
                 [st_markdown css;
                  st_title "📚 Personal Library Manager";
                  st_widget radio "Menu"]))
    as (r & m' & added & Eb & _ & _ & Hstep & _ & Hkeep).
  destruct (Hkeep Hentry Hw) as [-> Hw'].
  rewrite Eb.
  eexists. split; [reflexivity|]. cbn [shows mgr].
  split; [|exact Hw'].
  destruct (Hstep eq_refl) as [[Hin _]|[Hl Hd]].
  - right. exists (library m'). split; [exact Hw' | exact Hin].
  - cbn [mgr disk] in Hd. rewrite Hd. exact Hkept.
Qed.

End ScriptRuns.

(* ------------------------------------------------------------------ *)
(** ** The further statements at concrete inputs *)

(** Removing "dune" from the two books, then loading. *)
Lemma remove_book_then_load_witness :
  let m' := snd (remove_book ascii_lower "dune" two_books) in
  fst (remove_book ascii_lower "dune" two_books) = Ret tt
  /\ load_library m' = (Ret (of_catalog (library m')), m')
  /\ (forall held tr,
        load_library (mk_manager held (disk m') tr)
        = (Ret (of_catalog (library m')), mk_manager held (disk m') tr))
  /\ as_catalog (of_catalog (library m')) = Some (library m').
Proof.
  apply (remove_book_then_load ascii_lower "dune" two_books).
  constructor; [|constructor; [|constructor]];
    (split; [repeat split|]; apply Nat.leb_le; vm_compute; reflexivity).
Defined.

(** Adding Emma behind Dune, then loading. *)
Lemma add_book_then_load_witness :
  let m := mk_manager [dune] None [] in
  let run := add_book ascii_strip "Emma" "Jane Austen" 1815 "Romance" false in
  let m' := snd (run m) in
  fst (run m) = Ret tt
  /\ load_library m' = (Ret (of_catalog ([dune] ++ [emma])), m')
  /\ forall held tr,
       load_library (mk_manager held (disk m') tr)
       = (Ret (of_catalog ([dune] ++ [emma])), mk_manager held (disk m') tr).
Proof.
  apply (add_book_then_load ascii_strip "Emma" "Jane Austen" "Romance" 1815
           false (mk_manager [dune] None [])).
  - discriminate.
  - discriminate.
  - constructor; [|constructor; [|constructor]];
      (split; [repeat split|]; apply Nat.leb_le; vm_compute; reflexivity).
Defined.

(** Adding a second Dune, under blanks, then removing "Dune". *)
Lemma add_book_then_remove_witness :
  let added := snd (add_book ascii_strip " Dune " "F. Herbert" 1965 "" true
                      two_books) in
  library (snd (remove_book ascii_lower "Dune" added))
  = library (snd (remove_book ascii_lower "Dune" two_books))
  /\ ((forall b, In b (library two_books) ->
                 ~ same_ignoring_case ascii_lower (title b) "Dune") ->
      library (snd (remove_book ascii_lower "Dune" added))
      = library two_books).
Proof.
  apply (add_book_then_remove ascii_lower ascii_strip " Dune " "F. Herbert" ""
           1965 true two_books); discriminate.
Defined.

(** Two managers with the two books, over different files. *)
Lemma save_library_loses_nothing_witness :
  library two_books = library (mk_manager [dune; emma] None []).
Proof.
  apply (save_library_loses_nothing two_books
           (mk_manager [dune; emma] None []));
    vm_compute; reflexivity.
Defined.

(** Adding Emma, then searching for her title and for her author. *)
Lemma add_book_then_search_witness :
  let added := snd (add_book ascii_strip " Emma" "Jane Austen " 1815 "Romance"
                      false (mk_manager [dune] None [])) in
  (exists before,
     fst (search_books ascii_lower "Emma" added) = Ret (before ++ [emma]))
  /\ (exists before,
        fst (search_books ascii_lower "Jane Austen" added)
        = Ret (before ++ [emma])).
Proof.
  apply (add_book_then_search ascii_lower ascii_strip " Emma" "Jane Austen "
           "Romance" 1815 false (mk_manager [dune] None []));
    discriminate.
Defined.

(** "an" occurs in "JANE" once both are lower-cased. *)
Lemma search_books_narrows_witness :
  exists found1 found2,
    fst (search_books ascii_lower "an" two_books) = Ret found1
    /\ fst (search_books ascii_lower "JANE" two_books) = Ret found2
    /\ found2 = filter (hit ascii_lower "JANE") found1
    /\ incl found2 found1.
Proof.
  apply (search_books_narrows ascii_lower "an" "JANE" two_books).
  exists "j", "e". reflexivity.
Defined.

(** The two books: one read, one not. *)
Lemma display_statistics_extremes_witness :
  exists total percent,
    display_statistics two_books = (Ret (total, percent), two_books)
    /\ ((percent == 100)%Q
        <-> library two_books <> []
            /\ forall b, In b (library two_books) -> read b = true)
    /\ ((percent == 0)%Q
        <-> forall b, In b (library two_books) -> read b = false).
Proof.
  apply (display_statistics_extremes two_books).
  vm_compute. reflexivity.
Defined.

(** Adding Emma, unread, to the library that holds Dune, read. *)
Lemma add_book_then_statistics_witness :
  let m := mk_manager [dune] None [] in
  let added := snd (add_book ascii_strip "Emma" "Jane Austen" 1815 "Romance"
                      false m) in
  exists percent,
    display_statistics added = (Ret (1 + 1, percent)%Z, added)
    /\ percent
       = binary64 (binary64 (inject_Z (1 + 0) / inject_Z (1 + 1)) * 100)
    /\ (Qabs (percent - 100 * inject_Z (1 + 0) / inject_Z (1 + 1))
        <= 2 ^ (-46))%Q.
Proof.
  apply (add_book_then_statistics ascii_strip "Emma" "Jane Austen" "Romance"
           1815 false (mk_manager [dune] None []));
    discriminate.
Defined.

(** The two books saved. *)
Lemma new_manager_over_file_witness :
  new_manager None = Some (Ret (mk_manager [] None []))
  /\ new_manager (Some "{") = Some (Ret (mk_manager [] (Some "{") []))
  /\ fst (save_library two_books) = Ret tt
  /\ new_manager (disk (snd (save_library two_books)))
     = Some (Ret (mk_manager (library two_books)
                    (Some (json_dump (library two_books))) [])).
Proof.
  apply (new_manager_over_file two_books).
  constructor; [|constructor; [|constructor]];
    (split; [repeat split|]; apply Nat.leb_le; vm_compute; reflexivity).
Defined.

(** The run that adds Dune where there is no file. *)
Lemma script_leaves_loadable_file_witness :
  exists m'',
    new_manager (disk (mgr after_adding_dune)) = Some (Ret m'')
    /\ library m'' = library (mgr after_adding_dune).
Proof.
  apply (script_leaves_loadable_file ascii_lower ascii_strip
           (on_add "Dune" "Frank Herbert" 1965 "Sci-Fi" true true) None
           after_adding_dune).
  - vm_compute. reflexivity.
  - repeat constructor.
Defined.

(** The run that lists the books over the file that holds Dune. *)
Lemma script_looking_never_writes_witness :
  disk (mgr after_listing) = disk (mgr after_adding_dune)
  /\ (forall text, ~ In (did (file_write text)) (page after_listing))
  /\ (forall m, new_manager (disk (mgr after_adding_dune)) = Some (Ret m) ->
                mgr after_listing = m).
Proof.
  apply (script_looking_never_writes ascii_lower ascii_strip on_display_all
           (disk (mgr after_adding_dune)) (Ret tt) after_listing);
    vm_compute; reflexivity.
Defined.

(** A file that holds the byte 0xFF, with the statistics entry chosen. *)
Lemma script_raises_on_undecodable_file_witness :
  exists s,
    script ascii_lower ascii_strip on_statistics
      (Some (String (ascii_of_N 255) EmptyString))
    = Some (Raise UnicodeDecodeError, s)
    /\ page s = [st_markdown css]
    /\ disk (mgr s) = Some (String (ascii_of_N 255) EmptyString).
Proof.
  apply (script_raises_on_undecodable_file ascii_lower ascii_strip
           on_statistics (String (ascii_of_N 255) EmptyString)).
  reflexivity.
Defined.

(** The run that adds Dune: no year is negative afterwards. *)
Lemma script_keeps_years_nonnegative_witness :
  Forall (fun b => (0 <= year b)%Z) (library (mgr after_adding_dune)).
Proof.
  apply (script_keeps_years_nonnegative ascii_lower ascii_strip
           (on_add "Dune" "Frank Herbert" 1965 "Sci-Fi" true true) None
           (mk_manager [] None []) (Ret tt) after_adding_dune).
  - reflexivity.
  - constructor.
  - vm_compute. reflexivity.
Defined.

(** Searching for "herb" over the file that holds Dune. *)
Lemma script_search_page_witness :
  exists found,
    selects (fun b => occurs (ascii_lower "herb") (ascii_lower (title b))
                      \/ occurs (ascii_lower "herb") (ascii_lower (author b)))
            [dune] found
    /\ script ascii_lower ascii_strip (on_search "herb" true)
         (disk (mgr after_adding_dune))
       = Some (Ret tt,
               mk_session (mk_manager [dune] (disk (mgr after_adding_dune)) [])
                 ([st_markdown css;
                   st_title "📚 Personal Library Manager";
                   st_widget radio "Menu";
                   st_header "🔍 Search for a Book";
                   st_widget text_input "Enter title or author";
                   st_widget button "🔎 Search"]
                  ++ match found with
                     | [] => [did (st_warning "⚠️ No matching books found.")]
                     | _ :: _ => flat_map render_book found
                     end
                  ++ footer)).
Proof.
  apply (script_search_page ascii_lower ascii_strip "herb"
           (disk (mgr after_adding_dune))
           (mk_manager [dune] (disk (mgr after_adding_dune)) [])).
  vm_compute. reflexivity.
Defined.

(** Adding Emma over the file that holds Dune, then listing. *)
Lemma added_book_is_listed_next_run_witness :
  exists s1 s2,
    script ascii_lower ascii_strip
      (on_add "Emma" "Jane Austen" 1815 "Romance" false true)
      (disk (mgr after_adding_dune))
    = Some (Ret tt, s1)
    /\ script ascii_lower ascii_strip on_display_all (disk (mgr s1))
       = Some (Ret tt, s2)
    /\ page s2
       = [st_markdown css;
          st_title "📚 Personal Library Manager";
          st_widget radio "Menu";
          st_header "📚 Your Library"]
         ++ flat_map render_book [dune] ++ render_book emma ++ footer.
Proof.
  apply (added_book_is_listed_next_run ascii_lower ascii_strip "Emma"
           "Jane Austen" "Romance" 1815 false (disk (mgr after_adding_dune))
           (mk_manager [dune] (disk (mgr after_adding_dune)) [])).
  - vm_compute. reflexivity.
  - discriminate.
  - discriminate.
  - repeat constructor.
  - repeat constructor.
  - apply Nat.leb_le. vm_compute. reflexivity.
Defined.

(** The run that adds Emma over the file that holds Dune. *)
Lemma script_over_own_file_never_raises_witness :
  exists s,
    script ascii_lower ascii_strip
      (on_add " Emma" "Jane Austen" 1815 "Romance " false true)
      (disk (mgr after_adding_dune))
    = Some (Ret tt, s)
    /\ kept (disk (mgr s))
    /\ writable (library (mgr s)).
Proof.
  apply (script_over_own_file_never_raises ascii_lower ascii_strip
           (on_add " Emma" "Jane Austen" 1815 "Romance " false true)
           (disk (mgr after_adding_dune))).
  - right. exists [dune]. split; [|vm_compute; reflexivity].
    constructor; [|constructor].
    split; [repeat split|]. apply Nat.leb_le. vm_compute. reflexivity.
  - split; [repeat split|]. apply Nat.leb_le. vm_compute. reflexivity.
Defined.

(* ------------------------------------------------------------------ *)
(** ** Where the conditions of the statements above are needed *)

(** Two libraries that cannot be written leave the same beginning of a
    text: without the two calls returning, the file does not determine the
    library. *)
Example save_library_fragments_coincide :
  let m1 := mk_manager [lone] None [] in
  let m2 := mk_manager [lone; emma] None [] in
  fst (save_library m1) = Raise UnicodeEncodeError
  /\ fst (save_library m2) = Raise UnicodeEncodeError
  /\ disk (snd (save_library m1)) = disk (snd (save_library m2))
  /\ library m1 <> library m2.
Proof.
  cbv zeta. repeat split; try (vm_compute; reflexivity).
  discriminate.
Qed.

Lemma count_read_repeat (b : book) (n : nat) :
  count_read (repeat b n) = if read b then Z.of_nat n else 0%Z.
Proof.
  induction n as [|n IH]; cbn [repeat count_read].
  - destruct (read b); reflexivity.
  - rewrite IH. destruct (read b); lia.
Qed.

(** With 2^54 records of which one is not marked read, the quotient of the
    counts rounds to 1 and the percentage is 100. *)
Example display_statistics_extremes_needs_bound (n : nat) :
  Z.of_nat n = (2 ^ 54 - 1)%Z ->
  let m := mk_manager (emma :: repeat dune n) None [] in
  exists percent,
    display_statistics m = (Ret ((2 ^ 54)%Z, percent), m)
    /\ (percent == 100)%Q
    /\ ~ (forall b, In b (library m) -> read b = true).
Proof.
  intros Hn. cbv zeta. rewrite display_statistics_run. cbn [library].
  assert (Hlen : Z.of_nat (List.length (emma :: repeat dune n)) = (2 ^ 54)%Z).
  { cbn [List.length]. rewrite repeat_length, Nat2Z.inj_succ, Hn. lia. }
  assert (Hcount : count_read (emma :: repeat dune n) = (2 ^ 54 - 1)%Z).
  { cbn [count_read read emma]. rewrite count_read_repeat. cbn [read dune].
    exact Hn. }
  rewrite Hlen, Hcount.
  eexists. split; [reflexivity|]. split; [vm_compute; reflexivity|].
  intros H. specialize (H emma (or_introl eq_refl)). discriminate H.
Qed.

(** A year of 4301 digits, typed into the add entry where there is no file:
    the record is appended, [save_library] raises [ValueError] when it comes
    to the year, and the run ends there, with nothing reported. *)
Example added_year_too_long_raises :
  exists s,
    script ascii_lower ascii_strip
      (on_add "Dune" "Frank Herbert" (10 ^ 4300) "Sci-Fi" true true) None
    = Some (Raise ValueError, s)
    /\ List.length (library (mgr s)) = 1
    /\ disk (mgr s)
       = Some ("[" ++ nl ++ "    {" ++ nl
               ++ "        " ++ dq ++ "title" ++ dq ++ ": "
               ++ dq ++ "Dune" ++ dq ++ "," ++ nl
               ++ "        " ++ dq ++ "author" ++ dq ++ ": "
               ++ dq ++ "Frank Herbert" ++ dq ++ "," ++ nl
               ++ "        " ++ dq ++ "year" ++ dq ++ ": ")%string
    /\ forall e, In (did e) (page s) -> outcome_of e = None.
Proof.
  eexists. split; [vm_compute; reflexivity|].
  split; [reflexivity|]. split; [vm_compute; reflexivity|].
  intros e Hin. cbn [page] in Hin.
  repeat (destruct Hin as [Hin|Hin]; [try discriminate Hin|]);
    [inversion Hin; reflexivity | destruct Hin].
Qed.
